(** * Residence-life dashboard: aggregation core of [src/app/page.tsx]

    A shallow embedding of the pure functions of the dashboard page
    ([toLikert], [computeQuestionMeans], [computeIndexScores],
    [filterRowsByHall], [extractYearOrOrder]) and of the bodies of the derived
    values [indexScoresByDataset], [comparisonData], [trendLineData] and
    [trendDomain], followed by the properties the specification states about
    them.

    Conventions of the embedding.
    - A JavaScript string is a [string] whose characters stand for code units
      below 256.
    - A JavaScript number is a [number]: [NaN], an infinity, or a finite
      binary64 value, written as the rational it stands for, in lowest terms.
      Every arithmetic operation rounds its exact result to the nearest
      binary64 number, ties to even ([JS.ofQ]).  The sign of zero is not
      represented.
    - A JavaScript array is a [list]; an array has at most 2^32 - 1 elements
      ([JS.isArray]).
    - A row ([Record<string, ...>]) is a [gmap string value]; reading a column
      that is not there gives [VUndefined].  The objects that the page builds
      from a literal and fills by assignment are finite maps of their own
      properties, read and written through [Object.prototype] where the page
      uses arbitrary texts as keys ([inheritedText], [setProperty]).
    - The ordering keys of the trend series are small integers; they are
      kept in [Z]. *)

From Stdlib Require Import QArith Qround Qabs Qminmax Qpower Lqa.
From Stdlib Require Qcanon.
From Stdlib Require Import Ascii String DecimalString.
From Stdlib Require Import Sorting.Sorted Sorting.Permutation.
From stdpp Require Import base strings list gmap.

Local Open Scope string_scope.
Local Open Scope Z_scope.

(** ** JavaScript numbers *)

Module JS.

Inductive number : Type :=
| NaN
| Inf (negative : bool)
| Num (q : Q).

(** A whole number that the program obtains as such (the length of an
    array, a time stamp): it is a binary64 number up to 2^53. *)
Definition ofZ (z : Z) : number := Num (inject_Z z).
Definition ofNat (n : nat) : number := ofZ (Z.of_nat n).

(** An array has at most 2^32 - 1 elements. *)
Definition isArray {A : Type} (l : list A) : Prop :=
  Z.of_nat (length l) <= 4294967295.

(** Strict comparison and equality with zero on rationals, as booleans. *)
Definition Qltb (x y : Q) : bool := negb (Qle_bool y x).
Definition Qzerob (x : Q) : bool := Qeq_bool x 0.

(** *** Rounding to binary64 *)

(** 2^e *)
Definition pow2 (e : Z) : Q := (2 ^ e)%Q.

(** The integer closest to [x], the even one on a tie. *)
Definition roundEven (x : Q) : Z :=
  let f := Qfloor x in
  match (x - inject_Z f ?= 1 # 2)%Q with
  | Lt => f
  | Gt => f + 1
  | Eq => if Z.even f then f else f + 1
  end.

(** The exponent [e] with 2^(e-1) <= |x| < 2^e, for [x] other than 0: the
    logarithms of the numerator and of the denominator give it up to one. *)
Definition mag (x : Q) : Z :=
  let a := Qabs (Qred x) in
  let e := Z.log2 (Qnum a) - Z.log2 (Z.pos (Qden a)) in
  if Qle_bool (pow2 e) a then e + 1 else e.

(** The exponent of the last place of the binary64 numbers around [x]:
    53 significant bits, and no exponent below -1074. *)
Definition ulpExp (x : Q) : Z := Z.max (mag x - 53) (-1074).

(** The multiple of 2^(ulpExp x) closest to [x], ties to even. *)
Definition nearest (x : Q) : Q :=
  let e := ulpExp x in
  Qred (inject_Z (roundEven (x / pow2 e)) * pow2 e).

(** The Number value of a real number: rounded to nearest, and an infinity
    from 2^1024 on. *)
Definition ofQ (x : Q) : number :=
  let r := nearest x in
  if Qle_bool (pow2 1024) (Qabs r) then Inf (Qltb r 0) else Num r.

(** *** Operations *)

Definition isFinite (n : number) : bool :=
  match n with Num _ => true | _ => false end.

(** [a < b] of JavaScript: false as soon as one side is [NaN]. *)
Definition lt (a b : number) : bool :=
  match a, b with
  | NaN, _ | _, NaN => false
  | Inf na, Inf nb => na && negb nb
  | Inf na, Num _ => na
  | Num _, Inf nb => negb nb
  | Num x, Num y => Qltb x y
  end.

Definition gt (a b : number) : bool := lt b a.

Definition neg (a : number) : number :=
  match a with
  | NaN => NaN
  | Inf s => Inf (negb s)
  | Num x => Num (Qred (- x))
  end.

Definition add (a b : number) : number :=
  match a, b with
  | NaN, _ | _, NaN => NaN
  | Inf na, Inf nb => if Bool.eqb na nb then Inf na else NaN
  | Inf na, Num _ => Inf na
  | Num _, Inf nb => Inf nb
  | Num x, Num y => ofQ (x + y)
  end.

Definition sub (a b : number) : number := add a (neg b).

Definition div (a b : number) : number :=
  match a, b with
  | NaN, _ | _, NaN => NaN
  | Inf _, Inf _ => NaN
  | Inf na, Num y => Inf (xorb na (Qltb y 0))
  | Num x, Inf _ => Num 0
  | Num x, Num y =>
      if Qzerob y
      then (if Qzerob x then NaN else Inf (Qltb x 0))
      else ofQ (x / y)
  end.

Definition mul (a b : number) : number :=
  match a, b with
  | Num x, Num y => ofQ (x * y)
  | NaN, _ | _, NaN => NaN
  | Inf s, Num y | Num y, Inf s =>
      if Qzerob y then NaN else Inf (xorb s (Qltb y 0))
  | Inf s, Inf t => Inf (xorb s t)
  end.

(** [Math.min] and [Math.max] of two arguments. *)
Definition min2 (a b : number) : number :=
  match a, b with
  | NaN, _ | _, NaN => NaN
  | _, _ => if lt b a then b else a
  end.

Definition max2 (a b : number) : number :=
  match a, b with
  | NaN, _ | _, NaN => NaN
  | _, _ => if lt a b then b else a
  end.

(** [Math.min(...xs)] and [Math.max(...xs)]: the fold starts from the
    infinity that is neutral for it. *)
Definition minOf (xs : list number) : number := foldl min2 (Inf false) xs.
Definition maxOf (xs : list number) : number := foldl max2 (Inf true) xs.

End JS.

Abbreviation number := JS.number.
Abbreviation NaN := JS.NaN.
Abbreviation Inf := JS.Inf.
Abbreviation Num := JS.Num.

(** ** JavaScript strings: [trim], [Number(s)], [toFixed] *)

Module Str.

(** White space and line terminators among the code units below 256:
    TAB, LF, VT, FF, CR, SP and NBSP. *)
Definition isWhite (c : ascii) : bool :=
  let n := nat_of_ascii c in
  ((9 <=? n)%nat && (n <=? 13)%nat) || (n =? 32)%nat || (n =? 160)%nat.

Fixpoint trimStart (s : string) : string :=
  match s with
  | String c s' => if isWhite c then trimStart s' else s
  | EmptyString => EmptyString
  end.

(** Drops the white space at the end: a character is kept when it is not
    white space or when something is kept after it. *)
Fixpoint trimEnd (s : string) : string :=
  match s with
  | EmptyString => EmptyString
  | String c s' =>
      match trimEnd s' with
      | EmptyString => if isWhite c then EmptyString else String c EmptyString
      | t => String c t
      end
  end.

Definition trim (s : string) : string := trimEnd (trimStart s).

Definition digitVal (c : ascii) : option Z :=
  let n := nat_of_ascii c in
  if ((48 <=? n)%nat && (n <=? 57)%nat)%bool then Some (Z.of_nat n - 48) else None.

Definition isDigit (c : ascii) : bool :=
  match digitVal c with Some _ => true | None => false end.

Definition hexVal (c : ascii) : option Z :=
  let n := nat_of_ascii c in
  if ((48 <=? n)%nat && (n <=? 57)%nat)%bool then Some (Z.of_nat n - 48)
  else if ((65 <=? n)%nat && (n <=? 70)%nat)%bool then Some (Z.of_nat n - 55)
  else if ((97 <=? n)%nat && (n <=? 102)%nat)%bool then Some (Z.of_nat n - 87)
  else None.

(** Reads the longest prefix of digits in base [base]; returns its value, the
    number of digits read and the rest. *)
Fixpoint readDigits (dv : ascii -> option Z) (base : Z) (acc : Z) (cnt : nat)
    (s : string) : Z * nat * string :=
  match s with
  | String c s' =>
      match dv c with
      | Some d => if d <? base then readDigits dv base (base * acc + d) (S cnt) s'
                  else (acc, cnt, s)
      | None => (acc, cnt, s)
      end
  | EmptyString => (acc, cnt, s)
  end.

(** [ExponentPart_opt] followed by the end of the text: the exponent, or
    [None] when the text is not of that form. *)
Definition readExponent (s : string) : option Z :=
  match s with
  | EmptyString => Some 0
  | String c s' =>
      if (Ascii.eqb c "e" || Ascii.eqb c "E")%bool then
        let '(sgn, s'') :=
          match s' with
          | String "+" r => (1, r)
          | String "-" r => (-1, r)
          | _ => (1, s')
          end in
        match readDigits digitVal 10 0 0 s'' with
        | (e, S _, EmptyString) => Some (sgn * e)
        | _ => None
        end
      else None
  end.

Definition pow10 (e : Z) : Q :=
  if 0 <=? e then inject_Z (10 ^ e) else (1 # Z.to_pos (10 ^ (- e)))%Q.

(** [StrUnsignedDecimalLiteral] other than [Infinity]:
    digits, an optional fraction, an optional exponent; the result is the
    mathematical value of the literal. *)
Definition readUnsignedDecimal (s : string) : option Q :=
  let '(ip, ni, r1) := readDigits digitVal 10 0 0 s in
  let '(fp, nf, r2) :=
    match r1 with
    | String "." r => readDigits digitVal 10 0 0 r
    | _ => (0, 0%nat, r1)
    end in
  if ((ni =? 0)%nat && (nf =? 0)%nat)%bool then None
  else
    match readExponent r2 with
    | Some e =>
        Some (Qred ((inject_Z ip + inject_Z fp * pow10 (- Z.of_nat nf))
                    * pow10 e))
    | None => None
    end.

Definition readNonDecimal (dv : ascii -> option Z) (base : Z) (s : string)
    : number :=
  match readDigits dv base 0 0 s with
  | (v, S _, EmptyString) => JS.ofQ (inject_Z v)
  | _ => NaN
  end.

Definition readDecimal (s : string) : number :=
  let '(sgn, body) :=
    match s with
    | String "+" r => (false, r)
    | String "-" r => (true, r)
    | _ => (false, s)
    end in
  if String.eqb body "Infinity" then Inf sgn
  else
    match readUnsignedDecimal body with
    | Some q => JS.ofQ (if sgn then (- q)%Q else q)
    | None => NaN
    end.

(** [Number(s)] for a string: the StringToNumber conversion.  White space
    around the literal is dropped, the empty text is 0, a text that is not a
    numeric literal is [NaN]; the value of a literal is rounded to the
    nearest binary64 number.  The language prescribes that rounding for
    literals of up to 20 significant digits and lets an engine round longer
    ones from their first 20 digits; the embedding rounds every literal to
    nearest. *)
Definition toNumber (s : string) : number :=
  match trim s with
  | EmptyString => Num 0
  | String "0" (String "x" r) | String "0" (String "X" r) =>
      readNonDecimal hexVal 16 r
  | String "0" (String "o" r) | String "0" (String "O" r) =>
      readNonDecimal digitVal 8 r
  | String "0" (String "b" r) | String "0" (String "B" r) =>
      readNonDecimal digitVal 2 r
  | t => readDecimal t
  end.

(** [parseInt(s, 10)] on a text made of digits only (the only use in the
    page is on the four digits matched by a regular expression). *)
Definition parseIntDigits (s : string) : Z :=
  fst (fst (readDigits digitVal 10 0 0 s)).

Definition showN (n : N) : string := NilZero.string_of_uint (N.to_uint n).

End Str.

(** ** Values, rows and the runtime's number printer *)

(** What a cell of a parsed CSV row can hold
    ([string | number | null | undefined]). *)
Inductive value : Type :=
| VNull
| VUndefined
| VString (s : string)
| VNumber (n : number).

(** Two texts belong to the JavaScript runtime and not to the page: the
    decimal text of a finite number ([Number::toString]), which the page
    reaches through [String(v)] on a cell that holds a number and through
    [toFixed] at or above 10^21, and the source text that the runtime shows
    for a built-in function, which the page reaches when it reads a counter
    under a name that [Object.prototype] has.  The development is parametric
    in both. *)
Class Runtime : Type := {
  finiteToString : Q -> string;
  nativeFunctionText : string -> string;
}.

(** [Number::toString] *)
Definition numberToString `{Runtime} (n : number) : string :=
  match n with
  | NaN => "NaN"
  | Inf s => if s then "-Infinity" else "Infinity"
  | Num q => finiteToString q
  end.

Abbreviation RawRow := (gmap string value).

(** [row[col]].  A row is an object of the CSV parser whose own properties
    are the header cells; the columns that the page reads are the fixed
    names of the catalog, none of which [Object.prototype] has. *)
Definition get (row : RawRow) (col : string) : value :=
  default VUndefined (row !! col).

(** [v ?? d] *)
Definition nullish (v d : value) : value :=
  match v with
  | VNull | VUndefined => d
  | _ => v
  end.

(** ** Plain objects filled by assignment

    An object made by a literal inherits from [Object.prototype].  Reading
    [obj[k]] finds an own property first and an inherited member otherwise;
    writing [obj[k] = v] with a number or a text [v] makes or replaces an own
    property, except under the key [__proto__], where the inherited setter
    is called and ignores a value that is neither an object nor null. *)

(** The function-valued members of [Object.prototype]. *)
Definition objectPrototypeMethods : list string :=
  [ "constructor"; "hasOwnProperty"; "isPrototypeOf"; "propertyIsEnumerable";
    "toLocaleString"; "toString"; "valueOf";
    "__defineGetter__"; "__defineSetter__";
    "__lookupGetter__"; "__lookupSetter__" ].

(** What a read of [obj[k]] finds when [obj] has no own property [k], as
    [String(...)] shows it: the text of the inherited function, the text of
    [Object.prototype] itself under [__proto__], and nothing (the read gives
    [undefined]) under any other name.  The inherited members are objects,
    hence truthy. *)
Definition inheritedText `{Runtime} (k : string) : option string :=
  if String.eqb k "__proto__" then Some "[object Object]"
  else if bool_decide (k ∈ objectPrototypeMethods)
       then Some (nativeFunctionText k)
       else None.

(** [obj[k] = v] for a number or a text [v]. *)
Definition setProperty {V : Type} (k : string) (v : V) (obj : gmap string V)
    : gmap string V :=
  if String.eqb k "__proto__" then obj else <[k := v]> obj.

(** ** Records of the page *)

Inductive IndexKey : Type :=
| livingEnvironment
| belonging
| raSupport
| staff
| empowerment
| overallExperience.

#[export] Instance IndexKey_eq_dec : EqDecision IndexKey.
Proof. solve_decision. Defined.

Module IndexConfig.
Record t : Type := mk {
  key : IndexKey;
  label : string;
  description : string;
  color : string;
  questions : list string;
  rowFilter : option (RawRow -> bool);
}.
End IndexConfig.

Module Dataset.
Inductive source_t : Type := demo | upload.
Record t : Type := mk {
  id : string;
  label : string;
  rows : list RawRow;
  source : source_t;
}.
End Dataset.

Module IndexScore.
Record t : Type := mk {
  key : IndexKey;
  label : string;
  color : string;
  mean : number;
}.
End IndexScore.

(** An element of [trendLineData]. *)
Module TrendPoint.
Record t : Type := mk {
  datasetLabel : string;
  order : Z;
  score : number;
}.
End TrendPoint.

Module QuestionStat.
Record t : Type := mk {
  question : string;
  mean : number;
}.
End QuestionStat.

(** An element of [radarData]. *)
Module RadarPoint.
Record t : Type := mk {
  index : string;
  score : number;
  fullMark : number;
}.
End RadarPoint.

Section Page.
Context `{Runtime}.

(** [String(v)] *)
Definition JSString (v : value) : string :=
  match v with
  | VNull => "null"
  | VUndefined => "undefined"
  | VString s => s
  | VNumber n => numberToString n
  end.

Definition padStart0 (len : nat) (s : string) : string :=
  String.concat "" (replicate (len - String.length s) "0") ++ s.

(** The digits of [n] with the decimal point before the last [f] of them,
    zeros added in front when there are not more than [f]. *)
Definition fixedText (f : nat) (n : Z) : string :=
  let m := Str.showN (Z.to_N n) in
  if (f =? 0)%nat then m
  else
    let m := padStart0 (S f) m in
    let k := String.length m in
    String.substring 0 (k - f) m ++ "." ++ String.substring (k - f) f m.

(** [x.toFixed(f)]: a number that is not finite is printed as it is;
    otherwise the sign is set apart, and below 10^21 the text is made of the
    integer [n] closest to [x * 10^f], the larger one on a tie. *)
Definition toFixed (f : nat) (x : number) : string :=
  match x with
  | Num q =>
      let s := if JS.Qltb q 0 then "-" else "" in
      let x := Qabs q in
      let m :=
        if Qle_bool (inject_Z (10 ^ 21)) x then numberToString (Num x)
        else fixedText f (Qfloor (x * inject_Z (10 ^ Z.of_nat f) + (1 # 2))%Q) in
      s ++ m
  | _ => numberToString x
  end.

(** [Number(x.toFixed(2))], the rounding used for every charted score. *)
Definition round2 (x : number) : number := Str.toNumber (toFixed 2 x).

(** ** Catalog *)

Definition COL_BUILDING := "Which building do you currently live in?".
Definition COL_CLASS_YEAR := "What is your current class year?".
Definition COL_RA_ASSIGNED :=
  "Do you have a Resident Assistant (RA) assigned to your community?".

(** The eligibility predicate of the RA Support index. *)
Definition raAssigned (row : RawRow) : bool :=
  let v := Str.trim (JSString (nullish (get row COL_RA_ASSIGNED) (VString ""))) in
  String.eqb v "Yes".

Definition INDEXES : list IndexConfig.t := [
  IndexConfig.mk livingEnvironment "Living Environment"
    "Safety, inclusivity, facilities, and how the hall feels day-to-day."
    "#38bdf8"
    [ "My residence hall feels like a safe environment.";
      "I feel comfortable walking in and around my hall, even at night.";
      "My hall provides a welcoming and inclusive community.";
      "Physical facilities (cleanliness, maintenance, common spaces) meet my needs.";
      "Amenities (lounges, study areas, kitchens) are adequate and usable.";
      "Community events and programs contribute to my sense of belonging." ]
    None;
  IndexConfig.mk belonging "Belonging & Connection"
    "Feeling noticed, valued, able to be oneself, and connected to others."
    "#6366f1"
    [ "I feel a strong sense of belonging in my residence hall.";
      "I have developed meaningful friendships within my hall.";
      "People in my hall notice when I am not around.";
      "I feel that my presence and participation matter to others in my community.";
      "I feel comfortable expressing my identity in my residence hall.";
      "My hall environment makes it easy to meet and connect with others." ]
    None;
  IndexConfig.mk raSupport "RA Support"
    "Approachability, communication, and support from Resident Assistants."
    "#22c55e"
    [ "My RA is approachable and easy to contact.";
      "My RA keeps me informed about hall policies, resources, and events.";
      "My RA supports my personal and academic success.";
      "My RA responds to my needs in a timely manner.";
      "My RA encourages community connection and belonging.";
      "I feel comfortable seeking assistance from my RA when needed." ]
    (Some raAssigned);
  IndexConfig.mk staff "Professional Staff"
    "Visibility, responsiveness, inclusivity, and voice with pro staff."
    "#f97316"
    [ "Professional staff are visible and accessible in my hall.";
      "Professional staff respond effectively to student concerns.";
      "Professional staff follow up after issues are reported.";
      "Professional staff promote an inclusive and welcoming environment.";
      "I have opportunities to share feedback with professional staff.";
      "I believe my opinions are considered in hall-level decisions." ]
    None;
  IndexConfig.mk empowerment "Empowerment & Development"
    "Growth, voice, independence, and self-authorship in the hall."
    "#ec4899"
    [ "I feel empowered to make decisions that affect my residential experience.";
      "Living on campus helps me reflect on my personal values and goals.";
      "When I disagree with staff or policies, I feel comfortable expressing my perspective.";
      "My experiences in the hall have helped me become more independent and confident." ]
    None;
  IndexConfig.mk overallExperience "Overall Experience"
    "Big-picture residential satisfaction and connection to USF."
    "#a855f7"
    [ "Living in on-campus housing has positively impacted my USF experience.";
      "I would recommend living on campus to other students.";
      "If given the option, I would choose to live on campus again.";
      "Because of my residential experience, I feel more connected to the broader USF community." ]
    None
].

(** ** Aggregation *)

Definition toLikert (v : value) : option number :=
  match v with
  | VNull | VUndefined => None
  | _ =>
      let s := Str.trim (JSString v) in
      if String.eqb s "" then None
      else
        let n := Str.toNumber s in
        if negb (JS.isFinite n) then None
        else if (JS.lt n (Num 1) || JS.gt n (Num 5))%bool then None
        else Some n
  end.

(** The body of [rows.forEach] in [computeQuestionMeans]: one row's effect on
    the running [sum] and [count]. *)
Definition accumulate (q : string) (rowFilter : option (RawRow -> bool))
    (acc : number * number) (row : RawRow) : number * number :=
  let '(sum, count) := acc in
  if match rowFilter with Some f => negb (f row) | None => false end
  then (sum, count)
  else
    match toLikert (get row q) with
    | Some score => (JS.add sum score, JS.add count (Num 1))
    | None => (sum, count)
    end.

Definition questionMean (rows : list RawRow) (rowFilter : option (RawRow -> bool))
    (q : string) : QuestionStat.t :=
  let '(sum, count) := foldl (accumulate q rowFilter) (Num 0, Num 0) rows in
  let mean := if JS.gt count (Num 0) then JS.div sum count else Num 0 in
  QuestionStat.mk q mean.

Definition computeQuestionMeans (rows : list RawRow) (questions : list string)
    (rowFilter : option (RawRow -> bool)) : list QuestionStat.t :=
  map (questionMean rows rowFilter) questions.

(** The index mean out of the question statistics: the body of the [map]
    callback of [computeIndexScores] after [qs] is computed. *)
Definition indexMean (qs : list QuestionStat.t) : number :=
  let validMeans :=
    filter (fun m => JS.gt m (Num 0) = true) (map QuestionStat.mean qs) in
  if (0 <? length validMeans)%nat
  then JS.div (foldl JS.add (Num 0) validMeans) (JS.ofNat (length validMeans))
  else Num 0.

Definition indexScore (rows : list RawRow) (idx : IndexConfig.t) : IndexScore.t :=
  let qs := computeQuestionMeans rows (IndexConfig.questions idx)
                                 (IndexConfig.rowFilter idx) in
  IndexScore.mk (IndexConfig.key idx) (IndexConfig.label idx)
                (IndexConfig.color idx) (indexMean qs).

Definition computeIndexScores (rows : list RawRow) : list IndexScore.t :=
  map (indexScore rows) INDEXES.

Definition buildingOf (r : RawRow) : string :=
  Str.trim (JSString (nullish (get r COL_BUILDING) (VString ""))).

Definition filterRowsByHall (rows : list RawRow) (hallFilter : string)
    : list RawRow :=
  if String.eqb hallFilter "ALL" then rows
  else filter (fun r => String.eqb (buildingOf r) hallFilter = true) rows.

(** ** Ordering key of a dataset *)

(** Does the text start with [20] followed by two digits? *)
Definition startsWithYear (s : string) : bool :=
  match s with
  | String a (String b (String c (String d _))) =>
      Ascii.eqb a "2" && Ascii.eqb b "0" && Str.isDigit c && Str.isDigit d
  | _ => false
  end.

(** [label.match(/(20\d{2})/)]: the leftmost match, if any. *)
Fixpoint matchYear (s : string) : option string :=
  match s with
  | EmptyString => None
  | String _ s' =>
      if startsWithYear s then Some (String.substring 0 4 s) else matchYear s'
  end.

Definition extractYearOrOrder (label : string) (fallbackIndex : nat) : Z :=
  match matchYear label with
  | Some m => Str.parseIntDigits m
  | None => 1000 + Z.of_nat fallbackIndex
  end.

(** ** Derived values of the page component

    Each [useMemo] body is a function of its dependencies. *)

(** [map[ds.id] = computeIndexScores(rowsForHall)] for every dataset.  The
    ids are made by the page ([demo], or a file name followed by a time stamp
    and a position), and the page reads the map at the ids of the same
    datasets only: every property it reads is an own property. *)
Definition indexScoresByDataset (datasets : list Dataset.t) (hallFilter : string)
    : gmap string (list IndexScore.t) :=
  foldl (fun map ds =>
           let rowsForHall := filterRowsByHall (Dataset.rows ds) hallFilter in
           <[Dataset.id ds := computeIndexScores rowsForHall]> map)
        ∅ datasets.

(** [indexScoresByDataset[ds.id] ?? []] followed by
    [scores.find((s) => s.key === k)]. *)
Definition findScore (scoresBy : gmap string (list IndexScore.t))
    (ds : Dataset.t) (k : IndexKey) : option IndexScore.t :=
  let scores := default [] (scoresBy !! Dataset.id ds) in
  List.find (fun s => bool_decide (IndexScore.key s = k)) scores.

(** One object of [comparisonData]: [{ index: idx.label }] and then one
    assignment [row[ds.label] = ...] per dataset, in the order of the
    datasets. *)
Definition comparisonRow (datasets : list Dataset.t)
    (scoresBy : gmap string (list IndexScore.t)) (idx : IndexConfig.t)
    : gmap string value :=
  foldl (fun row ds =>
           let score :=
             match findScore scoresBy ds (IndexConfig.key idx) with
             | Some s => IndexScore.mean s
             | None => Num 0
             end in
           setProperty (Dataset.label ds) (VNumber (round2 score)) row)
        {[ "index" := VString (IndexConfig.label idx) ]} datasets.

Definition comparisonData (datasets : list Dataset.t)
    (scoresBy : gmap string (list IndexScore.t)) : list (gmap string value) :=
  if (length datasets <? 2)%nat then []
  else map (comparisonRow datasets scoresBy) INDEXES.

Definition trendPoint (scoresBy : gmap string (list IndexScore.t))
    (trendIndexKey : IndexKey) (idx : nat) (ds : Dataset.t) : TrendPoint.t :=
  TrendPoint.mk (Dataset.label ds)
    (extractYearOrOrder (Dataset.label ds) idx)
    match findScore scoresBy ds trendIndexKey with
    | Some s => round2 (IndexScore.mean s)
    | None => Num 0
    end.

(** [rows.sort((a, b) => a.order - b.order)]: the sort of an array is
    stable, and the keys are integers, so the result is the stable ordering
    by [order]; it is computed here by insertion. *)
Fixpoint insertByOrder (x : TrendPoint.t) (l : list TrendPoint.t)
    : list TrendPoint.t :=
  match l with
  | [] => [x]
  | y :: l' =>
      if TrendPoint.order x - TrendPoint.order y <=? 0 then x :: l
      else y :: insertByOrder x l'
  end.

Definition sortByOrder (l : list TrendPoint.t) : list TrendPoint.t :=
  foldr insertByOrder [] l.

Definition trendLineData (datasets : list Dataset.t)
    (scoresBy : gmap string (list IndexScore.t)) (trendIndexKey : IndexKey)
    : list TrendPoint.t :=
  if (length datasets <? 2)%nat then []
  else
    let rows :=
      filter (fun r => JS.gt (TrendPoint.score r) (Num 0) = true)
             (imap (trendPoint scoresBy trendIndexKey) datasets) in
    sortByOrder rows.

Definition trendDomain (trendLineData : list TrendPoint.t) : number * number :=
  if (length trendLineData =? 0)%nat then (Num 1, Num 5)
  else
    let scores := map TrendPoint.score trendLineData in
    let min := JS.minOf scores in
    let max := JS.maxOf scores in
    let pad := JS.ofQ (2 # 10) in
    (JS.max2 (Num 1) (JS.sub min pad), JS.min2 (Num 5) (JS.add max pad)).

(** The two comparison views as the component computes them, from the
    datasets, the hall filter and the selected index. *)
Definition pageComparisonData (datasets : list Dataset.t) (hallFilter : string)
    : list (gmap string value) :=
  comparisonData datasets (indexScoresByDataset datasets hallFilter).

Definition pageTrendLineData (datasets : list Dataset.t) (hallFilter : string)
    (trendIndexKey : IndexKey) : list TrendPoint.t :=
  trendLineData datasets (indexScoresByDataset datasets hallFilter) trendIndexKey.

End Page.

(** ** A runtime for the examples

    A printer of finite numbers that agrees with [Number::toString] on the
    integers below 10^21, which are the numbers that the examples print, and
    the text that current engines show for a built-in function.  Every
    general statement below holds for all runtimes; this one only serves to
    evaluate the page on concrete rows. *)

Fixpoint fracDigits (fuel : nat) (r den : Z) : string :=
  match fuel with
  | O => ""
  | S fuel' =>
      if r =? 0 then ""
      else Str.showN (Z.to_N (10 * r / den)) ++ fracDigits fuel' (10 * r mod den) den
  end.

Definition showFinite (q : Q) : string :=
  let a := Qabs q in
  let ip := Qfloor a in
  let r := Qnum a - ip * Z.pos (Qden a) in
  (if JS.Qltb q 0 then "-" else "")
    ++ Str.showN (Z.to_N ip)
    ++ (if r =? 0 then "" else "." ++ fracDigits 17 r (Z.pos (Qden a))).

Definition showNative (name : string) : string :=
  "function " ++ (if String.eqb name "constructor" then "Object" else name)
    ++ "() { [native code] }".

Definition decimalRuntime : Runtime :=
  {| finiteToString := showFinite; nativeFunctionText := showNative |}.

(** ** Vocabulary of the statements *)

(** A row takes part in an aggregation when there is no eligibility predicate
    or when the predicate accepts it. *)
Definition eligible (rowFilter : option (RawRow -> bool)) (row : RawRow) : bool :=
  match rowFilter with
  | Some f => f row
  | None => true
  end.

(** The valid answers to question [q] among the eligible rows, in row order. *)
Definition responses `{Runtime} (rowFilter : option (RawRow -> bool))
    (q : string) (rows : list RawRow) : list number :=
  omap (fun row => if eligible rowFilter row then toLikert (get row q) else None)
       rows.

(** A finite number between 1 and 5. *)
Definition onScale (n : number) : Prop :=
  exists q : Q, n = Num q /\ (1 <= q <= 5)%Q.

Definition Qsum (l : list Q) : Q := foldr Qplus 0%Q l.

#[export] Instance Qeq_decision (x y : Q) : Decision (x == y)%Q := Qeq_dec x y.

(** The arithmetic mean of a non-empty list of rationals. *)
Definition Qmean (l : list Q) : Q :=
  (Qsum l / inject_Z (Z.of_nat (length l)))%Q.

(** The mean of a list of numbers as binary64 arithmetic gives it: the sum
    from left to right, starting from 0, divided by the number of
    elements. *)
Definition meanOf (l : list number) : number :=
  JS.div (foldl JS.add (Num 0) l) (JS.ofNat (length l)).

(** Every dataset holds an array of rows. *)
Definition rowArrays (datasets : list Dataset.t) : Prop :=
  Forall (fun ds => JS.isArray (Dataset.rows ds)) datasets.

(** The text made of [n] times the digit 1. *)
Fixpoint ones (n : nat) : string :=
  match n with
  | O => ""
  | S n' => ones n' ++ "1"
  end.

(** The hall filter as a predicate on one row. *)
Definition passesHall `{Runtime} (hallFilter : string) (r : RawRow) : bool :=
  String.eqb hallFilter "ALL" || String.eqb (buildingOf r) hallFilter.

(** Ascending order of the trend series. *)
Definition byOrder (a b : TrendPoint.t) : Prop :=
  TrendPoint.order a <= TrendPoint.order b.

(** The score a dataset contributes to the comparison row of index [k]:
    its computed mean, or 0 when none is found. *)
Definition scoreOr0 (scoresBy : gmap string (list IndexScore.t))
    (k : IndexKey) (ds : Dataset.t) : number :=
  match findScore scoresBy ds k with
  | Some s => IndexScore.mean s
  | None => Num 0
  end.

(** Same numerator and same denominator. *)
Definition Qsame (x y : Q) : bool :=
  (Qnum x =? Qnum y)%Z && (Qden x =? Qden y)%positive.

(** Does the two-decimal text of [n] hundredths read back as the binary64
    number closest to [n / 100]? *)
Definition readsAsHundredths (n : Z) : bool :=
  match Str.toNumber (fixedText 2 n) with
  | Num r => Qsame r (JS.nearest (n # 100))
  | _ => false
  end.

(** The sentinel 0 or a number of the scale. *)
Definition zeroOrOnScale (n : number) : Prop := n = Num 0 \/ onScale n.

(** ** Sample rows and datasets

    Concrete inputs on which the statements below are evaluated. *)

(** A parsed CSV row: every cell is a text. *)
Definition rowOf (cells : list (string * string)) : RawRow :=
  list_to_map (map (fun '(k, v) => (k, VString v)) cells).

(** One row per answer to a single question. *)
Definition answers (q : string) (vals : list string) : list RawRow :=
  map (fun v => rowOf [(q, v)]) vals.

Definition Q_RA1 := "My RA is approachable and easy to contact.".
Definition Q_OE1 :=
  "Living in on-campus housing has positively impacted my USF experience.".

(** An index of three questions, the first of which nobody answers. *)
Definition sampleIndex : IndexConfig.t :=
  IndexConfig.mk staff "Sample" "Three questions." "#000000"
                 ["Q1"; "Q2"; "Q3"] None.

Definition sampleRows : list RawRow :=
  [ rowOf [("Q1", "n/a"); ("Q2", "5"); ("Q3", "2")];
    rowOf [("Q2", "3"); ("Q3", "2")] ].

(** A resident without an RA who still rates the RA. *)
Definition rowNoRA : RawRow :=
  rowOf [(COL_BUILDING, "Hall A"); (COL_RA_ASSIGNED, " No "); (Q_RA1, "5")].

Definition rowWithRA : RawRow :=
  rowOf [(COL_BUILDING, " Hall A "); (COL_RA_ASSIGNED, "Yes"); (Q_RA1, "3")].

Definition rowHallB : RawRow :=
  rowOf [(COL_BUILDING, "Hall B"); (COL_RA_ASSIGNED, "Yes"); (Q_RA1, "4")].

Definition hallRows : list RawRow := [rowNoRA; rowWithRA; rowHallB].

(** Two survey years: index scores 4.1 and 3.8 for Overall Experience. *)
Definition ds2026 : Dataset.t :=
  Dataset.mk "ResLife_2026.csv-1-0" "ResLife_2026"
    (answers Q_OE1 ["4"; "4"; "4"; "4"; "4"; "4"; "4"; "4"; "4"; "5"])
    Dataset.upload.

Definition ds2025 : Dataset.t :=
  Dataset.mk "ResLife_2025.csv-2-0" "ResLife_2025"
    (answers Q_OE1 ["4"; "4"; "4"; "4"; "4"; "4"; "4"; "4"; "3"; "3"])
    Dataset.upload.

(** Two uploads that get the same label. *)
Definition dsSpring : Dataset.t :=
  Dataset.mk "spring_2025.csv-3-0" "2025 Survey" (answers Q_OE1 ["5"; "4"])
             Dataset.upload.

Definition dsFall : Dataset.t :=
  Dataset.mk "fall_2025.csv-4-0" "2025 Survey" (answers Q_OE1 ["3"; "2"])
             Dataset.upload.

(** A long session: a survey of the year 2000, a thousand uploads without
    rows, and last an upload whose label has no year. *)
Definition dsYear2000 : Dataset.t :=
  Dataset.mk "ResLife_2000.csv-5-0" "2000 Survey" (answers Q_OE1 ["5"])
             Dataset.upload.

Definition dsEmpty (i : nat) : Dataset.t :=
  Dataset.mk ("pilot.csv-6-" ++ Str.showN (N.of_nat i)) "pilot" []
             Dataset.upload.

Definition dsLate : Dataset.t :=
  Dataset.mk "spring_cohort.csv-7-0" "spring_cohort" (answers Q_OE1 ["4"])
             Dataset.upload.

Definition longSession : list Dataset.t :=
  (dsYear2000 :: map dsEmpty (seq 0 1000) ++ [dsLate])%list.

(** The binary64 numbers 3.8 and 4.1. *)
Definition score38 : Q := JS.nearest (38 # 10).
Definition score41 : Q := JS.nearest (41 # 10).

Definition twoPoints : list TrendPoint.t :=
  [ TrendPoint.mk "ResLife_2025" 2025 (Num score38);
    TrendPoint.mk "ResLife_2026" 2026 (Num score41) ].

(** ** The rest of the page: labels, selectors, summaries and handlers *)

Section Views.
Context `{Runtime}.

(** *** Label of an uploaded file *)

(** The tail that [/\.[^/.]+$/] needs after the dot: one character or more,
    none of them a slash or a dot. *)
Fixpoint isExtension (s : string) : bool :=
  match s with
  | EmptyString => false
  | String c EmptyString => negb (Ascii.eqb c "/" || Ascii.eqb c ".")
  | String c s' => negb (Ascii.eqb c "/" || Ascii.eqb c ".") && isExtension s'
  end.

(** [fileName.replace(/\.[^/.]+$/, '')]: the leftmost dot that is followed
    by an extension is dropped with everything after it. *)
Fixpoint stripExtension (s : string) : string :=
  match s with
  | EmptyString => EmptyString
  | String c s' =>
      if Ascii.eqb c "." && isExtension s' then EmptyString
      else String c (stripExtension s')
  end.

Definition inferDatasetLabel (fileName : string) : string :=
  match matchYear fileName with
  | Some m => m ++ " Survey"
  | None =>
      let base := stripExtension fileName in
      if String.eqb base "" then "Uploaded Survey" else base
  end.

(** *** Selectors *)

(** [activeDataset]; the test [if (activeDatasetId)] fails on [null] and on
    the empty text. *)
Definition activeDataset (datasets : list Dataset.t)
    (activeDatasetId : option string) : option Dataset.t :=
  match datasets with
  | [] => None
  | first :: _ =>
      let found :=
        match activeDatasetId with
        | Some a =>
            if String.eqb a "" then None
            else List.find (fun d => String.eqb (Dataset.id d) a) datasets
        | None => None
        end in
      match found with
      | Some d => Some d
      | None => Some first
      end
  end.

(** [halls.add(v)] on a [Set], kept in insertion order. *)
Definition setAdd (v : string) (halls : list string) : list string :=
  if bool_decide (v ∈ halls) then halls else (halls ++ [v])%list.

(** [Array.prototype.sort()] without a comparator on texts: ascending order
    of the code units, computed by insertion. *)
Fixpoint insertString (x : string) (l : list string) : list string :=
  match l with
  | [] => [x]
  | y :: l' => if String.leb x y then x :: l else y :: insertString x l'
  end.

Definition sortStrings (l : list string) : list string :=
  foldr insertString [] l.

Definition hallOptions (datasets : list Dataset.t) : list string :=
  let halls :=
    foldl (fun halls ds =>
             foldl (fun halls r =>
                      let v := buildingOf r in
                      if String.eqb v "" then halls else setAdd v halls)
                   halls (Dataset.rows ds))
          [] datasets in
  sortStrings halls.

Definition filteredRows (datasets : list Dataset.t)
    (activeDatasetId : option string) (hallFilter : string) : list RawRow :=
  match activeDataset datasets activeDatasetId with
  | None => []
  | Some ds => filterRowsByHall (Dataset.rows ds) hallFilter
  end.


Definition activeIndexScores (datasets : list Dataset.t)
    (activeDatasetId : option string)
    (scoresBy : gmap string (list IndexScore.t)) : list IndexScore.t :=
  match activeDataset datasets activeDatasetId with
  | None => []
  | Some ds => default [] (scoresBy !! Dataset.id ds)
  end.

Definition radarData (activeIndexScores : list IndexScore.t)
    : list RadarPoint.t :=
  map (fun idx => RadarPoint.mk (IndexScore.label idx)
                                (round2 (IndexScore.mean idx)) (Num 5))
      activeIndexScores.

Definition totalResponses (filteredRows : list RawRow) : nat :=
  length filteredRows.

(** [INDEXES.find((i) => i.key === trendIndexKey)] *)
Definition trendIndexConfig (trendIndexKey : IndexKey) : option IndexConfig.t :=
  List.find (fun i => bool_decide (IndexConfig.key i = trendIndexKey)) INDEXES.

(** *** Demographic summaries *)

(** The trimmed text of a column, [String(r[col] ?? '').trim()]. *)
Definition cellText (col : string) (r : RawRow) : string :=
  Str.trim (JSString (nullish (get r col) (VString ""))).

(** [x || 0] on a number or a text. *)
Definition orZero (x : value) : value :=
  match x with
  | VNumber NaN => VNumber (Num 0)
  | VNumber (Num q) => if JS.Qzerob q then VNumber (Num 0) else x
  | VNumber (Inf _) => x
  | VString s => if String.eqb s "" then VNumber (Num 0) else x
  | VNull | VUndefined => VNumber (Num 0)
  end.

(** [x + 1]: an addition of numbers, and a concatenation with the text "1"
    when [x] is a text. *)
Definition plusOne (x : value) : value :=
  match x with
  | VNumber n => VNumber (JS.add n (Num 1))
  | VString s => VString (s ++ "1")
  | VNull => VNumber (Num 1)
  | VUndefined => VNumber NaN
  end.

(** [(counts[v] || 0) + 1]: the own counter when there is one; under a name
    of [Object.prototype] the inherited member, an object, which [+] turns
    into its text; and 0 + 1 otherwise. *)
Definition nextCount (counts : gmap string value) (v : string) : value :=
  match counts !! v with
  | Some old => plusOne (orZero old)
  | None =>
      match inheritedText v with
      | Some text => VString (text ++ "1")
      | None => plusOne (VNumber (Num 0))
      end
  end.

(** The body shared by [buildingCounts] and [classYearCounts]: one counter
    per trimmed text that is not empty. *)
Definition countBy (col : string) (filteredRows : list RawRow)
    : gmap string value :=
  foldl (fun counts r =>
           let v := cellText col r in
           if String.eqb v "" then counts
           else setProperty v (nextCount counts v) counts)
        ∅ filteredRows.

Definition buildingCounts (filteredRows : list RawRow) : gmap string value :=
  countBy COL_BUILDING filteredRows.

Definition classYearCounts (filteredRows : list RawRow) : gmap string value :=
  countBy COL_CLASS_YEAR filteredRows.

(** One row's effect on [yes] and [total] in [raYesRate]. *)
Definition tallyRA (acc : number * number) (r : RawRow) : number * number :=
  let '(yes, total) := acc in
  let v := cellText COL_RA_ASSIGNED r in
  if String.eqb v "" then (yes, total)
  else
    let total := JS.add total (Num 1) in
    if String.eqb v "Yes" then (JS.add yes (Num 1), total) else (yes, total).

Definition raYesRate (filteredRows : list RawRow) : number :=
  if (length filteredRows =? 0)%nat then Num 0
  else
    let '(yes, total) := foldl tallyRA (Num 0, Num 0) filteredRows in
    if JS.gt total (Num 0) then JS.div yes total else Num 0.

(** [Math.round(x)]: the closest integer, the larger one on a tie. *)
Definition mathRound (x : number) : number :=
  match x with
  | Num q => JS.ofZ (Qfloor (q + (1 # 2))%Q)
  | _ => x
  end.

(** The percentage shown on the card, [Math.round(raYesRate * 100)]. *)
Definition raYesPercent (filteredRows : list RawRow) : number :=
  mathRound (JS.mul (raYesRate filteredRows) (Num 100)).

(** [sampleText]: the loop keeps a text when it is not empty, [vals] is not
    full and the text is not in [vals] yet. *)
Definition sampleText (rows : list RawRow) (colName : string) (max : nat)
    : list string :=
  foldl (fun vals r =>
           let v := cellText colName r in
           if negb (String.eqb v "") && (length vals <? max)%nat
              && negb (bool_decide (v ∈ vals))
           then (vals ++ [v])%list else vals)
        [] rows.

(** *** Handlers

    A handler reads the state of the render it was created in
    ([datasets], [activeDatasetId]) and issues updates; an update given as a
    function receives the state at the time it is applied. *)

(** What [deleteDataset] passes to [setDatasets]: the next list, and the
    call of [setActiveDatasetId] made on the way, if any. *)
Definition deleteUpdate (activeDatasetId : option string) (id : string)
    (prev : list Dataset.t) : list Dataset.t * option (option string) :=
  let next := filter (fun d => Dataset.id d <> id) prev in
  (next,
   if bool_decide (activeDatasetId = Some id)
   then Some match next with
             | d :: _ => Some (Dataset.id d)
             | [] => None
             end
   else None).

(** [deleteDataset(id)]; [confirmed] is the answer to [window.confirm].
    [None] when the handler returns without an update. *)
Definition deleteDataset (datasets : list Dataset.t)
    (activeDatasetId : option string) (confirmed : bool) (id : string)
    : option (list Dataset.t -> list Dataset.t * option (option string)) :=
  match List.find (fun d => String.eqb (Dataset.id d) id) datasets with
  | None => None
  | Some ds =>
      match Dataset.source ds with
      | Dataset.demo => None
      | Dataset.upload =>
          if negb confirmed then None
          else Some (deleteUpdate activeDatasetId id)
      end
  end.

(** The dataset built when a file has been read and parsed:
    [`${file.name}-${Date.now()}-${idx}`] is its id. *)
Definition newDataset (fileName : string) (now : Z) (idx : nat)
    (parsed : list RawRow) : Dataset.t :=
  Dataset.mk (fileName ++ "-" ++ numberToString (JS.ofZ now) ++ "-"
                ++ numberToString (JS.ofNat idx))
             (inferDatasetLabel fileName) parsed Dataset.upload.

(** The two updates of a successful [reader.onload]. *)
Definition uploadDatasets (new : Dataset.t) (prev : list Dataset.t)
    : list Dataset.t := (prev ++ [new])%list.

Definition uploadActive (new : Dataset.t) (prevActive : option string)
    : option string :=
  match prevActive with
  | Some a => Some a
  | None => Some (Dataset.id new)
  end.

(** The dataset of a successful demo load. *)
Definition demoDataset (parsed : list RawRow) : Dataset.t :=
  Dataset.mk "demo" "Demo Survey (example data)" parsed Dataset.demo.

End Views.

(** *** The dataset list and the active id as a transition system

    Each transition applies the updates of one handler to the state of the
    latest render. *)

Record PageState : Type := mkState {
  datasets : list Dataset.t;
  activeDatasetId : option string;
}.

Definition initialState : PageState := mkState [] None.

Definition applyDelete `{Runtime} (st : PageState) (confirmed : bool)
    (id : string) : PageState :=
  match deleteDataset (datasets st) (activeDatasetId st) confirmed id with
  | None => st
  | Some update =>
      let '(next, active) := update (datasets st) in
      mkState next (default (activeDatasetId st) active)
  end.

Inductive step `{Runtime} : PageState -> PageState -> Prop :=
| step_demo_loaded (st : PageState) (parsed : list RawRow) :
    step st (mkState [demoDataset parsed] (Some "demo"))
| step_file_loaded (st : PageState) (fileName : string) (now : Z) (idx : nat)
    (parsed : list RawRow) :
    step st (mkState
               (uploadDatasets (newDataset fileName now idx parsed) (datasets st))
               (uploadActive (newDataset fileName now idx parsed)
                             (activeDatasetId st)))
| step_tab_click (st : PageState) (ds : Dataset.t) :
    ds ∈ datasets st ->
    step st (mkState (datasets st) (Some (Dataset.id ds)))
| step_delete (st : PageState) (confirmed : bool) (id : string) :
    step st (applyDelete st confirmed id).

Inductive reachable `{Runtime} : PageState -> Prop :=
| reachable_initial : reachable initialState
| reachable_step (st st' : PageState) :
    reachable st -> step st st' -> reachable st'.

(** A text made of white space only. *)
Fixpoint allWhite (s : string) : bool :=
  match s with
  | EmptyString => true
  | String c s' => Str.isWhite c && allWhite s'
  end.

(** Further sample inputs. *)

Definition dsHalls : Dataset.t :=
  Dataset.mk "halls.csv-8-0" "halls" hallRows Dataset.upload.

Definition COL_COMMENTS := "Any additional comments for Residence Life staff?".

Definition commentRows : list RawRow :=
  [ rowOf [(COL_COMMENTS, "Great RA")];
    rowOf [(COL_COMMENTS, "  ")];
    rowOf [(COL_COMMENTS, " Great RA ")];
    rowOf [(COL_BUILDING, "Hall A")];
    rowOf [(COL_COMMENTS, "More events")] ].



(** Forty residents, twenty-three of them with an RA. *)
Definition raRows : list RawRow :=
  (replicate 23 (rowOf [(COL_RA_ASSIGNED, "Yes")])
   ++ replicate 17 (rowOf [(COL_RA_ASSIGNED, "No")]))%list.

(** Residents of a hall called "constructor", and one of "Hall A". *)
Definition constructorRows : list RawRow :=
  [ rowOf [(COL_BUILDING, "constructor")];
    rowOf [(COL_BUILDING, "Hall A")];
    rowOf [(COL_BUILDING, " constructor ")] ].

(** Three answers whose mean, 5/3, is not a binary64 number. *)
Definition thirdsRows : list RawRow := answers "Q1" ["1"; "2"; "2"].

(** A session with a dataset without a year between two survey years. *)
Definition threeSurveys : list Dataset.t := [ds2026; dsLate; ds2025].

(** The state after the demo load and one upload, with the sample runtime. *)
Definition sampleUpload : Dataset.t :=
  @newDataset decimalRuntime "spring_cohort.csv" 1700000000000 0
              (answers Q_OE1 ["4"]).

Definition demoOnly : PageState :=
  mkState [demoDataset sampleRows] (Some "demo").

Definition sampleState : PageState :=
  mkState (uploadDatasets sampleUpload (datasets demoOnly))
          (uploadActive sampleUpload (activeDatasetId demoOnly)).

(** What every state of the page satisfies: dataset ids are not empty, the
    id "demo" belongs to the demo dataset and to it only, and the active id,
    which is set as soon as there is a dataset, names a dataset of the
    list. *)
Definition wellFormed (st : PageState) : Prop :=
  (forall d, d ∈ datasets st ->
     Dataset.id d <> ""%string /\
     (Dataset.source d = Dataset.demo <-> Dataset.id d = "demo"%string)) /\
  (activeDatasetId st = None -> datasets st = []) /\
  (forall a, activeDatasetId st = Some a ->
     exists d, d ∈ datasets st /\ Dataset.id d = a).

(** Ascending order of texts by code units. *)
Definition lebString (a b : string) : Prop := String.leb a b = true.

(** The keys of the catalog, in its order. *)
Definition catalogKeys : list IndexKey :=
  [livingEnvironment; belonging; raSupport; staff; empowerment;
   overallExperience].

(** ** Facts about the rounding to binary64 *)

Section Binary64Facts.
Local Open Scope Q_scope.

Lemma pow2_pos (e : Z) : 0 < JS.pow2 e.
Proof. apply Qpower_0_lt. reflexivity. Qed.

Lemma pow2_add (a b : Z) : JS.pow2 (a + b) == JS.pow2 a * JS.pow2 b.
Proof. apply Qpower_plus. discriminate. Qed.

Lemma pow2_le (a b : Z) : (a <= b)%Z -> JS.pow2 a <= JS.pow2 b.
Proof. intros Hab. apply Qpower_le_compat_l; [exact Hab|discriminate]. Qed.

Lemma pow2_lt (a b : Z) : (a < b)%Z -> JS.pow2 a < JS.pow2 b.
Proof. intros Hab. apply Qpower_lt_compat_l; [exact Hab|reflexivity]. Qed.

Lemma pow2_Z (e : Z) : (0 <= e)%Z -> JS.pow2 e == inject_Z (2 ^ e).
Proof. intros He. symmetry. apply (Zpower_Qpower 2 e He). Qed.

Lemma pow2_sub (a b : Z) : JS.pow2 (a - b) == JS.pow2 a / JS.pow2 b.
Proof. apply Qpower_minus. discriminate. Qed.

(** Scaling by a power of two and back. *)
Lemma pow2_cancel (x : Q) (e : Z) : x / JS.pow2 e * JS.pow2 e == x.
Proof.
  pose proof (pow2_pos e) as Hp. field. intros H0. rewrite H0 in Hp.
  exact (Qlt_irrefl 0 Hp).
Qed.

Lemma div_pow2_le (x y : Q) (e : Z) : x <= y -> x / JS.pow2 e <= y / JS.pow2 e.
Proof.
  intros Hxy. pose proof (pow2_pos e) as Hp.
  apply Qle_shift_div_l; [exact Hp|]. rewrite pow2_cancel. exact Hxy.
Qed.

(** *** Rounding to an integer *)

Lemma roundEven_proper (x y : Q) : x == y -> JS.roundEven x = JS.roundEven y.
Proof.
  intros Hxy. unfold JS.roundEven. rewrite (Qfloor_comp x y Hxy).
  assert (Hf : x - inject_Z (Qfloor y) == y - inject_Z (Qfloor y))
    by (rewrite Hxy; reflexivity).
  rewrite (Qcompare_comp _ _ Hf (1 # 2) (1 # 2) (Qeq_refl _)). reflexivity.
Qed.

Lemma roundEven_cases (x : Q) :
  let f := Qfloor x in
  (x - inject_Z f < 1 # 2 /\ JS.roundEven x = f) \/
  (1 # 2 < x - inject_Z f /\ JS.roundEven x = (f + 1)%Z) \/
  (x - inject_Z f == 1 # 2 /\
   JS.roundEven x = if Z.even f then f else (f + 1)%Z).
Proof.
  intros f. unfold JS.roundEven. fold f.
  destruct (x - inject_Z f ?= 1 # 2) eqn:E.
  - right. right. split; [apply Qeq_alt; exact E|reflexivity].
  - left. split; [apply Qlt_alt; exact E|reflexivity].
  - right. left. split; [apply Qgt_alt; exact E|reflexivity].
Qed.

Lemma roundEven_error (x : Q) :
  - (1 # 2) <= inject_Z (JS.roundEven x) - x <= 1 # 2.
Proof.
  pose proof (Qfloor_le x) as Hle. pose proof (Qlt_floor x) as Hlt.
  rewrite inject_Z_plus in Hlt. change (inject_Z 1) with 1 in Hlt.
  destruct (roundEven_cases x) as [[Hc ->]|[[Hc ->]|[Hc ->]]].
  - split; lra.
  - rewrite inject_Z_plus. change (inject_Z 1) with 1. split; lra.
  - destruct (Z.even (Qfloor x)).
    + split; lra.
    + rewrite inject_Z_plus. change (inject_Z 1) with 1. split; lra.
Qed.

Lemma roundEven_Z (z : Z) : JS.roundEven (inject_Z z) = z.
Proof.
  destruct (roundEven_cases (inject_Z z)) as [[Hc ->]|[[Hc _]|[Hc _]]];
    rewrite ?Qfloor_Z in *; [reflexivity| |]; exfalso; lra.
Qed.

Lemma roundEven_mono (x y : Q) : x <= y -> (JS.roundEven x <= JS.roundEven y)%Z.
Proof.
  intros Hxy. pose proof (Qfloor_resp_le x y Hxy) as Hf.
  pose proof (Qfloor_le x) as Hlx. pose proof (Qlt_floor x) as Hux.
  pose proof (Qfloor_le y) as Hly. pose proof (Qlt_floor y) as Huy.
  destruct (Z.eq_dec (Qfloor x) (Qfloor y)) as [Heq|Hne].
  - destruct (roundEven_cases x) as [[Hcx ->]|[[Hcx ->]|[Hcx ->]]];
      destruct (roundEven_cases y) as [[Hcy ->]|[[Hcy ->]|[Hcy ->]]];
      rewrite <- ?Heq in *; try lia; try (exfalso; lra);
      destruct (Z.even (Qfloor x)); try lia; exfalso; lra.
  - assert (Hlt : (Qfloor x + 1 <= Qfloor y)%Z) by lia.
    assert (Hx : (JS.roundEven x <= Qfloor x + 1)%Z).
    { destruct (roundEven_cases x) as [[_ ->]|[[_ ->]|[_ ->]]]; try lia.
      destruct (Z.even (Qfloor x)); lia. }
    assert (Hy : (Qfloor y <= JS.roundEven y)%Z).
    { destruct (roundEven_cases y) as [[_ ->]|[[_ ->]|[_ ->]]]; try lia.
      destruct (Z.even (Qfloor y)); lia. }
    lia.
Qed.

(** *** The binary exponent *)

Lemma Qabs_Qred (x : Q) : Qabs (Qred x) == Qabs x.
Proof. apply Qabs_wd. apply Qred_correct. Qed.

Lemma mag_proper (x y : Q) : x == y -> JS.mag x = JS.mag y.
Proof. intros Hxy. unfold JS.mag. rewrite (Qred_complete x y Hxy). reflexivity. Qed.

Lemma mag_spec (x : Q) :
  ~ x == 0 -> JS.pow2 (JS.mag x - 1) <= Qabs x /\ Qabs x < JS.pow2 (JS.mag x).
Proof.
  intros Hx. rewrite <- (Qabs_Qred x). unfold JS.mag.
  assert (Ha : 0 < Qabs (Qred x)).
  { rewrite Qabs_Qred. destruct (Qlt_le_dec 0 (Qabs x)) as [H|H]; [exact H|].
    exfalso. apply Hx. pose proof (Qabs_nonneg x) as Hnn.
    assert (H0 : Qabs x == 0) by lra.
    destruct (Qabs_Qle_condition x 0) as [Hc _].
    assert (Hle : Qabs x <= 0) by lra. specialize (Hc Hle). lra. }
  revert Ha. generalize (Qabs (Qred x)). intros [n d] Ha.
  assert (Hn : (0 < n)%Z) by (unfold Qlt in Ha; simpl in Ha; lia).
  cbn [Qnum Qden].
  pose proof (Z.log2_spec n Hn) as [Hn1 Hn2].
  pose proof (Z.log2_spec (Z.pos d) (Pos2Z.is_pos d)) as [Hd1 Hd2].
  pose proof (Z.log2_nonneg n) as Hln. pose proof (Z.log2_nonneg (Z.pos d)) as Hld.
  set (ln := Z.log2 n) in *. set (ld := Z.log2 (Z.pos d)) in *.
  assert (Hnq1 : JS.pow2 ln <= inject_Z n).
  { rewrite pow2_Z by exact Hln. rewrite <- Zle_Qle. exact Hn1. }
  assert (Hnq2 : inject_Z n < JS.pow2 (ln + 1)).
  { rewrite pow2_Z by lia. rewrite <- Zlt_Qlt. exact Hn2. }
  assert (Hdq1 : JS.pow2 ld <= inject_Z (Z.pos d)).
  { rewrite pow2_Z by exact Hld. rewrite <- Zle_Qle. exact Hd1. }
  assert (Hdq2 : inject_Z (Z.pos d) < JS.pow2 (ld + 1)).
  { rewrite pow2_Z by lia. rewrite <- Zlt_Qlt. exact Hd2. }
  assert (Hdpos : 0 < inject_Z (Z.pos d)).
  { change 0 with (inject_Z 0). rewrite <- Zlt_Qlt. reflexivity. }
  assert (Hq : n # d == inject_Z n / inject_Z (Z.pos d)) by apply Qmake_Qdiv.
  assert (Hlo : JS.pow2 (ln - ld - 1) < n # d).
  { rewrite Hq. apply Qlt_shift_div_l; [exact Hdpos|].
    apply Qlt_le_trans with (JS.pow2 (ln - ld - 1) * JS.pow2 (ld + 1)).
    - apply Qmult_lt_l; [apply pow2_pos|exact Hdq2].
    - rewrite <- pow2_add. replace (ln - ld - 1 + (ld + 1))%Z with ln by lia.
      exact Hnq1. }
  assert (Hhi : n # d < JS.pow2 (ln - ld + 1)).
  { rewrite Hq. apply Qlt_shift_div_r; [exact Hdpos|].
    apply Qlt_le_trans with (JS.pow2 (ln - ld + 1) * JS.pow2 ld).
    - rewrite <- pow2_add. replace (ln - ld + 1 + ld)%Z with (ln + 1)%Z by lia.
      exact Hnq2.
    - apply Qmult_le_l; [apply pow2_pos|exact Hdq1]. }
  destruct (Qle_bool (JS.pow2 (ln - ld)) (n # d)) eqn:E.
  - apply Qle_bool_iff in E.
    replace (ln - ld + 1 - 1)%Z with (ln - ld)%Z by lia. split; assumption.
  - assert (Hlt : n # d < JS.pow2 (ln - ld)).
    { apply Qnot_le_lt. intros Hle. apply Qle_bool_iff in Hle. congruence. }
    split; [apply Qlt_le_weak; exact Hlo|exact Hlt].
Qed.

Lemma mag_le (x : Q) (k : Z) : ~ x == 0 -> Qabs x < JS.pow2 k -> (JS.mag x <= k)%Z.
Proof.
  intros Hx Hk. destruct (mag_spec x Hx) as [Hlo _].
  destruct (Z_le_gt_dec (JS.mag x) k) as [H|H]; [exact H|].
  exfalso. assert (Hle : JS.pow2 k <= JS.pow2 (JS.mag x - 1)) by (apply pow2_le; lia).
  lra.
Qed.

Lemma mag_ge (x : Q) (k : Z) : JS.pow2 (k - 1) <= Qabs x -> (k <= JS.mag x)%Z.
Proof.
  intros Hk.
  assert (Hx : ~ x == 0).
  { intros H0. pose proof (pow2_pos (k - 1)) as Hp.
    assert (Ha : Qabs x == 0) by (rewrite H0; reflexivity). lra. }
  destruct (mag_spec x Hx) as [_ Hhi].
  destruct (Z_le_gt_dec k (JS.mag x)) as [H|H]; [exact H|].
  exfalso. assert (Hle : JS.pow2 (JS.mag x) <= JS.pow2 (k - 1)) by (apply pow2_le; lia).
  lra.
Qed.

Lemma mag_mono (x y : Q) : 0 < x -> x <= y -> (JS.mag x <= JS.mag y)%Z.
Proof.
  intros Hx Hxy.
  assert (Hx0 : ~ x == 0) by lra.
  destruct (mag_spec x Hx0) as [Hlo _].
  apply mag_ge. rewrite (Qabs_pos x) in Hlo by lra. rewrite (Qabs_pos y) by lra.
  lra.
Qed.

Lemma ulpExp_proper (x y : Q) : x == y -> JS.ulpExp x = JS.ulpExp y.
Proof. intros Hxy. unfold JS.ulpExp. rewrite (mag_proper x y Hxy). reflexivity. Qed.

(** *** Rounding to binary64 *)

Lemma nearest_proper (x y : Q) : x == y -> JS.nearest x = JS.nearest y.
Proof.
  intros Hxy. unfold JS.nearest. rewrite (ulpExp_proper x y Hxy).
  apply Qred_complete.
  rewrite (roundEven_proper (x / JS.pow2 (JS.ulpExp y)) (y / JS.pow2 (JS.ulpExp y)));
    [reflexivity|]. rewrite Hxy. reflexivity.
Qed.

Lemma nearest_eq (x : Q) :
  JS.nearest x ==
  inject_Z (JS.roundEven (x / JS.pow2 (JS.ulpExp x))) * JS.pow2 (JS.ulpExp x).
Proof. unfold JS.nearest. apply Qred_correct. Qed.

Lemma ofQ_proper (x y : Q) : x == y -> JS.ofQ x = JS.ofQ y.
Proof. intros Hxy. unfold JS.ofQ. rewrite (nearest_proper x y Hxy). reflexivity. Qed.

(** The rounding error is at most half a unit in the last place. *)
Lemma nearest_error (x : Q) :
  Qabs (JS.nearest x - x) <= JS.pow2 (JS.ulpExp x) * (1 # 2).
Proof.
  rewrite nearest_eq. set (e := JS.ulpExp x).
  pose proof (pow2_pos e) as Hp.
  pose proof (roundEven_error (x / JS.pow2 e)) as [Hlo Hhi].
  pose proof (pow2_cancel x e) as Hc.
  revert Hlo Hhi Hc. generalize (JS.roundEven (x / JS.pow2 e)).
  generalize (x / JS.pow2 e). intros t m Hlo Hhi Hc.
  apply Qabs_Qle_condition. rewrite <- Hc. split.
  - assert (H : 0 <= (inject_Z m - t + (1 # 2)) * JS.pow2 e)
      by (apply Qmult_le_0_compat; lra). lra.
  - assert (H : 0 <= ((1 # 2) - (inject_Z m - t)) * JS.pow2 e)
      by (apply Qmult_le_0_compat; lra). lra.
Qed.

(** A multiple of the unit in the last place is not changed. *)
Lemma nearest_exact (x : Q) (m : Z) :
  x == inject_Z m * JS.pow2 (JS.ulpExp x) -> JS.nearest x == x.
Proof.
  intros Hm. rewrite nearest_eq. set (e := JS.ulpExp x) in *.
  assert (Hd : x / JS.pow2 e == inject_Z m).
  { pose proof (pow2_pos e) as Hp. rewrite Hm. field. lra. }
  rewrite (roundEven_proper _ _ Hd), roundEven_Z. symmetry. exact Hm.
Qed.

Lemma nearest_0 : JS.nearest 0 = 0.
Proof. vm_compute. reflexivity. Qed.

Lemma nearest_nonneg (x : Q) : 0 <= x -> 0 <= JS.nearest x.
Proof.
  intros Hx. rewrite nearest_eq. set (e := JS.ulpExp x).
  pose proof (pow2_pos e) as Hp.
  apply Qmult_le_0_compat; [|lra].
  change 0 with (inject_Z 0). rewrite <- Zle_Qle.
  rewrite <- (roundEven_Z 0). apply roundEven_mono.
  change (inject_Z 0) with 0. apply Qle_shift_div_l; [exact Hp|]. lra.
Qed.

(** Rounding does not pass a power of two. *)
Lemma nearest_upper (x : Q) :
  0 < x -> JS.nearest x <= JS.pow2 (Z.max (JS.mag x) (JS.ulpExp x)).
Proof.
  intros Hx. rewrite nearest_eq. set (e := JS.ulpExp x). set (M := Z.max (JS.mag x) e).
  pose proof (pow2_pos e) as Hp.
  assert (Hx0 : ~ x == 0) by lra.
  destruct (mag_spec x Hx0) as [_ Hhi]. rewrite (Qabs_pos x) in Hhi by lra.
  assert (HM : JS.pow2 M == inject_Z (2 ^ (M - e)) * JS.pow2 e).
  { rewrite <- pow2_Z by lia. rewrite <- pow2_add. apply Qpower_comp; [reflexivity|lia]. }
  rewrite HM. apply Qmult_le_r; [exact Hp|].
  rewrite <- Zle_Qle. rewrite <- (roundEven_Z (2 ^ (M - e))).
  apply roundEven_mono. rewrite <- pow2_Z by lia. rewrite pow2_sub.
  apply div_pow2_le. apply Qlt_le_weak. apply Qlt_le_trans with (JS.pow2 (JS.mag x)); [exact Hhi|].
  apply pow2_le. lia.
Qed.

Lemma nearest_lower (x : Q) :
  0 < x -> (-1074 <= JS.mag x - 53)%Z -> JS.pow2 (JS.mag x - 1) <= JS.nearest x.
Proof.
  intros Hx Hnormal. rewrite nearest_eq.
  assert (He : JS.ulpExp x = (JS.mag x - 53)%Z) by (unfold JS.ulpExp; lia).
  rewrite He. set (e := (JS.mag x - 53)%Z).
  pose proof (pow2_pos e) as Hp.
  assert (Hx0 : ~ x == 0) by lra.
  destruct (mag_spec x Hx0) as [Hlo _]. rewrite (Qabs_pos x) in Hlo by lra.
  assert (HM : JS.pow2 (JS.mag x - 1) == inject_Z (2 ^ 52) * JS.pow2 e).
  { rewrite <- pow2_Z by lia. rewrite <- pow2_add. apply Qpower_comp; [reflexivity|unfold e; lia]. }
  rewrite HM. apply Qmult_le_r; [exact Hp|].
  rewrite <- Zle_Qle. rewrite <- (roundEven_Z (2 ^ 52)) at 1.
  apply roundEven_mono. rewrite <- pow2_Z by lia.
  apply Qle_shift_div_l; [exact Hp|]. rewrite <- pow2_add.
  replace (52 + e)%Z with (JS.mag x - 1)%Z by (unfold e; lia). exact Hlo.
Qed.

(** Rounding is monotone. *)
Lemma nearest_mono (x y : Q) : 0 <= x -> x <= y -> JS.nearest x <= JS.nearest y.
Proof.
  intros Hx Hxy.
  destruct (Qeq_dec x 0) as [H0|Hx0].
  { rewrite (nearest_proper x 0 H0), nearest_0. apply nearest_nonneg. lra. }
  assert (Hxpos : 0 < x) by lra.
  pose proof (mag_mono x y Hxpos Hxy) as Hmag.
  destruct (Z.eq_dec (JS.ulpExp x) (JS.ulpExp y)) as [He|He].
  - rewrite !nearest_eq, He. set (e := JS.ulpExp y).
    pose proof (pow2_pos e) as Hp.
    apply Qmult_le_r; [exact Hp|]. rewrite <- Zle_Qle.
    apply roundEven_mono, div_pow2_le, Hxy.
  - assert (Hlt : (JS.ulpExp x < JS.ulpExp y)%Z) by (unfold JS.ulpExp in *; lia).
    assert (Hn : (-1074 <= JS.mag y - 53)%Z) by (unfold JS.ulpExp in *; lia).
    apply Qle_trans with (JS.pow2 (Z.max (JS.mag x) (JS.ulpExp x)));
      [apply nearest_upper; exact Hxpos|].
    apply Qle_trans with (JS.pow2 (JS.mag y - 1));
      [|apply nearest_lower; [lra|exact Hn]].
    apply pow2_le. unfold JS.ulpExp in *. lia.
Qed.

(** Whole numbers up to 2^53 are binary64 numbers. *)
Lemma nearest_Z (z : Z) :
  (0 <= z <= 2 ^ 53)%Z -> JS.nearest (inject_Z z) == inject_Z z.
Proof.
  intros [Hz0 Hz].
  destruct (Z.eq_dec z 0%Z) as [->|Hnz]; [vm_compute; reflexivity|].
  destruct (Z.eq_dec z (2 ^ 53)%Z) as [->|Hne]; [vm_compute; reflexivity|].
  assert (Hx0 : ~ inject_Z z == 0).
  { change 0 with (inject_Z 0). rewrite inject_Z_injective. exact Hnz. }
  assert (Hmag : (JS.mag (inject_Z z) <= 53)%Z).
  { apply mag_le; [exact Hx0|]. rewrite Qabs_pos.
    - rewrite pow2_Z by lia. rewrite <- Zlt_Qlt. lia.
    - change 0 with (inject_Z 0). rewrite <- Zle_Qle. exact Hz0. }
  set (e := JS.ulpExp (inject_Z z)).
  assert (He : (-1074 <= e <= 0)%Z) by (unfold e, JS.ulpExp; lia).
  apply (nearest_exact _ (z * 2 ^ (- e))%Z). fold e.
  rewrite inject_Z_mult, <- pow2_Z by lia.
  rewrite <- Qmult_assoc, <- pow2_add.
  replace (- e + e)%Z with 0%Z by lia. change (JS.pow2 0) with 1. ring.
Qed.

Lemma nearest_between (a b : Z) (x : Q) :
  (0 <= a)%Z -> (b <= 2 ^ 53)%Z -> inject_Z a <= x <= inject_Z b ->
  inject_Z a <= JS.nearest x <= inject_Z b.
Proof.
  intros Ha Hb [Hax Hxb].
  assert (Hab : (a <= b)%Z) by (rewrite Zle_Qle; lra).
  assert (Ha0 : 0 <= inject_Z a).
  { change 0 with (inject_Z 0). rewrite <- Zle_Qle. exact Ha. }
  split.
  - rewrite <- (nearest_Z a) by lia. apply nearest_mono; assumption.
  - rewrite <- (nearest_Z b) by lia. apply nearest_mono; [lra|exact Hxb].
Qed.

(** Below 2^k the error is at most 2^(k-54). *)
Lemma nearest_error_below (x : Q) (k : Z) :
  (-1021 <= k)%Z -> Qabs x < JS.pow2 k ->
  Qabs (JS.nearest x - x) <= JS.pow2 (k - 54).
Proof.
  intros Hk Hx.
  destruct (Qeq_dec x 0) as [H0|Hx0].
  { rewrite (nearest_proper x 0 H0), nearest_0, H0.
    change (Qabs (0 - 0)) with 0. apply Qlt_le_weak, pow2_pos. }
  pose proof (mag_le x k Hx0 Hx) as Hmag.
  apply Qle_trans with (JS.pow2 (JS.ulpExp x) * (1 # 2)); [apply nearest_error|].
  replace (k - 54)%Z with ((k - 53) + (-1))%Z by lia. rewrite pow2_add.
  change (JS.pow2 (-1)) with (1 # 2). apply Qmult_le_r; [reflexivity|].
  apply pow2_le. unfold JS.ulpExp. lia.
Qed.

(** Up to 2^53 there is no overflow. *)
Lemma ofQ_small (x : Q) :
  0 <= x <= inject_Z (2 ^ 53) -> JS.ofQ x = JS.Num (JS.nearest x).
Proof.
  intros Hx. unfold JS.ofQ.
  destruct (nearest_between 0 (2 ^ 53) x) as [Hlo Hhi]; [lia|lia|exact Hx|].
  destruct (Qle_bool (JS.pow2 1024) (Qabs (JS.nearest x))) eqn:E; [|reflexivity].
  exfalso. apply Qle_bool_iff in E. rewrite Qabs_pos in E by exact Hlo.
  assert (Hlt : inject_Z (2 ^ 53) < JS.pow2 1024).
  { rewrite <- pow2_Z by lia. apply pow2_lt. lia. }
  lra.
Qed.

End Binary64Facts.

(** ** Facts about numbers *)

Section NumberFacts.
Local Open Scope Q_scope.

Lemma Qltb_lt (x y : Q) : JS.Qltb x y = true <-> x < y.
Proof.
  unfold JS.Qltb. rewrite negb_true_iff.
  split; intros Hxy.
  - apply Qnot_le_lt. intros Hle. apply Qle_bool_iff in Hle. congruence.
  - destruct (Qle_bool y x) eqn:E; [|reflexivity].
    apply Qle_bool_iff in E. exfalso. exact (Qlt_not_le _ _ Hxy E).
Qed.

Lemma Qltb_ge (x y : Q) : JS.Qltb x y = false <-> y <= x.
Proof.
  unfold JS.Qltb. rewrite negb_false_iff. apply Qle_bool_iff.
Qed.

Lemma Qzerob_eq (x : Q) : JS.Qzerob x = true <-> x == 0.
Proof. unfold JS.Qzerob. apply Qeq_bool_iff. Qed.

Lemma Qzerob_neq (x : Q) : JS.Qzerob x = false <-> ~ x == 0.
Proof.
  rewrite <- Qzerob_eq. destruct (JS.Qzerob x); split; intros; congruence.
Qed.

Lemma gt_zero_Num (q : Q) : JS.gt (Num q) (Num 0) = true <-> 0 < q.
Proof. unfold JS.gt; simpl. apply Qltb_lt. Qed.

Lemma Qred_inject_Z (z : Z) : Qred (inject_Z z) = inject_Z z.
Proof. apply Qcanon.Qred_identity. simpl. apply Z.gcd_1_r. Qed.

Lemma inject_Z_nonneg (z : Z) : (0 <= z)%Z -> 0 <= inject_Z z.
Proof. intros Hz. change 0 with (inject_Z 0). rewrite <- Zle_Qle. exact Hz. Qed.

Lemma nearest_Z_eq (z : Z) :
  (0 <= z <= 2 ^ 53)%Z -> JS.nearest (inject_Z z) = inject_Z z.
Proof.
  intros Hz. transitivity (Qred (inject_Z z)); [|apply Qred_inject_Z].
  unfold JS.nearest. apply Qred_complete. rewrite <- nearest_eq.
  apply nearest_Z. exact Hz.
Qed.

(** A sum, a quotient or a product that is a whole number up to 2^53 is
    computed exactly. *)
Lemma ofQ_Z (z : Z) (x : Q) :
  (0 <= z <= 2 ^ 53)%Z -> x == inject_Z z -> JS.ofQ x = Num (inject_Z z).
Proof.
  intros Hz Hx. rewrite (ofQ_proper x _ Hx), ofQ_small.
  - rewrite nearest_Z_eq by exact Hz. reflexivity.
  - split; [apply inject_Z_nonneg; lia|]. rewrite <- Zle_Qle. lia.
Qed.

(** Between two whole numbers up to 2^53 the result stays between them. *)
Lemma ofQ_between (a b : Z) (x : Q) :
  (0 <= a)%Z -> (b <= 2 ^ 53)%Z -> inject_Z a <= x <= inject_Z b ->
  exists r : Q,
    JS.ofQ x = Num r /\ r = JS.nearest x /\ inject_Z a <= r <= inject_Z b.
Proof.
  intros Ha Hb Hx. exists (JS.nearest x). split; [|split; [reflexivity|]].
  - apply ofQ_small. destruct Hx as [Hax Hxb]. split.
    + pose proof (inject_Z_nonneg a Ha). lra.
    + apply Qle_trans with (inject_Z b); [exact Hxb|]. rewrite <- Zle_Qle. exact Hb.
  - apply nearest_between; assumption.
Qed.

Lemma isArray_shorter {A B : Type} (l : list A) (l' : list B) :
  (length l' <= length l)%nat -> JS.isArray l -> JS.isArray l'.
Proof. unfold JS.isArray. lia. Qed.

(** Adding 1 to a counter. *)
Lemma add_one_ofNat (k : nat) :
  (Z.of_nat k < 2 ^ 53)%Z -> JS.add (JS.ofNat k) (Num 1) = JS.ofNat (S k).
Proof.
  intros Hk. unfold JS.ofNat, JS.ofZ, JS.add. apply ofQ_Z; [lia|].
  rewrite Nat2Z.inj_succ. unfold Z.succ. rewrite inject_Z_plus. reflexivity.
Qed.

(** Counting: adding 1 once per element. *)
Lemma foldl_count {A : Type} (xs : list A) (c : nat) :
  (Z.of_nat (c + length xs) <= 2 ^ 53)%Z ->
  foldl JS.add (JS.ofNat c) (map (fun _ => Num 1) xs) = JS.ofNat (c + length xs).
Proof.
  revert c. induction xs as [|x xs IH]; intros c Hc; cbn [map foldl length].
  - rewrite Nat.add_0_r. reflexivity.
  - simpl length in Hc. rewrite add_one_ofNat by lia.
    rewrite IH by lia. f_equal. lia.
Qed.

(** Adding numbers of the scale to a sum that lies between two whole numbers
    keeps it finite; each of them adds between 1 and 5, and the sum differs
    from the exact one by at most 2^(-19) per addition as long as it stays
    below 2^35. *)
Lemma foldl_add_scale (vals : list Q) :
  Forall (fun v => 1 <= v <= 5) vals ->
  forall (s S : Q) (a b : Z) (E : Q),
    (0 <= a)%Z -> (b + 5 * Z.of_nat (length vals) < 2 ^ 35)%Z ->
    inject_Z a <= s <= inject_Z b ->
    Qabs (s - S) <= E ->
    exists s' : Q,
      foldl JS.add (Num s) (map Num vals) = Num s' /\
      inject_Z (a + Z.of_nat (length vals)) <= s' /\
      s' <= inject_Z (b + 5 * Z.of_nat (length vals)) /\
      Qabs (s' - (S + Qsum vals))
        <= E + inject_Z (Z.of_nat (length vals)) * (1 # 524288).
Proof.
  induction 1 as [|v vals [Hv1 Hv5] _ IH]; intros s S a b E Ha Hb [Hsa Hsb] HE.
  - exists s. cbn [map foldl length].
    replace (a + Z.of_nat 0)%Z with a by (simpl; lia).
    replace (b + 5 * Z.of_nat 0)%Z with b by (simpl; lia).
    split; [reflexivity|]. split; [exact Hsa|]. split; [exact Hsb|].
    apply Qabs_Qle_condition in HE. apply Qabs_Qle_condition.
    change (Qsum []) with 0. change (inject_Z (Z.of_nat 0)) with 0.
    split; lra.
  - simpl length in *. rewrite Nat2Z.inj_succ in *. unfold Z.succ in *.
    cbn [map foldl]. change (JS.add (Num s) (Num v)) with (JS.ofQ (s + v)).
    assert (Hrange : inject_Z (a + 1) <= s + v <= inject_Z (b + 5)).
    { rewrite !inject_Z_plus. change (inject_Z 1) with 1.
      change (inject_Z 5) with 5. split; lra. }
    destruct (ofQ_between (a + 1) (b + 5) (s + v)) as (r & Hr & Hrn & Hrb);
      [lia|lia|exact Hrange|].
    rewrite Hr.
    assert (Herr : Qabs (r - (s + v)) <= 1 # 524288).
    { rewrite Hrn. change (1 # 524288) with (JS.pow2 (35 - 54)).
      apply nearest_error_below; [lia|].
      pose proof (inject_Z_nonneg (a + 1)) as H0.
      rewrite Qabs_pos by (destruct Hrange; specialize (H0 ltac:(lia)); lra).
      apply Qle_lt_trans with (inject_Z (b + 5)); [apply Hrange|].
      rewrite pow2_Z by lia. rewrite <- Zlt_Qlt. lia. }
    destruct (IH r (S + v) (a + 1)%Z (b + 5)%Z (E + (1 # 524288)))
      as (s' & Hs' & Hlo & Hhi & Herr'); [lia|lia|exact Hrb| |].
    { apply Qabs_Qle_condition in HE, Herr. apply Qabs_Qle_condition.
      split; lra. }
    exists s'. split; [exact Hs'|].
    replace (a + (Z.of_nat (length vals) + 1))%Z
      with (a + 1 + Z.of_nat (length vals))%Z by lia.
    replace (b + 5 * (Z.of_nat (length vals) + 1))%Z
      with (b + 5 + 5 * Z.of_nat (length vals))%Z by lia.
    split; [exact Hlo|]. split; [exact Hhi|].
    apply Qabs_Qle_condition in Herr'. apply Qabs_Qle_condition.
    change (Qsum (v :: vals)) with (v + Qsum vals).
    rewrite inject_Z_plus. change (inject_Z 1) with 1.
    revert Herr'. generalize (inject_Z (Z.of_nat (length vals))) (Qsum vals).
    intros N T Herr'. split; lra.
Qed.

Lemma isArray_bound {A : Type} (l : list A) :
  JS.isArray l -> (5 * Z.of_nat (length l) < 2 ^ 35)%Z.
Proof. unfold JS.isArray. intros Hl. change (2 ^ 35)%Z with 34359738368%Z. lia. Qed.

End NumberFacts.

(** ** Facts about the mean in binary64 *)

Section MeanFacts.
Local Open Scope Q_scope.

Lemma onScale_values (xs : list number) :
  Forall onScale xs ->
  exists vals : list Q, xs = map Num vals /\ Forall (fun v => 1 <= v <= 5) vals.
Proof.
  induction 1 as [|x xs (v & -> & Hv) _ (vals & -> & Hvals)].
  - exists []. split; [reflexivity|constructor].
  - exists (v :: vals). split; [reflexivity|]. constructor; assumption.
Qed.

Lemma values_onScale (vals : list Q) :
  Forall (fun v => 1 <= v <= 5) vals -> Forall onScale (map Num vals).
Proof.
  induction 1 as [|v vals Hv _ IH]; constructor; [|exact IH].
  exists v. auto.
Qed.

(** The mean of an array of numbers of the scale is on the scale, and within
    2^(-18) of the arithmetic mean. *)
Lemma meanOf_spec (vals : list Q) :
  Forall (fun v => 1 <= v <= 5) vals -> vals <> [] -> JS.isArray vals ->
  exists m : Q,
    meanOf (map Num vals) = Num m /\ 1 <= m <= 5 /\
    Qabs (m - Qmean vals) <= 1 # 262144.
Proof.
  intros Hvals Hne Harr. unfold meanOf, Qmean. rewrite length_map.
  pose proof (isArray_bound vals Harr) as Hb.
  destruct (foldl_add_scale vals Hvals 0 0 0%Z 0%Z 0)
    as (s & Hs & Hlo & Hhi & Herr).
  { lia. }
  { lia. }
  { change (inject_Z 0) with 0. split; lra. }
  { apply Qabs_Qle_condition. split; lra. }
  rewrite Hs. unfold JS.ofNat, JS.ofZ, JS.div.
  assert (Hn : (1 <= Z.of_nat (length vals))%Z).
  { destruct vals; [congruence|simpl length; lia]. }
  rewrite Z.add_0_l in Hlo, Hhi. rewrite inject_Z_mult in Hhi.
  change (inject_Z 5) with 5 in Hhi.
  assert (HN : 1 <= inject_Z (Z.of_nat (length vals))).
  { change 1 with (inject_Z 1). rewrite <- Zle_Qle. exact Hn. }
  revert Hlo Hhi Herr HN. generalize (inject_Z (Z.of_nat (length vals))).
  intros N Hlo Hhi Herr HN.
  rewrite (proj2 (Qzerob_neq N)) by lra.
  assert (Hq : inject_Z 1 <= s / N <= inject_Z 5).
  { change (inject_Z 1) with 1. change (inject_Z 5) with 5. split.
    - apply Qle_shift_div_l; lra.
    - apply Qle_shift_div_r; lra. }
  destruct (ofQ_between 1 5 (s / N)) as (m & Hm & Hmn & Hmb);
    [lia|lia|exact Hq|].
  exists m. split; [exact Hm|].
  change (inject_Z 1) with 1 in Hmb, Hq. change (inject_Z 5) with 5 in Hmb, Hq.
  split; [exact Hmb|].
  assert (Herr1 : Qabs (m - s / N) <= 1 # 2251799813685248).
  { rewrite Hmn. change (1 # 2251799813685248) with (JS.pow2 (3 - 54)).
    apply nearest_error_below; [lia|].
    rewrite Qabs_pos by lra. change (JS.pow2 3) with 8. lra. }
  assert (Hdiff : s / N - Qsum vals / N == (s - (0 + Qsum vals)) / N)
    by (field; lra).
  assert (Herr2 : - (1 # 524288) <= (s - (0 + Qsum vals)) / N <= 1 # 524288).
  { apply Qabs_Qle_condition in Herr. split.
    - apply Qle_shift_div_l; lra.
    - apply Qle_shift_div_r; lra. }
  apply Qabs_Qle_condition in Herr1. apply Qabs_Qle_condition.
  revert Hdiff Herr1 Herr2.
  generalize (s / N) (Qsum vals / N) ((s - (0 + Qsum vals)) / N).
  intros t u w Hdiff Herr1 Herr2. split; lra.
Qed.

Lemma meanOf_onScale (xs : list number) :
  Forall onScale xs -> xs <> [] -> JS.isArray xs -> onScale (meanOf xs).
Proof.
  intros Hxs Hne Harr.
  destruct (onScale_values xs Hxs) as (vals & -> & Hvals).
  destruct (meanOf_spec vals Hvals) as (m & Hm & Hb & _).
  - intros ->. apply Hne. reflexivity.
  - unfold JS.isArray in *. rewrite length_map in Harr. exact Harr.
  - exists m. auto.
Qed.

(** Whole numbers are added without error. *)
Lemma foldl_add_whole (vals : list Q) :
  Forall (fun v => 1 <= v <= 5 /\ exists k : Z, v == inject_Z k) vals ->
  forall a : Z,
    (0 <= a)%Z -> (a + 5 * Z.of_nat (length vals) <= 2 ^ 53)%Z ->
    exists t : Z,
      foldl JS.add (Num (inject_Z a)) (map Num vals) = Num (inject_Z t) /\
      inject_Z t == inject_Z a + Qsum vals.
Proof.
  induction 1 as [|v vals [[Hv1 Hv5] [k Hk]] _ IH]; intros a Ha Hb.
  - exists a. cbn [map foldl]. split; [reflexivity|].
    change (Qsum []) with 0. ring.
  - simpl length in Hb. rewrite Nat2Z.inj_succ in Hb. unfold Z.succ in Hb.
    assert (Hk15 : (1 <= k <= 5)%Z).
    { rewrite Hk in Hv1, Hv5. change 1 with (inject_Z 1) in Hv1.
      change 5 with (inject_Z 5) in Hv5. rewrite <- Zle_Qle in Hv1, Hv5. lia. }
    cbn [map foldl].
    change (JS.add (Num (inject_Z a)) (Num v)) with (JS.ofQ (inject_Z a + v)).
    rewrite (ofQ_Z (a + k) (inject_Z a + v)).
    + destruct (IH (a + k)%Z) as (t & Ht & Hsum); [lia|lia|].
      exists t. split; [exact Ht|].
      rewrite Hsum, inject_Z_plus. change (Qsum (v :: vals)) with (v + Qsum vals).
      rewrite Hk. ring.
    + lia.
    + rewrite inject_Z_plus, Hk. reflexivity.
Qed.

(** So the mean of whole answers is the arithmetic mean, rounded once. *)
Lemma meanOf_whole (vals : list Q) :
  Forall (fun v => 1 <= v <= 5 /\ exists k : Z, v == inject_Z k) vals ->
  vals <> [] -> JS.isArray vals ->
  meanOf (map Num vals) = JS.ofQ (Qmean vals).
Proof.
  intros Hvals Hne Harr. unfold meanOf, Qmean. rewrite length_map.
  pose proof (isArray_bound vals Harr) as Hb.
  destruct (foldl_add_whole vals Hvals 0%Z) as (t & Ht & Hsum); [lia|lia|].
  change (Num 0) with (Num (inject_Z 0)). rewrite Ht.
  unfold JS.ofNat, JS.ofZ, JS.div.
  assert (Hn : (1 <= Z.of_nat (length vals))%Z).
  { destruct vals; [congruence|simpl length; lia]. }
  assert (HN : 1 <= inject_Z (Z.of_nat (length vals))).
  { change 1 with (inject_Z 1). rewrite <- Zle_Qle. exact Hn. }
  rewrite (proj2 (Qzerob_neq _)) by lra.
  apply ofQ_proper. rewrite Hsum. change (inject_Z 0) with 0.
  field. lra.
Qed.

End MeanFacts.

(** ** Facts about the aggregation *)

Section AggregationFacts.
Context `{Runtime}.

Lemma toLikert_Some (v : value) (n : number) :
  toLikert v = Some n ->
  n = Str.toNumber (Str.trim (JSString v)) /\ onScale n.
Proof.
  unfold toLikert.
  assert (Hgen : forall s : string,
    (if String.eqb s "" then None
     else if negb (JS.isFinite (Str.toNumber s)) then None
     else if (JS.lt (Str.toNumber s) (Num 1) || JS.gt (Str.toNumber s) (Num 5))%bool
          then None else Some (Str.toNumber s)) = Some n ->
    n = Str.toNumber s /\ onScale n).
  { intros s. destruct (String.eqb s ""); [discriminate|].
    destruct (Str.toNumber s) as [| |q] eqn:En; simpl; try discriminate.
    destruct (JS.Qltb q 1) eqn:E1; simpl; [discriminate|].
    destruct (JS.Qltb 5 q) eqn:E5; simpl; [discriminate|].
    intros [= <-]. split; [reflexivity|].
    exists q. split; [reflexivity|].
    apply Qltb_ge in E1, E5. split; assumption. }
  destruct v; try discriminate; apply Hgen.
Qed.

Lemma toLikert_onScale (v : value) (n : number) :
  toLikert v = Some n -> onScale n.
Proof. intros Hn. apply (toLikert_Some v n Hn). Qed.

Lemma responses_onScale rowFilter q rows :
  Forall onScale (responses rowFilter q rows).
Proof.
  unfold responses. induction rows as [|row rows IH]; simpl.
  - constructor.
  - destruct (eligible rowFilter row); [|exact IH].
    destruct (toLikert (get row q)) as [n|] eqn:En; simpl; [|exact IH].
    constructor; [|exact IH]. eapply toLikert_onScale; eassumption.
Qed.

(** A question has data when some eligible row answers it validly. *)
Lemma responses_nonempty rowFilter q rows :
  responses rowFilter q rows <> [] <->
  exists row, row ∈ rows /\ eligible rowFilter row = true
              /\ is_Some (toLikert (get row q)).
Proof.
  unfold responses. induction rows as [|row rows IH]; simpl.
  - split; [congruence|]. intros (row & Hin & _). inversion Hin.
  - destruct (eligible rowFilter row) eqn:Eel.
    + destruct (toLikert (get row q)) as [n|] eqn:En; simpl.
      * split; [|congruence]. intros _. exists row.
        split; [left|]. split; [exact Eel|]. rewrite En. eauto.
      * rewrite IH. split.
        -- intros (r & Hin & Hr). exists r. split; [right; exact Hin|exact Hr].
        -- intros (r & Hin & Hel & Hr). inversion Hin; subst.
           ++ rewrite En in Hr. destruct Hr; discriminate.
           ++ exists r. auto.
    + rewrite IH. split.
      * intros (r & Hin & Hr). exists r. split; [right; exact Hin|exact Hr].
      * intros (r & Hin & Hel & Hr). inversion Hin; subst.
        -- congruence.
        -- exists r. auto.
Qed.

(** The loop over the rows adds up the valid answers of the eligible rows and
    counts them. *)
Lemma foldl_accumulate q rowFilter rows (sum count : number) :
  foldl (accumulate q rowFilter) (sum, count) rows =
  (foldl JS.add sum (responses rowFilter q rows),
   foldl JS.add count (map (fun _ => Num 1) (responses rowFilter q rows))).
Proof.
  revert sum count. unfold responses.
  induction rows as [|row rows IH]; intros sum count; simpl.
  - reflexivity.
  - unfold eligible at 1 3. destruct rowFilter as [f|]; simpl.
    + destruct (f row); simpl.
      * destruct (toLikert (get row q)); simpl; apply IH.
      * apply IH.
    + destruct (toLikert (get row q)); simpl; apply IH.
Qed.

Lemma questionMean_question rows rowFilter q :
  QuestionStat.question (questionMean rows rowFilter q) = q.
Proof.
  unfold questionMean.
  destruct (foldl (accumulate q rowFilter) (Num 0, Num 0) rows). reflexivity.
Qed.

Lemma questionMean_no_data rows rowFilter q :
  responses rowFilter q rows = [] ->
  QuestionStat.mean (questionMean rows rowFilter q) = Num 0.
Proof.
  intros Hr. unfold questionMean. rewrite foldl_accumulate, Hr. reflexivity.
Qed.

Lemma responses_length rowFilter q rows :
  (length (responses rowFilter q rows) <= length rows)%nat.
Proof.
  unfold responses. induction rows as [|row rows IH]; [reflexivity|].
  cbn [omap list_omap]. simpl length.
  destruct (eligible rowFilter row); [|lia].
  destruct (toLikert (get row q)); simpl length; lia.
Qed.

Lemma responses_isArray rowFilter q rows :
  JS.isArray rows -> JS.isArray (responses rowFilter q rows).
Proof. apply isArray_shorter, responses_length. Qed.

(** On an array of rows the loop computes the mean of the valid answers of
    the eligible rows, and 0 when there is none. *)
Lemma questionMean_meanOf rows rowFilter q :
  JS.isArray rows ->
  QuestionStat.mean (questionMean rows rowFilter q) =
  match responses rowFilter q rows with
  | [] => Num 0
  | rs => meanOf rs
  end.
Proof.
  intros Harr. unfold questionMean. rewrite foldl_accumulate.
  pose proof (responses_isArray rowFilter q rows Harr) as Hrs.
  set (rs := responses rowFilter q rows) in *.
  replace (foldl JS.add (Num 0) (map (fun _ => Num 1) rs))
    with (JS.ofNat (0 + length rs))
    by (symmetry; apply (foldl_count rs 0%nat);
        unfold JS.isArray in Hrs; simpl Nat.add; lia).
  destruct rs as [|r rs']; [reflexivity|].
  cbn [QuestionStat.mean]. simpl Nat.add.
  assert (Hgt : JS.gt (JS.ofNat (S (length rs'))) (Num 0) = true).
  { apply gt_zero_Num. change 0%Q with (inject_Z 0). rewrite <- Zlt_Qlt. lia. }
  rewrite Hgt. reflexivity.
Qed.

Lemma questionMean_data rows rowFilter q :
  JS.isArray rows ->
  responses rowFilter q rows <> [] ->
  exists m : Q,
    QuestionStat.mean (questionMean rows rowFilter q) = Num m /\ (1 <= m <= 5)%Q.
Proof.
  intros Harr Hr. rewrite (questionMean_meanOf rows rowFilter q Harr).
  destruct (meanOf_onScale (responses rowFilter q rows)) as (m & Hm & Hb).
  - apply responses_onScale.
  - exact Hr.
  - apply responses_isArray. exact Harr.
  - exists m. split; [|exact Hb].
    destruct (responses rowFilter q rows); [congruence|exact Hm].
Qed.

(** The mean of a question is the 0 sentinel or lies on the scale. *)
Lemma questionMean_cases rows rowFilter q :
  JS.isArray rows ->
  exists m : Q,
    QuestionStat.mean (questionMean rows rowFilter q) = Num m /\
    ((responses rowFilter q rows = [] /\ m = 0%Q) \/
     (responses rowFilter q rows <> [] /\ (1 <= m <= 5)%Q)).
Proof.
  intros Harr. destruct (responses rowFilter q rows) as [|r rs] eqn:Er.
  - exists 0%Q. split; [apply questionMean_no_data; exact Er|]. left. auto.
  - destruct (questionMean_data rows rowFilter q Harr) as (m & Hm & Hb).
    { rewrite Er. discriminate. }
    exists m. split; [exact Hm|]. right. split; [discriminate|exact Hb].
Qed.

(** The mean of a question only depends on the valid answers of the eligible
    rows. *)
Lemma questionMean_responses rows rows' rowFilter rowFilter' q :
  responses rowFilter q rows = responses rowFilter' q rows' ->
  questionMean rows rowFilter q = questionMean rows' rowFilter' q.
Proof.
  intros Hr. unfold questionMean. rewrite !foldl_accumulate, Hr. reflexivity.
Qed.

(** Aggregating under a predicate is aggregating the rows it accepts. *)
Lemma responses_filter (f : RawRow -> bool) q rows :
  responses (Some f) q rows =
  responses None q (filter (fun r => f r = true) rows).
Proof.
  unfold responses. induction rows as [|row rows IH]; [reflexivity|].
  rewrite filter_cons. simpl in *.
  destruct (f row); simpl.
  - destruct (decide (true = true)); [|congruence]. simpl.
    destruct (toLikert (get row q)); [f_equal|]; exact IH.
  - destruct (decide (false = true)); [discriminate|]. exact IH.
Qed.

Lemma responses_app rowFilter q rows1 rows2 :
  responses rowFilter q (rows1 ++ rows2) =
  (responses rowFilter q rows1 ++ responses rowFilter q rows2)%list.
Proof. unfold responses. apply omap_app. Qed.

End AggregationFacts.

(** ** Facts about the index mean *)

Section IndexFacts.
Context `{Runtime}.
Local Open Scope Q_scope.

(** On means that are not negative, keeping the positive ones is dropping
    the zeros. *)
Lemma filter_positive_means (ms : list Q) :
  Forall (fun m => 0 <= m) ms ->
  filter (fun m => JS.gt m (Num 0) = true) (map Num ms) =
  map Num (filter (fun m => ~ m == 0) ms).
Proof.
  induction 1 as [|m ms Hm _ IH]; [reflexivity|].
  simpl map. rewrite !filter_cons, IH.
  destruct (decide (JS.gt (Num m) (Num 0) = true)) as [Hgt|Hgt];
    destruct (decide (~ m == 0)) as [Hnz|Hz]; try reflexivity.
  - apply gt_zero_Num in Hgt. exfalso. apply Hz. lra.
  - exfalso. apply Hgt. apply gt_zero_Num.
    destruct (Qlt_le_dec 0 m) as [Hlt|Hle]; [exact Hlt|].
    exfalso. apply Hnz. lra.
Qed.

(** The index mean is the mean of the question means that are not 0. *)
Lemma indexMean_meanOf (qs : list QuestionStat.t) (ms : list Q) :
  map QuestionStat.mean qs = map Num ms ->
  Forall (fun m => 0 <= m) ms ->
  indexMean qs =
  match filter (fun m => ~ m == 0) ms with
  | [] => Num 0
  | data => meanOf (map Num data)
  end.
Proof.
  intros Hms Hnn. unfold indexMean.
  rewrite Hms, (filter_positive_means ms Hnn).
  destruct (filter (fun m => ~ m == 0) ms); reflexivity.
Qed.

(** The question means of an array of rows are finite, and each is 0 or
    lies on the scale. *)
Lemma computeQuestionMeans_means rows questions rowFilter :
  JS.isArray rows ->
  exists ms : list Q,
    map QuestionStat.mean (computeQuestionMeans rows questions rowFilter)
      = map Num ms /\
    Forall (fun m => 0 <= m) ms /\
    Forall (fun m => 1 <= m <= 5) (filter (fun m => ~ m == 0) ms) /\
    Forall2 (fun q m => (responses rowFilter q rows = [] /\ m = 0)
                        \/ (responses rowFilter q rows <> [] /\ 1 <= m <= 5))
            questions ms.
Proof.
  intros Harr. unfold computeQuestionMeans.
  induction questions as [|q questions (ms & Hms & Hnn & Hdata & Hall)].
  - exists []. repeat split; constructor.
  - destruct (questionMean_cases rows rowFilter q Harr) as (m & Hm & Hcase).
    exists (m :: ms). simpl map. rewrite Hm, Hms. split; [reflexivity|].
    split; [|split].
    + constructor; [|exact Hnn].
      destruct Hcase as [[_ ->]|[_ Hb]]; lra.
    + rewrite filter_cons. destruct (decide (~ m == 0)); [|exact Hdata].
      constructor; [|exact Hdata].
      destruct Hcase as [[_ ->]|[_ Hb]]; [exfalso; auto with qarith|exact Hb].
    + constructor; assumption.
Qed.

End IndexFacts.

(** ** Facts about [trim] and the hall filter *)

Section TrimFacts.

Lemma trimEnd_idem (s : string) : Str.trimEnd (Str.trimEnd s) = Str.trimEnd s.
Proof.
  induction s as [|c s IH]; [reflexivity|].
  simpl. destruct (Str.trimEnd s) as [|d t] eqn:Et.
  - destruct (Str.isWhite c) eqn:Ec; [reflexivity|].
    simpl. rewrite Ec. reflexivity.
  - simpl in *. change (Str.trimEnd (String d t)) with
      (match Str.trimEnd t with
       | EmptyString =>
           if Str.isWhite d then EmptyString else String d EmptyString
       | String a u => String d (String a u)
       end) in IH.
    rewrite IH. reflexivity.
Qed.

Lemma trimStart_head (s : string) (c : ascii) (t : string) :
  Str.trimStart s = String c t -> Str.isWhite c = false.
Proof.
  induction s as [|a s IH]; simpl; [discriminate|].
  destruct (Str.isWhite a) eqn:Ea; [exact IH|].
  intros [= <- <-]. exact Ea.
Qed.

Lemma trimEnd_head (c : ascii) (s : string) :
  Str.isWhite c = false -> exists t, Str.trimEnd (String c s) = String c t.
Proof.
  intros Hc. simpl. destruct (Str.trimEnd s) as [|d t].
  - rewrite Hc. eauto.
  - eauto.
Qed.

Lemma trimStart_trim (s : string) : Str.trimStart (Str.trim s) = Str.trim s.
Proof.
  unfold Str.trim. destruct (Str.trimStart s) as [|c t] eqn:Es; [reflexivity|].
  pose proof (trimStart_head s c t Es) as Hc.
  destruct (trimEnd_head c t Hc) as [u ->]. simpl. rewrite Hc. reflexivity.
Qed.

(** [trim] leaves a trimmed text as it is. *)
Lemma trim_idem (s : string) : Str.trim (Str.trim s) = Str.trim s.
Proof.
  unfold Str.trim at 1. rewrite trimStart_trim.
  unfold Str.trim. apply trimEnd_idem.
Qed.

End TrimFacts.

Section HallFacts.
Context `{Runtime}.

Lemma buildingOf_trimmed (r : RawRow) : Str.trim (buildingOf r) = buildingOf r.
Proof. unfold buildingOf. apply trim_idem. Qed.

Lemma filterRowsByHall_passes (rows : list RawRow) (hallFilter : string) :
  filterRowsByHall rows hallFilter =
  filter (fun r => passesHall hallFilter r = true) rows.
Proof.
  unfold filterRowsByHall, passesHall.
  destruct (String.eqb hallFilter "ALL"); simpl.
  - induction rows as [|r rows IH]; [reflexivity|].
    rewrite filter_cons. destruct (decide (true = true)); [|congruence].
    f_equal. exact IH.
  - reflexivity.
Qed.

Lemma filterRowsByHall_other (rows : list RawRow) (hallFilter : string) :
  hallFilter <> "ALL" ->
  filterRowsByHall rows hallFilter =
  filter (fun r => buildingOf r = hallFilter) rows.
Proof.
  intros Hne. unfold filterRowsByHall.
  rewrite (proj2 (String.eqb_neq _ _) Hne).
  apply list_filter_iff. intros r. apply String.eqb_eq.
Qed.

Lemma filter_none {A : Type} (P : A -> Prop) `{forall x, Decision (P x)}
    (l : list A) :
  (forall x, x ∈ l -> ~ P x) -> filter P l = [].
Proof.
  induction l as [|x l IH]; intros Hno; [reflexivity|].
  rewrite filter_cons. destruct (decide (P x)) as [Hp|_].
  - exfalso. apply (Hno x); [left|exact Hp].
  - apply IH. intros y Hy. apply Hno. right. exact Hy.
Qed.

End HallFacts.

(** ** Facts about the sort of the trend series *)

Section SortFacts.

Lemma insertByOrder_perm (x : TrendPoint.t) (l : list TrendPoint.t) :
  Permutation (insertByOrder x l) (x :: l).
Proof.
  induction l as [|y l IH]; simpl; [reflexivity|].
  destruct (TrendPoint.order x - TrendPoint.order y <=? 0); [reflexivity|].
  rewrite IH. apply perm_swap.
Qed.

Lemma sortByOrder_perm (l : list TrendPoint.t) : Permutation (sortByOrder l) l.
Proof.
  induction l as [|x l IH]; simpl; [reflexivity|].
  rewrite insertByOrder_perm, IH. reflexivity.
Qed.

Lemma insertByOrder_sorted (x : TrendPoint.t) (l : list TrendPoint.t) :
  StronglySorted byOrder l -> StronglySorted byOrder (insertByOrder x l).
Proof.
  induction 1 as [|y l Hl IH Hy]; simpl.
  - repeat constructor.
  - destruct (TrendPoint.order x - TrendPoint.order y <=? 0) eqn:E.
    + apply Z.leb_le in E. constructor.
      * constructor; assumption.
      * constructor; [unfold byOrder; lia|].
        eapply Forall_impl; [exact Hy|]. unfold byOrder. intros z Hz. lia.
    + apply Z.leb_gt in E. constructor; [exact IH|].
      rewrite (insertByOrder_perm x l).
      constructor; [unfold byOrder; lia|exact Hy].
Qed.

Lemma sortByOrder_sorted (l : list TrendPoint.t) :
  StronglySorted byOrder (sortByOrder l).
Proof.
  induction l as [|x l IH]; simpl; [constructor|].
  apply insertByOrder_sorted. exact IH.
Qed.

(** Stability: the points that share a key keep their relative order. *)
Lemma insertByOrder_filter (k : Z) (x : TrendPoint.t) (l : list TrendPoint.t) :
  filter (fun r => TrendPoint.order r = k) (insertByOrder x l) =
  filter (fun r => TrendPoint.order r = k) (x :: l).
Proof.
  induction l as [|y l IH]; simpl; [reflexivity|].
  destruct (TrendPoint.order x - TrendPoint.order y <=? 0) eqn:E;
    [reflexivity|].
  apply Z.leb_gt in E.
  rewrite (filter_cons _ y), IH, !filter_cons.
  destruct (decide (TrendPoint.order y = k)) as [Hy|Hy];
    destruct (decide (TrendPoint.order x = k)) as [Hx|Hx];
    try reflexivity.
  lia.
Qed.

Lemma sortByOrder_stable (k : Z) (l : list TrendPoint.t) :
  filter (fun r => TrendPoint.order r = k) (sortByOrder l) =
  filter (fun r => TrendPoint.order r = k) l.
Proof.
  induction l as [|x l IH]; simpl; [reflexivity|].
  rewrite insertByOrder_filter, !filter_cons, IH. reflexivity.
Qed.

End SortFacts.

(** ** Facts about [Math.min] and [Math.max] over finite scores *)

Section MinMaxFacts.
Local Open Scope Q_scope.

Lemma foldl_min2_Num (l : list Q) (a : Q) :
  exists lo : Q,
    foldl JS.min2 (Num a) (map Num l) = Num lo /\
    lo ∈ a :: l /\ forall q, q ∈ a :: l -> lo <= q.
Proof.
  revert a. induction l as [|x l IH]; intros a; simpl.
  - exists a. split; [reflexivity|]. split; [left|].
    intros q Hq. apply list_elem_of_singleton in Hq as ->. lra.
  - unfold JS.lt. destruct (JS.Qltb x a) eqn:E.
    + apply Qltb_lt in E. destruct (IH x) as (lo & Hlo & Hin & Hle).
      exists lo. split; [exact Hlo|]. split; [right; exact Hin|].
      intros q Hq. apply elem_of_cons in Hq as [->|Hq]; [|exact (Hle q Hq)].
      specialize (Hle x (list_elem_of_here _ _)). lra.
    + apply Qltb_ge in E. destruct (IH a) as (lo & Hlo & Hin & Hle).
      exists lo. split; [exact Hlo|]. split.
      * apply elem_of_cons in Hin as [->|Hin]; [left|right; right; exact Hin].
      * intros q Hq. apply elem_of_cons in Hq as [->|Hq];
          [apply Hle; left|].
        apply elem_of_cons in Hq as [->|Hq]; [|apply Hle; right; exact Hq].
        specialize (Hle a (list_elem_of_here _ _)). lra.
Qed.

Lemma foldl_max2_Num (l : list Q) (a : Q) :
  exists hi : Q,
    foldl JS.max2 (Num a) (map Num l) = Num hi /\
    hi ∈ a :: l /\ forall q, q ∈ a :: l -> q <= hi.
Proof.
  revert a. induction l as [|x l IH]; intros a; simpl.
  - exists a. split; [reflexivity|]. split; [left|].
    intros q Hq. apply list_elem_of_singleton in Hq as ->. lra.
  - unfold JS.lt. destruct (JS.Qltb a x) eqn:E.
    + apply Qltb_lt in E. destruct (IH x) as (hi & Hhi & Hin & Hle).
      exists hi. split; [exact Hhi|]. split; [right; exact Hin|].
      intros q Hq. apply elem_of_cons in Hq as [->|Hq]; [|exact (Hle q Hq)].
      specialize (Hle x (list_elem_of_here _ _)). lra.
    + apply Qltb_ge in E. destruct (IH a) as (hi & Hhi & Hin & Hle).
      exists hi. split; [exact Hhi|]. split.
      * apply elem_of_cons in Hin as [->|Hin]; [left|right; right; exact Hin].
      * intros q Hq. apply elem_of_cons in Hq as [->|Hq];
          [apply Hle; left|].
        apply elem_of_cons in Hq as [->|Hq]; [|apply Hle; right; exact Hq].
        specialize (Hle a (list_elem_of_here _ _)). lra.
Qed.

Lemma minOf_Num (l : list Q) :
  l <> [] ->
  exists lo : Q,
    JS.minOf (map Num l) = Num lo /\ lo ∈ l /\ forall q, q ∈ l -> lo <= q.
Proof.
  destruct l as [|a l]; [congruence|]. intros _.
  unfold JS.minOf. simpl. apply foldl_min2_Num.
Qed.

Lemma maxOf_Num (l : list Q) :
  l <> [] ->
  exists hi : Q,
    JS.maxOf (map Num l) = Num hi /\ hi ∈ l /\ forall q, q ∈ l -> q <= hi.
Proof.
  destruct l as [|a l]; [congruence|]. intros _.
  unfold JS.maxOf. simpl. apply foldl_max2_Num.
Qed.

End MinMaxFacts.

(** ** Facts about the comparison rows *)

Section ComparisonFacts.
Context `{Runtime}.

Lemma setProperty_lookup {V : Type} (k k' : string) (v : V)
    (obj : gmap string V) :
  setProperty k v obj !! k' =
  if bool_decide (k = k' /\ k <> "__proto__") then Some v else obj !! k'.
Proof.
  unfold setProperty. destruct (String.eqb k "__proto__") eqn:Ek.
  - apply String.eqb_eq in Ek. rewrite bool_decide_eq_false_2; [reflexivity|].
    tauto.
  - apply String.eqb_neq in Ek. destruct (decide (k = k')) as [->|Hne].
    + rewrite lookup_insert_eq, bool_decide_eq_true_2; [reflexivity|]. auto.
    + rewrite lookup_insert_ne by exact Hne.
      rewrite bool_decide_eq_false_2; [reflexivity|]. tauto.
Qed.

Lemma comparisonRow_snoc datasets ds scoresBy idx :
  comparisonRow (datasets ++ [ds]) scoresBy idx =
  setProperty (Dataset.label ds)
    (VNumber (round2 (scoreOr0 scoresBy (IndexConfig.key idx) ds)))
    (comparisonRow datasets scoresBy idx).
Proof. unfold comparisonRow. rewrite foldl_app. reflexivity. Qed.

(** The column of a label other than [__proto__] holds what the last
    dataset with that label wrote. *)
Lemma comparisonRow_last pre d post scoresBy idx :
  Dataset.label d <> "__proto__" ->
  (forall d', d' ∈ post -> Dataset.label d' <> Dataset.label d) ->
  comparisonRow (pre ++ d :: post) scoresBy idx !! Dataset.label d =
  Some (VNumber (round2 (scoreOr0 scoresBy (IndexConfig.key idx) d))).
Proof.
  intros Hproto. induction post as [|e post IH] using rev_ind; intros Hpost.
  - rewrite comparisonRow_snoc, setProperty_lookup.
    rewrite bool_decide_eq_true_2; [reflexivity|]. auto.
  - replace (pre ++ d :: post ++ [e])%list
      with ((pre ++ d :: post) ++ [e])%list
      by (rewrite <- app_assoc; reflexivity).
    rewrite comparisonRow_snoc, setProperty_lookup.
    rewrite bool_decide_eq_false_2.
    + apply IH. intros d' Hd'. apply Hpost. apply elem_of_app. left. exact Hd'.
    + intros [Heq _]. revert Heq. apply Hpost. apply elem_of_app. right. left.
Qed.

(** No assignment makes a property [__proto__]. *)
Lemma comparisonRow_proto datasets scoresBy idx :
  comparisonRow datasets scoresBy idx !! "__proto__" = None.
Proof.
  induction datasets as [|ds datasets IH] using rev_ind.
  - reflexivity.
  - rewrite comparisonRow_snoc, setProperty_lookup.
    rewrite bool_decide_eq_false_2; [exact IH|].
    intros [Heq Hne]. congruence.
Qed.


Lemma round2_zero : round2 (Num 0) = Num 0.
Proof. vm_compute. reflexivity. Qed.

End ComparisonFacts.

(** ** Facts about the trend series *)

Section TrendFacts.
Context `{Runtime}.

Lemma digitVal_range (c : ascii) (v : Z) :
  Str.digitVal c = Some v -> 0 <= v <= 9.
Proof.
  unfold Str.digitVal.
  destruct (48 <=? nat_of_ascii c)%nat eqn:Elo; simpl; [|discriminate].
  destruct (nat_of_ascii c <=? 57)%nat eqn:Ehi; simpl; [|discriminate].
  apply Nat.leb_le in Elo, Ehi. intros [= <-]. lia.
Qed.

(** A match of the year pattern reads as a number from 2000 to 2099. *)
Lemma startsWithYear_parse (s : string) :
  startsWithYear s = true ->
  2000 <= Str.parseIntDigits (String.substring 0 4 s) <= 2099.
Proof.
  destruct s as [|a [|b [|c [|d r]]]]; simpl; try discriminate.
  intros Hy. apply andb_true_iff in Hy as [Hy Hd].
  apply andb_true_iff in Hy as [Hy Hc].
  apply andb_true_iff in Hy as [Ha Hb].
  apply Ascii.eqb_eq in Ha, Hb. subst a b.
  unfold Str.isDigit in Hc, Hd.
  destruct (Str.digitVal c) as [v|] eqn:Ec; [|discriminate].
  destruct (Str.digitVal d) as [w|] eqn:Ed; [|discriminate].
  pose proof (digitVal_range c v Ec) as Hv.
  pose proof (digitVal_range d w Ed) as Hw.
  assert (Hsub : String.substring 0 0 r = "") by (destruct r; reflexivity).
  rewrite Hsub. unfold Str.parseIntDigits.
  cbn [Str.readDigits]. change (Str.digitVal "2") with (Some 2).
  change (Str.digitVal "0") with (Some 0). cbv iota.
  change (2 <? 10) with true. change (0 <? 10) with true. cbv iota.
  rewrite Ec, Ed.
  rewrite (proj2 (Z.ltb_lt v 10)) by lia.
  rewrite (proj2 (Z.ltb_lt w 10)) by lia.
  simpl fst. lia.
Qed.

Lemma matchYear_parse (label m : string) :
  matchYear label = Some m -> 2000 <= Str.parseIntDigits m <= 2099.
Proof.
  induction label as [|a label IH]; [discriminate|].
  change (matchYear (String a label)) with
    (if startsWithYear (String a label)
     then Some (String.substring 0 4 (String a label)) else matchYear label).
  destruct (startsWithYear (String a label)) eqn:Ey; [|exact IH].
  clear IH. intros [= <-].
  exact (startsWithYear_parse (String a label) Ey).
Qed.

(** The key of a label with a year is that year, between 2000 and 2099; the
    key of a label without one is 1000 plus the position of the dataset. *)
Lemma extractYearOrOrder_cases (label : string) (i : nat) :
  (matchYear label <> None /\ 2000 <= extractYearOrOrder label i <= 2099) \/
  (matchYear label = None /\ extractYearOrOrder label i = 1000 + Z.of_nat i).
Proof.
  unfold extractYearOrOrder. destruct (matchYear label) as [m|] eqn:Em.
  - left. split; [discriminate|]. apply (matchYear_parse label m Em).
  - right. auto.
Qed.

Lemma StronglySorted_after {A : Type} (R : A -> A -> Prop)
    (l1 l2 : list A) (x y : A) :
  StronglySorted R (l1 ++ x :: l2) -> y ∈ l2 -> R x y.
Proof.
  induction l1 as [|a l1 IH]; simpl; intros Hs Hy.
  - apply StronglySorted_inv in Hs as [_ Hall].
    rewrite Forall_forall in Hall. apply Hall. exact Hy.
  - apply StronglySorted_inv in Hs as [Hs _]. exact (IH Hs Hy).
Qed.

(** With two datasets or more, the series is the list of the points with a
    positive score, sorted in ascending order of the key, the points of
    equal key staying in the order of the datasets. *)
Lemma trendLineData_sorted datasets scoresBy trendIndexKey :
  (2 <= length datasets)%nat ->
  let points :=
    filter (fun r => JS.gt (TrendPoint.score r) (Num 0) = true)
           (imap (trendPoint scoresBy trendIndexKey) datasets) in
  let series := trendLineData datasets scoresBy trendIndexKey in
  Permutation series points /\
  StronglySorted byOrder series /\
  (forall k, filter (fun r => TrendPoint.order r = k) series =
             filter (fun r => TrendPoint.order r = k) points).
Proof.
  intros Hlen points series. unfold series, trendLineData.
  destruct (length datasets <? 2)%nat eqn:E.
  { apply Nat.ltb_lt in E. lia. }
  fold points. split; [apply sortByOrder_perm|].
  split; [apply sortByOrder_sorted|]. intros k. apply sortByOrder_stable.
Qed.

(** Every point of the series is the point of a dataset, with the key of its
    label and position. *)
Lemma trendLineData_point datasets scoresBy trendIndexKey p :
  p ∈ trendLineData datasets scoresBy trendIndexKey ->
  exists (i : nat) (ds : Dataset.t),
    datasets !! i = Some ds /\ p = trendPoint scoresBy trendIndexKey i ds /\
    JS.gt (TrendPoint.score p) (Num 0) = true.
Proof.
  unfold trendLineData. destruct (length datasets <? 2)%nat.
  { intros Hp. inversion Hp. }
  intros Hp. rewrite (sortByOrder_perm _) in Hp.
  apply list_elem_of_filter in Hp as [Hpos Hp].
  apply list_elem_of_lookup in Hp as [i Hi].
  rewrite list_lookup_imap in Hi.
  destruct (datasets !! i) as [ds|] eqn:Eds; [|discriminate].
  injection Hi as <-. exists i, ds. auto.
Qed.

(** Up to 1000 datasets, no dataset without a year comes after a dataset
    with one. *)
Lemma trendLineData_years_last datasets scoresBy trendIndexKey l1 p l2 p' :
  (length datasets <= 1000)%nat ->
  trendLineData datasets scoresBy trendIndexKey = (l1 ++ p :: l2)%list ->
  matchYear (TrendPoint.datasetLabel p) <> None ->
  p' ∈ l2 ->
  matchYear (TrendPoint.datasetLabel p') <> None.
Proof.
  intros Hlen Hout Hyear Hp' Hnone.
  assert (H2 : (2 <= length datasets)%nat).
  { destruct (le_lt_dec 2 (length datasets)) as [Hle|Hlt]; [exact Hle|].
    unfold trendLineData in Hout. apply Nat.ltb_lt in Hlt. rewrite Hlt in Hout.
    destruct l1; discriminate. }
  destruct (trendLineData_sorted datasets scoresBy trendIndexKey H2)
    as (_ & Hsorted & _).
  rewrite Hout in Hsorted.
  pose proof (StronglySorted_after byOrder l1 l2 p p' Hsorted Hp') as Hle.
  assert (Hin : p ∈ trendLineData datasets scoresBy trendIndexKey).
  { rewrite Hout. apply elem_of_app. right. left. }
  assert (Hin' : p' ∈ trendLineData datasets scoresBy trendIndexKey).
  { rewrite Hout. apply elem_of_app. right. right. exact Hp'. }
  apply trendLineData_point in Hin as (i & ds & _ & -> & _).
  apply trendLineData_point in Hin' as (i' & ds' & Hi' & -> & _).
  apply lookup_lt_Some in Hi'.
  unfold byOrder, trendPoint in Hle. simpl in Hle, Hyear, Hnone.
  destruct (extractYearOrOrder_cases (Dataset.label ds) i) as [[_ Hy]|[Hn _]];
    [|contradiction].
  destruct (extractYearOrOrder_cases (Dataset.label ds') i')
    as [[Hn' _]|[_ Hk]]; [contradiction|].
  lia.
Qed.

End TrendFacts.

(** ** Facts about the scores the page charts *)

Section PageFacts.
Context `{Runtime}.
Local Open Scope Q_scope.

Lemma Qsame_eq (x y : Q) : Qsame x y = true -> x = y.
Proof.
  unfold Qsame. intros Hxy. apply andb_true_iff in Hxy as [Hn Hd].
  apply Z.eqb_eq in Hn. apply Pos.eqb_eq in Hd.
  destruct x, y. simpl in *. congruence.
Qed.

(** Between 1.00 and 5.00 the text made by [toFixed(2)] reads back as the
    binary64 number closest to that number of hundredths: checked on the
    401 texts. *)
Lemma fixedText_hundredths (n : Z) :
  (100 <= n <= 500)%Z ->
  Str.toNumber (fixedText 2 n) = Num (JS.nearest (n # 100)).
Proof.
  intros Hn.
  assert (Hall : forallb (fun k => readsAsHundredths (100 + Z.of_nat k))
                         (seq 0 401) = true) by (vm_compute; reflexivity).
  rewrite forallb_forall in Hall.
  specialize (Hall (Z.to_nat (n - 100))).
  replace (100 + Z.of_nat (Z.to_nat (n - 100)))%Z with n in Hall by lia.
  unfold readsAsHundredths in Hall.
  destruct (Str.toNumber (fixedText 2 n)) as [| |r].
  - exfalso. apply diff_false_true, Hall, in_seq. lia.
  - exfalso. apply diff_false_true, Hall, in_seq. lia.
  - f_equal. apply Qsame_eq, Hall, in_seq. lia.
Qed.

(** Rounding a number of the scale to two decimals gives the binary64 number
    closest to its number of hundredths, the larger one on a tie. *)
Lemma round2_value (q : Q) :
  1 <= q <= 5 ->
  let n := Qfloor (q * 100 + (1 # 2)) in
  (100 <= n <= 500)%Z /\ round2 (Num q) = Num (JS.nearest (n # 100)).
Proof.
  intros [Hq1 Hq5] n. unfold round2, toFixed.
  rewrite (proj2 (Qltb_ge q 0)) by lra.
  assert (Habs : Qabs q == q) by (apply Qabs_pos; lra).
  destruct (Qle_bool (inject_Z (10 ^ 21)) (Qabs q)) eqn:Ebig.
  { apply Qle_bool_iff in Ebig. rewrite Habs in Ebig.
    assert (Hbig : 5 < inject_Z (10 ^ 21)).
    { change 5 with (inject_Z 5). rewrite <- Zlt_Qlt. reflexivity. }
    lra. }
  change (inject_Z (10 ^ Z.of_nat 2)) with 100.
  assert (Hfl : Qfloor (Qabs q * 100 + (1 # 2)) = n).
  { apply Qfloor_comp. rewrite Habs. reflexivity. }
  rewrite Hfl.
  assert (Hn : (100 <= n <= 500)%Z).
  { pose proof (Qfloor_le (q * 100 + (1 # 2))) as Hle.
    pose proof (Qlt_floor (q * 100 + (1 # 2))) as Hlt.
    fold n in Hle, Hlt.
    rewrite inject_Z_plus in Hlt. change (inject_Z 1) with 1 in Hlt.
    split.
    - apply Z.lt_succ_r. unfold Z.succ.
      assert (Hz : inject_Z 99 < inject_Z n).
      { change (inject_Z 99) with 99. lra. }
      rewrite <- Zlt_Qlt in Hz. lia.
    - assert (Hz : inject_Z n < inject_Z 501).
      { change (inject_Z 501) with 501. lra. }
      rewrite <- Zlt_Qlt in Hz. lia. }
  split; [exact Hn|].
  change ("" ++ ?t)%string with t. apply fixedText_hundredths. exact Hn.
Qed.

(** Rounding to two decimals keeps a number of the scale on the scale. *)
Lemma round2_onScale (x : number) : onScale x -> onScale (round2 x).
Proof.
  intros (q & -> & Hq). destruct (round2_value q Hq) as [Hn ->].
  set (n := Qfloor (q * 100 + (1 # 2))) in *.
  exists (JS.nearest (n # 100)). split; [reflexivity|].
  change 1 with (inject_Z 1). change 5 with (inject_Z 5).
  apply nearest_between; [lia|lia|].
  change (inject_Z 1) with 1. change (inject_Z 5) with 5.
  unfold Qle. simpl. lia.
Qed.

Lemma round2_zeroOrOnScale (x : number) :
  zeroOrOnScale x -> zeroOrOnScale (round2 x).
Proof.
  intros [->|Hx]; [left; apply round2_zero|right; apply round2_onScale; exact Hx].
Qed.

Lemma onScale_positive (x : number) : onScale x -> JS.gt x (Num 0) = true.
Proof. intros (q & -> & Hq & _). apply gt_zero_Num. lra. Qed.

(** The question lists of the catalog have from four to six questions. *)
Lemma INDEXES_questions (idx : IndexConfig.t) :
  idx ∈ INDEXES -> (4 <= length (IndexConfig.questions idx) <= 6)%nat.
Proof.
  intros Hin. unfold INDEXES in Hin.
  repeat (apply elem_of_cons in Hin as [->|Hin]; [simpl; lia|]).
  inversion Hin.
Qed.

Lemma computeQuestionMeans_zeroOrOnScale rows questions rowFilter :
  JS.isArray rows ->
  Forall (fun st => zeroOrOnScale (QuestionStat.mean st))
         (computeQuestionMeans rows questions rowFilter).
Proof.
  intros Harr. unfold computeQuestionMeans. apply Forall_forall. intros st Hst.
  apply list_elem_of_In, in_map_iff in Hst as (q & <- & _).
  destruct (questionMean_cases rows rowFilter q Harr)
    as (m & -> & [[_ ->]|[_ Hb]]).
  - left. reflexivity.
  - right. exists m. auto.
Qed.

(** The means that the index mean keeps are on the scale. *)
Lemma validMeans_onScale (qs : list QuestionStat.t) :
  Forall (fun st => zeroOrOnScale (QuestionStat.mean st)) qs ->
  Forall onScale
    (filter (fun m => JS.gt m (Num 0) = true) (map QuestionStat.mean qs)).
Proof.
  intros Hqs. apply Forall_forall. intros m Hm.
  apply list_elem_of_filter in Hm as [Hgt Hm].
  apply list_elem_of_In, in_map_iff in Hm as (st & <- & Hst).
  rewrite Forall_forall in Hqs. apply list_elem_of_In in Hst.
  destruct (Hqs st Hst) as [H0|Hon]; [|exact Hon].
  rewrite H0 in Hgt. discriminate.
Qed.

Lemma validMeans_isArray (qs : list QuestionStat.t) :
  JS.isArray qs ->
  JS.isArray
    (filter (fun m => JS.gt m (Num 0) = true) (map QuestionStat.mean qs)).
Proof.
  apply isArray_shorter.
  etransitivity; [apply length_filter|]. rewrite length_map. reflexivity.
Qed.

Lemma indexMean_zeroOrOnScale (qs : list QuestionStat.t) :
  JS.isArray qs ->
  Forall (fun st => zeroOrOnScale (QuestionStat.mean st)) qs ->
  zeroOrOnScale (indexMean qs).
Proof.
  intros Harr Hqs. unfold indexMean.
  pose proof (validMeans_onScale qs Hqs) as Hvalid.
  pose proof (validMeans_isArray qs Harr) as Hlen.
  destruct (filter _ (map QuestionStat.mean qs)) as [|m ms] eqn:Ev;
    [left; reflexivity|].
  right. apply (meanOf_onScale (m :: ms)); [exact Hvalid|discriminate|exact Hlen].
Qed.

Lemma computeQuestionMeans_isArray rows questions rowFilter :
  JS.isArray questions ->
  JS.isArray (computeQuestionMeans rows questions rowFilter).
Proof.
  apply isArray_shorter. unfold computeQuestionMeans. rewrite length_map.
  reflexivity.
Qed.

Lemma indexScore_zeroOrOnScale (rows : list RawRow) (idx : IndexConfig.t) :
  JS.isArray rows -> JS.isArray (IndexConfig.questions idx) ->
  zeroOrOnScale (IndexScore.mean (indexScore rows idx)).
Proof.
  intros Hrows Hqs. simpl.
  apply indexMean_zeroOrOnScale.
  - apply computeQuestionMeans_isArray. exact Hqs.
  - apply computeQuestionMeans_zeroOrOnScale. exact Hrows.
Qed.

Lemma INDEXES_isArray (idx : IndexConfig.t) :
  idx ∈ INDEXES -> JS.isArray (IndexConfig.questions idx).
Proof.
  intros Hin. pose proof (INDEXES_questions idx Hin). unfold JS.isArray. lia.
Qed.

(** Every index score of an array of rows is the sentinel 0 or lies in
    [1, 5]. *)
Lemma computeIndexScores_zeroOrOnScale (rows : list RawRow) :
  JS.isArray rows ->
  Forall (fun sc => zeroOrOnScale (IndexScore.mean sc)) (computeIndexScores rows).
Proof.
  intros Hrows. unfold computeIndexScores. apply Forall_forall. intros sc Hsc.
  apply list_elem_of_In, in_map_iff in Hsc as (idx & <- & Hidx).
  apply indexScore_zeroOrOnScale; [exact Hrows|].
  apply INDEXES_isArray, list_elem_of_In, Hidx.
Qed.

Lemma filterRowsByHall_isArray (rows : list RawRow) (hallFilter : string) :
  JS.isArray rows -> JS.isArray (filterRowsByHall rows hallFilter).
Proof.
  apply isArray_shorter. rewrite filterRowsByHall_passes. apply length_filter.
Qed.

Lemma indexScoresByDataset_lookup datasets hallFilter id scores :
  rowArrays datasets ->
  indexScoresByDataset datasets hallFilter !! id = Some scores ->
  exists rows, JS.isArray rows /\ scores = computeIndexScores rows.
Proof.
  unfold indexScoresByDataset, rowArrays. revert scores.
  induction datasets as [|ds datasets IH] using rev_ind; simpl;
    intros scores Harr.
  - rewrite lookup_empty. discriminate.
  - rewrite foldl_app. simpl. apply Forall_app in Harr as [Harr Hds].
    apply Forall_inv in Hds.
    destruct (decide (Dataset.id ds = id)) as [->|Hne].
    + rewrite lookup_insert_eq. intros [= <-]. eexists. split; [|reflexivity].
      apply filterRowsByHall_isArray. exact Hds.
    + rewrite lookup_insert_ne by exact Hne. exact (IH scores Harr).
Qed.

(** The scores of the trend series of the page lie in [1, 5]. *)
Lemma pageTrendLineData_onScale datasets hallFilter trendIndexKey p :
  rowArrays datasets ->
  p ∈ pageTrendLineData datasets hallFilter trendIndexKey ->
  onScale (TrendPoint.score p).
Proof.
  unfold pageTrendLineData. intros Harr Hp.
  apply trendLineData_point in Hp as (i & ds & _ & -> & Hgt).
  unfold trendPoint in *. simpl in *.
  destruct (findScore (indexScoresByDataset datasets hallFilter) ds trendIndexKey)
    as [sc|] eqn:Ef; [|discriminate].
  unfold findScore in Ef. apply find_some in Ef as [Hin _].
  destruct (indexScoresByDataset datasets hallFilter !! Dataset.id ds)
    as [scores|] eqn:El; simpl in Hin; [|contradiction].
  apply (indexScoresByDataset_lookup _ _ _ _ Harr) in El as (rows & Hrows & ->).
  pose proof (computeIndexScores_zeroOrOnScale rows Hrows) as Hall.
  rewrite Forall_forall in Hall. apply list_elem_of_In in Hin.
  destruct (round2_zeroOrOnScale _ (Hall sc Hin)) as [H0|Hon]; [|exact Hon].
  rewrite H0 in Hgt. discriminate.
Qed.

(** So the series of the page has a list of finite scores, all of them from
    1 to 5. *)
Lemma pageTrendLineData_scores datasets hallFilter trendIndexKey :
  rowArrays datasets ->
  exists S : list Q,
    map TrendPoint.score (pageTrendLineData datasets hallFilter trendIndexKey)
      = map Num S /\
    Forall (fun s => 1 <= s <= 5) S.
Proof.
  intros Harr.
  pose proof (pageTrendLineData_onScale datasets hallFilter trendIndexKey) as Hon.
  induction (pageTrendLineData datasets hallFilter trendIndexKey) as [|p l IH].
  - exists []. split; [reflexivity|constructor].
  - destruct IH as (S & HS & Hall).
    { intros p' Harr' Hp'. apply Hon; [exact Harr'|]. right. exact Hp'. }
    destruct (Hon p Harr (list_elem_of_here _ _)) as (q & Hq & Hb).
    exists (q :: S). simpl. rewrite Hq, HS. split; [reflexivity|].
    constructor; assumption.
Qed.

End PageFacts.

(** ** Facts about the Y-axis domain *)

Section DomainFacts.
Local Open Scope Q_scope.

(** The literal 0.2 is the binary64 number closest to 2/10; it is larger
    than 2/10 by less than 2^(-56). *)
Lemma pad_value :
  JS.ofQ (2 # 10) = Num (3602879701896397 # 18014398509481984).
Proof. vm_compute. reflexivity. Qed.

Lemma trendDomain_finite (series : list TrendPoint.t) (S : list Q) :
  map TrendPoint.score series = map Num S -> series <> [] ->
  exists lo hi : Q,
    lo ∈ S /\ (forall s, s ∈ S -> lo <= s) /\
    hi ∈ S /\ (forall s, s ∈ S -> s <= hi) /\
    trendDomain series =
      (JS.max2 (Num 1) (JS.sub (Num lo) (JS.ofQ (2 # 10))),
       JS.min2 (Num 5) (JS.add (Num hi) (JS.ofQ (2 # 10)))).
Proof.
  intros HS Hne. unfold trendDomain.
  destruct series as [|p series]; [congruence|]. simpl length. simpl Nat.eqb.
  cbv iota. rewrite HS.
  assert (HSne : S <> []) by (destruct S; [discriminate|discriminate]).
  destruct (minOf_Num S HSne) as (lo & Hmin & Hlo & Hlole).
  destruct (maxOf_Num S HSne) as (hi & Hmax & Hhi & Hhile).
  rewrite Hmin, Hmax. exists lo, hi. auto.
Qed.

(** With scores from 1 to 5 both bounds are finite, they enclose the scores,
    and they are within 2^(-50) of the bounds computed on real numbers. *)
Lemma padded_bounds (lo hi : Q) :
  1 <= lo <= 5 -> 1 <= hi <= 5 ->
  exists a b : Q,
    JS.max2 (Num 1) (JS.sub (Num lo) (JS.ofQ (2 # 10))) = Num a /\
    JS.min2 (Num 5) (JS.add (Num hi) (JS.ofQ (2 # 10))) = Num b /\
    1 <= a <= lo /\ hi <= b <= 5 /\
    Qabs (a - Qmax 1 (lo - (2 # 10))) <= 1 # 1125899906842624 /\
    Qabs (b - Qmin 5 (hi + (2 # 10))) <= 1 # 1125899906842624.
Proof.
  intros [Hlo1 Hlo5] [Hhi1 Hhi5]. rewrite pad_value.
  set (p := 3602879701896397 # 18014398509481984).
  assert (Hp1 : 2 # 10 <= p) by (unfold Qle; simpl; lia).
  assert (Hp2 : p <= (2 # 10) + (1 # 72057594037927936))
    by (unfold Qle; simpl; lia).
  unfold JS.sub, JS.neg, JS.add.
  rewrite (ofQ_proper (lo + Qred (- p)) (lo - p))
    by (rewrite Qred_correct; reflexivity).
  destruct (ofQ_between 0 5 (lo - p)) as (x & -> & Hxn & Hx);
    [lia|lia|change (inject_Z 0) with 0; change (inject_Z 5) with 5; split; lra|].
  destruct (ofQ_between 1 6 (hi + p)) as (y & -> & Hyn & Hy);
    [lia|lia|change (inject_Z 1) with 1; change (inject_Z 6) with 6; split; lra|].
  change (inject_Z 0) with 0 in Hx. change (inject_Z 5) with 5 in Hx.
  change (inject_Z 1) with 1 in Hy. change (inject_Z 6) with 6 in Hy.
  assert (Hex : Qabs (x - (lo - p)) <= 1 # 2251799813685248).
  { rewrite Hxn. change (1 # 2251799813685248) with (JS.pow2 (3 - 54)).
    apply nearest_error_below; [lia|].
    rewrite Qabs_pos by lra. change (JS.pow2 3) with 8. lra. }
  assert (Hey : Qabs (y - (hi + p)) <= 1 # 2251799813685248).
  { rewrite Hyn. change (1 # 2251799813685248) with (JS.pow2 (3 - 54)).
    apply nearest_error_below; [lia|].
    rewrite Qabs_pos by lra. change (JS.pow2 3) with 8. lra. }
  apply Qabs_Qle_condition in Hex, Hey.
  unfold JS.max2, JS.min2, JS.lt.
  exists (if JS.Qltb 1 x then x else 1), (if JS.Qltb y 5 then y else 5).
  split; [destruct (JS.Qltb 1 x); reflexivity|].
  split; [destruct (JS.Qltb y 5); reflexivity|].
  destruct (Q.max_spec 1 (lo - (2 # 10))) as [[Hm ->]|[Hm ->]];
    destruct (Q.min_spec 5 (hi + (2 # 10))) as [[Hn ->]|[Hn ->]];
    destruct (JS.Qltb 1 x) eqn:E1; destruct (JS.Qltb y 5) eqn:E5;
    try apply Qltb_lt in E1; try apply Qltb_ge in E1;
    try apply Qltb_lt in E5; try apply Qltb_ge in E5;
    (split; [split; lra|]); (split; [split; lra|]);
    (split; apply Qabs_Qle_condition; split; lra).
Qed.

End DomainFacts.

(** ** The claims of the specification *)

Section Claims.
Context `{Runtime}.
Local Open Scope Q_scope.

(** C1. The index mean leaves out the questions without data: with question
    means [0, 4, 2] it is 3.  In general, on an array of rows, the score of
    an index is 0 when every question mean is 0, and otherwise it is the
    mean of the question means that are not 0, computed in binary64 (their
    sum from left to right divided by their number): a number from 1 to 5
    within 2^(-18) of their arithmetic mean.  The score of every configured
    index is computed this way. *)
Theorem C1_index_mean_excludes_no_data (rows : list RawRow) (idx : IndexConfig.t) :
  JS.isArray rows -> JS.isArray (IndexConfig.questions idx) ->
  let qs := computeQuestionMeans rows (IndexConfig.questions idx)
                                 (IndexConfig.rowFilter idx) in
  let score := IndexScore.mean (indexScore rows idx) in
  (map QuestionStat.mean qs = [Num 0; Num 4; Num 2] -> score = Num 3) /\
  (exists ms : list Q,
      map QuestionStat.mean qs = map Num ms /\
      let data := filter (fun m => ~ m == 0) ms in
      (data = [] -> score = Num 0) /\
      (data <> [] ->
       score = meanOf (map Num data) /\
       exists r : Q, score = Num r /\ 1 <= r <= 5 /\
                     Qabs (r - Qmean data) <= 1 # 262144)) /\
  (idx ∈ INDEXES -> indexScore rows idx ∈ computeIndexScores rows).
Proof.
  intros Hrows Hquestions qs score. split; [|split].
  - intros Hms. unfold score, indexScore. simpl. fold qs.
    unfold indexMean. rewrite Hms. vm_compute. reflexivity.
  - destruct (computeQuestionMeans_means rows (IndexConfig.questions idx)
                (IndexConfig.rowFilter idx) Hrows) as (ms & Hms & Hnn & Hdata & _).
    exists ms. split; [exact Hms|]. cbv zeta.
    assert (Hscore : score = match filter (fun m => ~ m == 0) ms with
                             | [] => Num 0
                             | data => meanOf (map Num data)
                             end)
      by exact (indexMean_meanOf qs ms Hms Hnn).
    destruct (filter (fun m => ~ m == 0) ms) as [|d data] eqn:Ed.
    + split; [intros _; exact Hscore|]. congruence.
    + split; [discriminate|]. intros _. split; [exact Hscore|].
      destruct (meanOf_spec (d :: data) Hdata) as (r & Hr & Hb & Herr);
        [discriminate| |].
      * apply (isArray_shorter ms); [|].
        -- rewrite <- Ed. apply length_filter.
        -- apply (isArray_shorter (IndexConfig.questions idx));
             [|exact Hquestions].
           apply (f_equal length) in Hms. rewrite !length_map in Hms.
           unfold qs, computeQuestionMeans in Hms. rewrite length_map in Hms.
           rewrite Hms. reflexivity.
      * exists r. rewrite Hscore. auto.
  - intros Hin. unfold computeIndexScores.
    apply list_elem_of_In, in_map, list_elem_of_In. exact Hin.
Qed.

(** C2 (as amended). [toLikert] returns either nothing or a finite number
    between 1 and 5, namely the Number value of the trimmed text of the cell
    (a whole number for the texts "1" to "5", but not in general: "2.5" gives
    2.5, and a text is rounded to binary64 before the test, so that
    "5.0000000000000001" gives 5 and "0.99999999999999999" gives 1).  It
    returns nothing for null, undefined, "", "0", "6" and "abc", and exactly
    for the cells that are null or undefined, or whose trimmed text is
    empty, is not a finite number, or is a number outside [1, 5].  Being a
    total function, it raises no error. *)
Theorem C2_toLikert_range (v : value) :
  (toLikert v = None \/
   exists q : Q, toLikert v = Some (Num q) /\ 1 <= q <= 5) /\
  (v ∈ [VNull; VUndefined; VString ""; VString "0"; VString "6"; VString "abc"]
   -> toLikert v = None) /\
  (toLikert v = None <->
     v = VNull \/ v = VUndefined \/
     Str.trim (JSString v) = "" \/
     JS.isFinite (Str.toNumber (Str.trim (JSString v))) = false \/
     exists q : Q, Str.toNumber (Str.trim (JSString v)) = Num q
                   /\ (q < 1 \/ 5 < q)) /\
  (forall n, toLikert v = Some n -> n = Str.toNumber (Str.trim (JSString v))) /\
  map toLikert [VString "1"; VString "2"; VString "3"; VString "4"; VString "5"]
    = [Some (Num 1); Some (Num 2); Some (Num 3); Some (Num 4); Some (Num 5)] /\
  map toLikert [VString "2.5"; VString "5.0000000000000001";
                VString "0.99999999999999999"; VString "5.000000000000001"]
    = [Some (Num (5 # 2)); Some (Num 5); Some (Num 1); None].
Proof.
  split; [|split; [|split; [|split; [|split]]]].
  - destruct (toLikert v) as [n|] eqn:En; [right|left; reflexivity].
    destruct (toLikert_onScale v n En) as (q & -> & Hq). eauto.
  - intros Hv.
    repeat (apply elem_of_cons in Hv as [->|Hv]; [vm_compute; reflexivity|]).
    inversion Hv.
  - assert (Hgen : forall s : string,
      (if String.eqb s "" then None
       else if negb (JS.isFinite (Str.toNumber s)) then None
       else if (JS.lt (Str.toNumber s) (Num 1)
                || JS.gt (Str.toNumber s) (Num 5))%bool
            then None else Some (Str.toNumber s)) = None <->
      s = "" \/ JS.isFinite (Str.toNumber s) = false \/
      exists q : Q, Str.toNumber s = Num q /\ (q < 1 \/ 5 < q)).
    { intros s. destruct (String.eqb s "") eqn:Es.
      - apply String.eqb_eq in Es. tauto.
      - apply String.eqb_neq in Es.
        destruct (Str.toNumber s) as [| |q]; simpl; try tauto.
        unfold JS.gt, JS.lt.
        destruct (JS.Qltb q 1) eqn:E1; simpl.
        + apply Qltb_lt in E1. split; [|reflexivity].
          intros _. right. right. exists q. auto.
        + apply Qltb_ge in E1. destruct (JS.Qltb 5 q) eqn:E5.
          * apply Qltb_lt in E5. split; [|reflexivity].
            intros _. right. right. exists q. auto.
          * apply Qltb_ge in E5. split; [discriminate|].
            intros [?|[?|(q' & [= <-] & [?|?])]];
              try contradiction; try discriminate; lra. }
    destruct v as [| |s|n]; simpl.
    + tauto.
    + tauto.
    + rewrite Hgen. split; [tauto|].
      intros [?|[?|?]]; [discriminate|discriminate|tauto].
    + rewrite Hgen. split; [tauto|].
      intros [?|[?|?]]; [discriminate|discriminate|tauto].
  - intros n Hn. apply (toLikert_Some v n Hn).
  - vm_compute. reflexivity.
  - vm_compute. reflexivity.
Qed.

(** C3. The output of [computeQuestionMeans] has the length and the order of
    the question list, with or without an eligibility predicate; a question
    that no eligible row answers validly is still there, with mean 0. *)
Theorem C3_question_order_kept (rows : list RawRow) (questions : list string)
    (rowFilter : option (RawRow -> bool)) :
  let out := computeQuestionMeans rows questions rowFilter in
  length out = length questions /\
  map QuestionStat.question out = questions /\
  (forall (i : nat) (q : string),
      questions !! i = Some q ->
      exists st, out !! i = Some st /\ QuestionStat.question st = q /\
        ((forall row, row ∈ rows -> eligible rowFilter row = true ->
                      toLikert (get row q) = None) ->
         QuestionStat.mean st = Num 0)).
Proof.
  intros out. unfold out, computeQuestionMeans. split; [|split].
  - apply length_map.
  - rewrite map_map. erewrite map_ext; [apply map_id|].
    intros q. apply questionMean_question.
  - intros i q Hi. exists (questionMean rows rowFilter q). split; [|split].
    + change (map ?f ?l) with (f <$> l). rewrite list_lookup_fmap, Hi.
      reflexivity.
    + apply questionMean_question.
    + intros Hnone. apply questionMean_no_data.
      destruct (responses rowFilter q rows) as [|r rs] eqn:Er; [reflexivity|].
      assert (Hne : responses rowFilter q rows <> []) by (rewrite Er; discriminate).
      apply responses_nonempty in Hne as (row & Hin & Hel & [n Hn]).
      rewrite (Hnone row Hin Hel) in Hn. discriminate.
Qed.

(** C7 (as amended). For every question of the output of
    [computeQuestionMeans] on an array of rows, the mean lies in [1, 5]
    whenever at least one eligible row (a row accepted by the eligibility
    predicate, when there is one) has a valid response to it, and it is the
    0 sentinel exactly when no eligible row has one.  Without a predicate
    every row is eligible. *)
Theorem C7_mean_on_scale_or_sentinel (rows : list RawRow)
    (questions : list string) (rowFilter : option (RawRow -> bool))
    (st : QuestionStat.t) :
  JS.isArray rows ->
  st ∈ computeQuestionMeans rows questions rowFilter ->
  let answered :=
    exists row, row ∈ rows /\ eligible rowFilter row = true /\
                is_Some (toLikert (get row (QuestionStat.question st))) in
  (answered ->
   exists m : Q, QuestionStat.mean st = Num m /\ 1 <= m <= 5) /\
  (QuestionStat.mean st = Num 0 <-> ~ answered) /\
  (rowFilter = None -> forall row, eligible rowFilter row = true).
Proof.
  intros Harr Hst answered. unfold computeQuestionMeans in Hst.
  apply list_elem_of_In, in_map_iff in Hst as (q & <- & _).
  subst answered. rewrite questionMean_question.
  rewrite <- responses_nonempty. split; [|split].
  - apply questionMean_data. exact Harr.
  - split.
    + intros H0 Hne.
      destruct (questionMean_data rows rowFilter q Harr Hne) as (m & Hm & Hb).
      rewrite Hm in H0. injection H0 as ->. lra.
    + intros Hno. apply questionMean_no_data.
      destruct (responses rowFilter q rows); [reflexivity|].
      exfalso. apply Hno. discriminate.
  - intros -> row. reflexivity.
Qed.

(** C5. The RA Support entry of the catalog carries the predicate "RA
    assigned is Yes".  Under a hall filter, the mean of a question computed
    with that predicate on an array of rows is the mean of the valid answers
    of exactly the rows that pass the hall filter and the predicate, in
    their order (0 when there is none): every such row with a valid answer
    contributes it, and then the mean is on the scale; a row whose
    RA-assigned cell trims to "No" is not among them, and adding or removing
    it changes no question mean, whatever its answers. *)
Theorem C5_ra_support_eligibility (rows : list RawRow) (hallFilter : string)
    (questions : list string) :
  JS.isArray rows ->
  let kept :=
    filter (fun r => raAssigned r = true /\ passesHall hallFilter r = true)
           rows in
  let mean := fun q =>
    QuestionStat.mean
      (questionMean (filterRowsByHall rows hallFilter) (Some raAssigned) q) in
  (forall idx, idx ∈ INDEXES -> IndexConfig.key idx = raSupport ->
               IndexConfig.rowFilter idx = Some raAssigned) /\
  (forall q, mean q = match responses None q kept with
                      | [] => Num 0
                      | answers => meanOf answers
                      end) /\
  (forall q row n,
      row ∈ rows -> raAssigned row = true -> passesHall hallFilter row = true ->
      toLikert (get row q) = Some n ->
      row ∈ kept /\ n ∈ responses None q kept /\ onScale (mean q)) /\
  (forall row,
      Str.trim (JSString (nullish (get row COL_RA_ASSIGNED) (VString ""))) = "No" ->
      (row ∉ kept) /\
      forall pre post,
        computeQuestionMeans (pre ++ row :: post) questions (Some raAssigned) =
        computeQuestionMeans (pre ++ post) questions (Some raAssigned)).
Proof.
  intros Harr kept mean.
  assert (Hresp : forall q,
    responses (Some raAssigned) q (filterRowsByHall rows hallFilter)
    = responses None q kept).
  { intros q. rewrite responses_filter, filterRowsByHall_passes,
      list_filter_filter. reflexivity. }
  assert (Hmean : forall q, mean q = match responses None q kept with
                                     | [] => Num 0
                                     | answers => meanOf answers
                                     end).
  { intros q. unfold mean. rewrite questionMean_meanOf, Hresp; [reflexivity|].
    apply filterRowsByHall_isArray. exact Harr. }
  split; [|split; [exact Hmean|split]].
  - intros idx Hin Hkey. unfold INDEXES in Hin.
    repeat (apply elem_of_cons in Hin as [->|Hin];
            [simpl in Hkey; try discriminate Hkey; try reflexivity|]).
    inversion Hin.
  - intros q row n Hin Hra Hhall Hn.
    assert (Hkept : row ∈ kept) by (apply list_elem_of_filter; auto).
    assert (Hans : n ∈ responses None q kept).
    { unfold responses. apply list_elem_of_omap. exists row.
      split; [exact Hkept|]. simpl. exact Hn. }
    split; [exact Hkept|]. split; [exact Hans|].
    rewrite Hmean.
    destruct (responses None q kept) as [|a answers] eqn:Ea; [inversion Hans|].
    apply meanOf_onScale; [| discriminate |].
    + rewrite <- Ea. apply responses_onScale.
    + rewrite <- Ea. apply responses_isArray.
      apply (isArray_shorter rows); [apply length_filter|exact Harr].
  - intros row Hno. split.
    + intros Hin. apply list_elem_of_filter in Hin as [[Hra _] _].
      unfold raAssigned in Hra. rewrite Hno in Hra. discriminate.
    + intros pre post. unfold computeQuestionMeans.
      apply map_ext. intros q. apply questionMean_responses.
      rewrite !responses_app. f_equal. unfold responses at 1. simpl.
      unfold raAssigned at 1. rewrite Hno. reflexivity.
Qed.

(** C6. Filtering by "ALL" returns the row list as it is, so filtering twice
    changes nothing more (and this holds for every hall value); filtering by
    a hall value that no row's trimmed building cell equals returns the empty
    list. *)
Theorem C6_hall_filter_all_and_absent (rows : list RawRow) (hallFilter : string) :
  filterRowsByHall rows "ALL" = rows /\
  filterRowsByHall (filterRowsByHall rows hallFilter) hallFilter =
    filterRowsByHall rows hallFilter /\
  (hallFilter <> "ALL" ->
   (forall r, r ∈ rows -> buildingOf r <> hallFilter) ->
   filterRowsByHall rows hallFilter = []).
Proof.
  split; [reflexivity|split].
  - rewrite !filterRowsByHall_passes, list_filter_filter.
    apply list_filter_iff. tauto.
  - intros Hne Hnone. rewrite filterRowsByHall_other by exact Hne.
    apply filter_none. exact Hnone.
Qed.

(** C8. The Y-axis domain of an empty trend series is [1, 5]; for a series
    that is not empty, with finite scores S, it is
    [max(1, min S - 0.2), min(5, max S + 0.2)] as binary64 arithmetic
    computes it, where min S and max S are the least and the greatest
    element of S and 0.2 is the binary64 number closest to 2/10.  For scores
    from 1 to 5, as those of the series that the page computes are
    ([pageTrendLineData_scores]), both bounds are finite and within 2^(-50)
    of the bounds computed on real numbers. *)
Theorem C8_trend_domain (series : list TrendPoint.t) (S : list Q) :
  map TrendPoint.score series = map Num S ->
  (series = [] -> trendDomain series = (Num 1, Num 5)) /\
  (series <> [] ->
   exists lo hi : Q,
     lo ∈ S /\ (forall s, s ∈ S -> lo <= s) /\
     hi ∈ S /\ (forall s, s ∈ S -> s <= hi) /\
     trendDomain series =
       (JS.max2 (Num 1) (JS.sub (Num lo) (JS.ofQ (2 # 10))),
        JS.min2 (Num 5) (JS.add (Num hi) (JS.ofQ (2 # 10)))) /\
     (Forall (fun s => 1 <= s <= 5) S ->
      exists a b : Q,
        trendDomain series = (Num a, Num b) /\
        Qabs (a - Qmax 1 (lo - (2 # 10))) <= 1 # 1125899906842624 /\
        Qabs (b - Qmin 5 (hi + (2 # 10))) <= 1 # 1125899906842624)).
Proof.
  intros HS. split.
  - intros ->. reflexivity.
  - intros Hne.
    destruct (trendDomain_finite series S HS Hne)
      as (lo & hi & Hlo & Hlole & Hhi & Hhile & Hdom).
    exists lo, hi. repeat (split; [assumption|]).
    intros Hall. rewrite Forall_forall in Hall.
    destruct (padded_bounds lo hi (Hall lo Hlo) (Hall hi Hhi))
      as (a & b & Ha & Hb & _ & _ & Hea & Heb).
    exists a, b. rewrite Hdom, Ha, Hb. auto.
Qed.

(** C9. Only the exact text "ALL" bypasses the hall filter: every other
    target is compared for equality with the trimmed building cell of each
    row.  So the targets "all" and "All" return the empty list when no
    building equals them, and a target with white space around it (the
    target is not trimmed) matches no row at all. *)
Theorem C9_sentinel_is_exact (rows : list RawRow) (hallFilter : string) :
  filterRowsByHall rows "ALL" = rows /\
  (hallFilter <> "ALL" ->
   filterRowsByHall rows hallFilter =
   filter (fun r => buildingOf r = hallFilter) rows) /\
  ((forall r, r ∈ rows -> buildingOf r <> "all") ->
   filterRowsByHall rows "all" = []) /\
  ((forall r, r ∈ rows -> buildingOf r <> "All") ->
   filterRowsByHall rows "All" = []) /\
  (hallFilter <> "ALL" -> Str.trim hallFilter <> hallFilter ->
   filterRowsByHall rows hallFilter = []).
Proof.
  split; [reflexivity|]. split; [apply filterRowsByHall_other|].
  split; [|split].
  - intros Hnone. rewrite filterRowsByHall_other by discriminate.
    apply filter_none. exact Hnone.
  - intros Hnone. rewrite filterRowsByHall_other by discriminate.
    apply filter_none. exact Hnone.
  - intros Hne Hws. rewrite filterRowsByHall_other by exact Hne.
    apply filter_none. intros r _ Heq. apply Hws.
    rewrite <- Heq. apply buildingOf_trimmed.
Qed.


End Claims.

(** ** Further properties of the page *)

(** *** Labels of uploaded files *)

Section LabelFacts.
Context `{Runtime}.

Lemma matchYear_cons (a : ascii) (s : string) :
  matchYear (String a s) =
  if startsWithYear (String a s)
  then Some (String.substring 0 4 (String a s)) else matchYear s.
Proof. reflexivity. Qed.

(** A match is made of "20" and two digits. *)
Lemma matchYear_form (s m : string) :
  matchYear s = Some m ->
  exists c d : ascii,
    m = String "2" (String "0" (String c (String d EmptyString))) /\
    Str.isDigit c = true /\ Str.isDigit d = true.
Proof.
  induction s as [|a s IH]; [discriminate|].
  rewrite matchYear_cons.
  destruct (startsWithYear (String a s)) eqn:Ey; [|exact IH].
  clear IH. intros [= <-].
  destruct s as [|b [|c [|d r]]]; simpl in Ey; try discriminate.
  apply andb_true_iff in Ey as [Ey Hd].
  apply andb_true_iff in Ey as [Ey Hc].
  apply andb_true_iff in Ey as [Ha Hb].
  apply Ascii.eqb_eq in Ha, Hb. subst a b.
  exists c, d. split; [|split; assumption].
  simpl. destruct r; reflexivity.
Qed.

(** The label made from a year starts with that year. *)
Lemma matchYear_year_label (m : string) (c d : ascii) :
  m = String "2" (String "0" (String c (String d EmptyString))) ->
  Str.isDigit c = true -> Str.isDigit d = true ->
  matchYear (m ++ " Survey") = Some m.
Proof.
  intros -> Hc Hd. simpl. rewrite Hc, Hd. reflexivity.
Qed.

Lemma startsWithYear_app (s t : string) :
  startsWithYear s = true -> startsWithYear (s ++ t) = true.
Proof.
  destruct s as [|a [|b [|c [|d r]]]]; simpl; try discriminate. auto.
Qed.

(** A text without a year has no year in any of its prefixes. *)
Lemma matchYear_prefix_None (s t : string) :
  matchYear (s ++ t) = None -> matchYear s = None.
Proof.
  induction s as [|a s IH]; [reflexivity|].
  change (String a s ++ t)%string with (String a (s ++ t)).
  rewrite !matchYear_cons.
  destruct (startsWithYear (String a s)) eqn:Ey.
  - apply (startsWithYear_app (String a s) t) in Ey.
    change (String a s ++ t)%string with (String a (s ++ t)) in Ey.
    rewrite Ey. discriminate.
  - destruct (startsWithYear (String a (s ++ t))); [discriminate|exact IH].
Qed.

Lemma stripExtension_prefix (s : string) :
  exists t, s = (stripExtension s ++ t)%string.
Proof.
  induction s as [|c s [t IH]]; [exists EmptyString; reflexivity|].
  simpl. destruct (Ascii.eqb c "." && isExtension s).
  - exists (String c s). reflexivity.
  - exists t. change (String c s = String c (stripExtension s ++ t)).
    f_equal. exact IH.
Qed.

(** A text that goes on with a dot is not an extension. *)
Lemma isExtension_app_dot (s t : string) :
  isExtension (s ++ String "." t) = false.
Proof.
  induction s as [|c s IH]; simpl.
  - destruct t; reflexivity.
  - rewrite IH. destruct (s ++ String "." t)%string eqn:E.
    + destruct s; discriminate.
    + apply andb_false_r.
Qed.

Lemma stripExtension_app (stem ext : string) :
  isExtension ext = true ->
  stripExtension (stem ++ String "." ext) = stem.
Proof.
  intros Hext. induction stem as [|c stem IH]; simpl.
  - rewrite Hext. reflexivity.
  - rewrite isExtension_app_dot, andb_false_r, IH. reflexivity.
Qed.

(** X1. The label inferred for an uploaded file is never empty, and when the
    file name contains a year (20 and two digits) the label is that year
    followed by " Survey". *)
Theorem X1_label_never_empty (fileName : string) :
  inferDatasetLabel fileName <> "" /\
  (forall m, matchYear fileName = Some m ->
     inferDatasetLabel fileName = (m ++ " Survey")%string /\
     String.length (inferDatasetLabel fileName) = 11%nat).
Proof.
  unfold inferDatasetLabel. split.
  - destruct (matchYear fileName) as [m|] eqn:Em.
    + destruct m; discriminate.
    + destruct (String.eqb (stripExtension fileName) "") eqn:Eb;
        [discriminate|]. apply String.eqb_neq. exact Eb.
  - intros m Em. rewrite Em. split; [reflexivity|].
    apply matchYear_form in Em as (c & d & -> & _). reflexivity.
Qed.

(** X2. The ordering key of an uploaded dataset is decided by its file name:
    the key of the inferred label is the key of the file name itself, that
    is the year in the name when there is one (from 2000 to 2099) and 1000
    plus the position otherwise. *)
Theorem X2_label_keeps_order_key (fileName : string) (fallbackIndex : nat) :
  extractYearOrOrder (inferDatasetLabel fileName) fallbackIndex
    = extractYearOrOrder fileName fallbackIndex /\
  (matchYear fileName <> None ->
     2000 <= extractYearOrOrder (inferDatasetLabel fileName) fallbackIndex <= 2099) /\
  (matchYear fileName = None ->
     extractYearOrOrder (inferDatasetLabel fileName) fallbackIndex
       = 1000 + Z.of_nat fallbackIndex).
Proof.
  assert (Heq : extractYearOrOrder (inferDatasetLabel fileName) fallbackIndex
                = extractYearOrOrder fileName fallbackIndex).
  { unfold extractYearOrOrder at 2. unfold inferDatasetLabel.
    destruct (matchYear fileName) as [m|] eqn:Em.
    - destruct (matchYear_form fileName m Em) as (c & d & Hm & Hc & Hd).
      unfold extractYearOrOrder.
      rewrite (matchYear_year_label m c d Hm Hc Hd). reflexivity.
    - unfold extractYearOrOrder.
      destruct (String.eqb (stripExtension fileName) ""); [reflexivity|].
      destruct (stripExtension_prefix fileName) as [t Ht].
      rewrite Ht in Em. apply matchYear_prefix_None in Em.
      rewrite Em. reflexivity. }
  split; [exact Heq|]. rewrite Heq.
  destruct (extractYearOrOrder_cases fileName fallbackIndex)
    as [[Hy Hr]|[Hn Hk]].
  - split; [intros _; exact Hr|]. intros Hnone. contradiction.
  - split; [intros Hy; contradiction|]. intros _. exact Hk.
Qed.

(** X3. For a file name without a year, the label is the name without its
    extension: what follows the last dot is dropped when it is not empty
    and has no slash, also when the stem itself contains dots; a name that
    is nothing but an extension gets the label "Uploaded Survey". *)
Theorem X3_label_drops_extension (stem ext : string) :
  isExtension ext = true ->
  matchYear (stem ++ String "." ext) = None ->
  inferDatasetLabel (stem ++ String "." ext) =
    (if String.eqb stem "" then "Uploaded Survey" else stem).
Proof.
  intros Hext Hnone. unfold inferDatasetLabel.
  rewrite Hnone, (stripExtension_app stem ext Hext). reflexivity.
Qed.

End LabelFacts.

(** *** Scores, means and rows without answers *)

Section ScoreFacts.
Context `{Runtime}.
Local Open Scope Q_scope.

Lemma find_indexScore rows (k : IndexKey) (l : list IndexConfig.t) :
  List.find (fun s => bool_decide (IndexScore.key s = k))
            (map (indexScore rows) l) =
  option_map (indexScore rows)
             (List.find (fun i => bool_decide (IndexConfig.key i = k)) l).
Proof.
  induction l as [|idx l IH]; [reflexivity|].
  simpl. destruct (bool_decide (IndexConfig.key idx = k)); [reflexivity|].
  exact IH.
Qed.

Lemma trendIndexConfig_found (k : IndexKey) :
  exists cfg, trendIndexConfig k = Some cfg /\ IndexConfig.key cfg = k /\
              cfg ∈ INDEXES.
Proof.
  unfold trendIndexConfig.
  destruct k; eexists; (split; [reflexivity|]); (split; [reflexivity|]);
    unfold INDEXES; repeat (first [apply list_elem_of_here
                                  |apply list_elem_of_further]).
Qed.

(** X4. Whatever the rows, [computeIndexScores] returns one score per index,
    in the order of the catalog, so that looking a score up by key always
    finds it, and it is the score of the catalog entry with that key; the
    configuration of the selected trend index is always found as well. *)
Theorem X4_one_score_per_index (rows : list RawRow) (k : IndexKey) :
  map IndexScore.key (computeIndexScores rows) = catalogKeys /\
  NoDup catalogKeys /\
  exists cfg sc,
    trendIndexConfig k = Some cfg /\ IndexConfig.key cfg = k /\
    List.find (fun s => bool_decide (IndexScore.key s = k))
              (computeIndexScores rows) = Some sc /\
    sc = indexScore rows cfg /\
    IndexScore.key sc = k /\
    IndexScore.label sc = IndexConfig.label cfg /\
    IndexScore.color sc = IndexConfig.color cfg.
Proof.
  split; [reflexivity|]. split.
  - unfold catalogKeys.
    repeat (apply NoDup_cons_2;
            [intros Hin;
             repeat (apply elem_of_cons in Hin as [Hin|Hin]; [discriminate|]);
             inversion Hin|]).
    apply NoDup_nil_2.
  - destruct (trendIndexConfig_found k) as (cfg & Hcfg & Hkey & _).
    exists cfg, (indexScore rows cfg).
    split; [exact Hcfg|]. split; [exact Hkey|]. split.
    + unfold computeIndexScores. rewrite find_indexScore.
      unfold trendIndexConfig in Hcfg. rewrite Hcfg. reflexivity.
    + split; [reflexivity|]. split; [exact Hkey|]. split; reflexivity.
Qed.

(** An index has data when one of its questions has. *)
Lemma indexMean_onScale (qs : list QuestionStat.t) :
  JS.isArray qs ->
  Forall (fun st => zeroOrOnScale (QuestionStat.mean st)) qs ->
  (exists st, st ∈ qs /\ onScale (QuestionStat.mean st)) ->
  onScale (indexMean qs).
Proof.
  intros Harr Hqs (st & Hst & Hon). unfold indexMean.
  pose proof (validMeans_onScale qs Hqs) as Hvalid.
  pose proof (validMeans_isArray qs Harr) as Hlen.
  assert (Hin : QuestionStat.mean st
                  ∈ filter (fun m => JS.gt m (Num 0) = true)
                           (map QuestionStat.mean qs)).
  { apply list_elem_of_filter. split; [apply onScale_positive; exact Hon|].
    apply list_elem_of_In, in_map, list_elem_of_In. exact Hst. }
  destruct (filter _ (map QuestionStat.mean qs)) as [|m ms] eqn:Ev;
    [inversion Hin|].
  apply (meanOf_onScale (m :: ms)); [exact Hvalid|discriminate|exact Hlen].
Qed.

Lemma onScale_not_zero (x : number) : onScale x -> x <> Num 0.
Proof. intros (q & -> & Hq & _) [= ->]. lra. Qed.

(** X5. On an array of rows, every index score is either the sentinel 0 or
    a number from 1 to 5, and it is 0 exactly when no question of the index
    has a valid answer from an eligible row; in particular all scores are 0
    when there is no row. *)
Theorem X5_index_score_range (rows : list RawRow) (idx : IndexConfig.t) :
  JS.isArray rows -> JS.isArray (IndexConfig.questions idx) ->
  zeroOrOnScale (IndexScore.mean (indexScore rows idx)) /\
  (IndexScore.mean (indexScore rows idx) = Num 0 <->
   forall q, q ∈ IndexConfig.questions idx ->
             responses (IndexConfig.rowFilter idx) q rows = []) /\
  Forall (fun sc => zeroOrOnScale (IndexScore.mean sc)) (computeIndexScores rows) /\
  Forall (fun sc => IndexScore.mean sc = Num 0) (computeIndexScores []).
Proof.
  intros Hrows Hquestions.
  pose proof (computeQuestionMeans_zeroOrOnScale rows
                (IndexConfig.questions idx) (IndexConfig.rowFilter idx) Hrows)
    as Hqs.
  pose proof (computeQuestionMeans_isArray rows (IndexConfig.questions idx)
                (IndexConfig.rowFilter idx) Hquestions) as Hlen.
  split; [apply indexScore_zeroOrOnScale; assumption|]. split; [|split].
  - simpl. split.
    + intros H0 q Hq.
      destruct (responses (IndexConfig.rowFilter idx) q rows) as [|r rs] eqn:Er;
        [reflexivity|].
      exfalso.
      assert (Hon : onScale (indexMean
                (computeQuestionMeans rows (IndexConfig.questions idx)
                   (IndexConfig.rowFilter idx)))).
      { apply (indexMean_onScale _ Hlen Hqs).
        exists (questionMean rows (IndexConfig.rowFilter idx) q). split.
        - unfold computeQuestionMeans.
          apply list_elem_of_In, in_map, list_elem_of_In. exact Hq.
        - destruct (questionMean_data rows (IndexConfig.rowFilter idx) q Hrows)
            as (m & Hm & Hb); [rewrite Er; discriminate|].
          exists m. auto. }
      exact (onScale_not_zero _ Hon H0).
    + intros Hnone. unfold indexMean.
      assert (Hmeans : Forall (fun m => m = Num 0)
                (map QuestionStat.mean
                   (computeQuestionMeans rows (IndexConfig.questions idx)
                      (IndexConfig.rowFilter idx)))).
      { apply Forall_forall. intros m Hm.
        apply list_elem_of_In, in_map_iff in Hm as (st & <- & Hst).
        unfold computeQuestionMeans in Hst.
        apply in_map_iff in Hst as (q & <- & Hq).
        apply questionMean_no_data, Hnone, list_elem_of_In, Hq. }
      induction Hmeans as [|m ms -> _ IH]; [reflexivity|].
      rewrite filter_cons. simpl. exact IH.
  - apply computeIndexScores_zeroOrOnScale. exact Hrows.
  - repeat constructor.
Qed.

(** X6. On an array of rows the mean of a question is 0 when no eligible
    row has a valid answer to it, and otherwise the mean of the valid
    answers of the eligible rows (each a number from 1 to 5) as binary64
    arithmetic computes it: a number from 1 to 5 within 2^(-18) of their
    arithmetic mean, and, when the answers are whole numbers, their
    arithmetic mean rounded once to binary64. *)
Theorem X6_question_mean_is_average (rows : list RawRow)
    (rowFilter : option (RawRow -> bool)) (q : string) :
  JS.isArray rows ->
  let mean := QuestionStat.mean (questionMean rows rowFilter q) in
  exists vals : list Q,
    responses rowFilter q rows = map Num vals /\
    Forall (fun v => 1 <= v <= 5) vals /\
    (vals = [] -> mean = Num 0) /\
    (vals <> [] ->
     mean = meanOf (map Num vals) /\
     (exists m : Q, mean = Num m /\ 1 <= m <= 5 /\
                    Qabs (m - Qmean vals) <= 1 # 262144) /\
     (Forall (fun v => exists k : Z, v == inject_Z k) vals ->
      mean = JS.ofQ (Qmean vals))).
Proof.
  intros Harr mean.
  destruct (onScale_values _ (responses_onScale rowFilter q rows))
    as (vals & Hr & Hvals).
  exists vals. split; [exact Hr|]. split; [exact Hvals|].
  assert (Hlen : JS.isArray vals).
  { apply (isArray_shorter rows); [|exact Harr].
    rewrite <- (length_map Num vals), <- Hr. apply responses_length. }
  assert (Hmean : mean = match vals with
                         | [] => Num 0
                         | _ => meanOf (map Num vals)
                         end).
  { unfold mean. rewrite (questionMean_meanOf rows rowFilter q Harr), Hr.
    destruct vals; reflexivity. }
  split.
  - intros ->. exact Hmean.
  - intros Hne.
    assert (Hm : mean = meanOf (map Num vals))
      by (rewrite Hmean; destruct vals; [congruence|reflexivity]).
    split; [exact Hm|]. split.
    + destruct (meanOf_spec vals Hvals Hne Hlen) as (m & Hm' & Hb & Herr).
      exists m. rewrite Hm. auto.
    + intros Hwhole. rewrite Hm. apply meanOf_whole; [|exact Hne|exact Hlen].
      apply Forall_and. auto.
Qed.

(** X7. A row that has no valid answer to a question (the column is
    missing, or the cell is null, undefined, blank or not a number from 1
    to 5), or that the eligibility predicate rejects, can be added or
    removed anywhere without changing the mean of that question; an
    eligible row with a valid answer adds that answer at its place among
    the answers that are averaged. *)
Theorem X7_unanswered_row_is_ignored (pre post : list RawRow) (row : RawRow)
    (rowFilter : option (RawRow -> bool)) (q : string) :
  (toLikert (get row q) = None \/ eligible rowFilter row = false ->
   questionMean (pre ++ row :: post) rowFilter q
     = questionMean (pre ++ post) rowFilter q) /\
  (row !! q = None -> toLikert (get row q) = None) /\
  (forall n, toLikert (get row q) = Some n -> eligible rowFilter row = true ->
     responses rowFilter q (pre ++ row :: post) =
     (responses rowFilter q pre ++ n :: responses rowFilter q post)%list).
Proof.
  split; [|split].
  - intros Hnone. apply questionMean_responses. rewrite !responses_app.
    f_equal. unfold responses at 1. simpl.
    destruct Hnone as [-> | ->]; [|reflexivity].
    destruct (eligible rowFilter row); reflexivity.
  - intros Hmiss. unfold get. rewrite Hmiss. reflexivity.
  - intros n Hn Hel. rewrite responses_app. f_equal.
    unfold responses at 1. simpl. rewrite Hel, Hn. reflexivity.
Qed.

End ScoreFacts.

(** *** White space around a cell *)

Section WhiteSpaceFacts.
Context `{Runtime}.

Lemma trimStart_white_app (w s : string) :
  allWhite w = true -> Str.trimStart (w ++ s) = Str.trimStart s.
Proof.
  induction w as [|c w IH]; simpl; [reflexivity|].
  intros Hw. apply andb_true_iff in Hw as [Hc Hw].
  rewrite Hc. exact (IH Hw).
Qed.

Lemma trimStart_white (w : string) : allWhite w = true -> Str.trimStart w = "".
Proof.
  induction w as [|c w IH]; simpl; [reflexivity|].
  intros Hw. apply andb_true_iff in Hw as [Hc Hw].
  rewrite Hc. exact (IH Hw).
Qed.

Lemma trimEnd_white (w : string) : allWhite w = true -> Str.trimEnd w = "".
Proof.
  induction w as [|c w IH]; simpl; [reflexivity|].
  intros Hw. apply andb_true_iff in Hw as [Hc Hw].
  rewrite (IH Hw), Hc. reflexivity.
Qed.

Lemma trimEnd_app_white (s w : string) :
  allWhite w = true -> Str.trimEnd (s ++ w) = Str.trimEnd s.
Proof.
  intros Hw. induction s as [|c s IH]; simpl.
  - apply trimEnd_white. exact Hw.
  - rewrite IH. reflexivity.
Qed.

Lemma trimStart_app_white (s w : string) :
  allWhite w = true ->
  Str.trimEnd (Str.trimStart (s ++ w)) = Str.trimEnd (Str.trimStart s).
Proof.
  intros Hw. induction s as [|c s IH]; simpl.
  - change (Str.trimEnd (Str.trimStart w) = "").
    rewrite (trimStart_white w Hw). reflexivity.
  - destruct (Str.isWhite c); [exact IH|].
    change (String c (s ++ w)) with (String c s ++ w)%string.
    apply trimEnd_app_white. exact Hw.
Qed.

(** White space before and after a text does not change its trimmed form. *)
Lemma trim_white_around (w1 s w2 : string) :
  allWhite w1 = true -> allWhite w2 = true ->
  Str.trim (w1 ++ s ++ w2) = Str.trim s.
Proof.
  intros H1 H2. unfold Str.trim.
  rewrite (trimStart_white_app w1 (s ++ w2) H1).
  apply trimStart_app_white. exact H2.
Qed.

(** X8. White space around the text of a cell is ignored: an answer, a
    building name or any other cell text padded with blanks, tabs or line
    ends is read like the bare text, and a cell of white space only is no
    answer and no building. *)
Theorem X8_white_space_is_ignored (w1 s w2 col : string) (r : RawRow) :
  allWhite w1 = true -> allWhite w2 = true ->
  toLikert (VString (w1 ++ s ++ w2)) = toLikert (VString s) /\
  cellText col (<[col := VString (w1 ++ s ++ w2)]> r)
    = cellText col (<[col := VString s]> r) /\
  toLikert (VString w1) = None /\
  cellText col (<[col := VString w1]> r) = "".
Proof.
  intros H1 H2.
  assert (Hw : Str.trim w1 = "").
  { unfold Str.trim. rewrite (trimStart_white w1 H1). reflexivity. }
  split; [|split; [|split]].
  - unfold toLikert. simpl JSString.
    rewrite (trim_white_around w1 s w2 H1 H2). reflexivity.
  - unfold cellText, get. rewrite !lookup_insert_eq. simpl.
    apply trim_white_around; assumption.
  - unfold toLikert. simpl JSString. rewrite Hw. reflexivity.
  - unfold cellText, get. rewrite lookup_insert_eq. simpl. exact Hw.
Qed.

End WhiteSpaceFacts.

(** *** The hall filter as an operation on row lists *)

Section HallFilterFacts.
Context `{Runtime}.

(** X9. The hall filter keeps rows of the list in their order and nothing
    else; with a target other than "ALL" every row kept has that building;
    the filter goes through concatenation; and filtering by one hall and
    then by another one leaves nothing. *)
Theorem X9_hall_filter_selects (rows rows' : list RawRow) (h1 h2 : string) :
  sublist (filterRowsByHall rows h1) rows /\
  (h1 <> "ALL" -> forall r, r ∈ filterRowsByHall rows h1 <->
                            r ∈ rows /\ buildingOf r = h1) /\
  filterRowsByHall (rows ++ rows') h1
    = (filterRowsByHall rows h1 ++ filterRowsByHall rows' h1)%list /\
  (h1 <> "ALL" -> h2 <> "ALL" -> h1 <> h2 ->
   filterRowsByHall (filterRowsByHall rows h1) h2 = []).
Proof.
  split; [|split; [|split]].
  - rewrite filterRowsByHall_passes. apply sublist_filter.
  - intros Hne r. rewrite (filterRowsByHall_other rows h1 Hne).
    rewrite list_elem_of_filter. tauto.
  - rewrite !filterRowsByHall_passes. apply filter_app.
  - intros Hn1 Hn2 Hne.
    rewrite (filterRowsByHall_other _ h2 Hn2), (filterRowsByHall_other _ h1 Hn1).
    apply filter_none. intros r Hr Hb.
    apply list_elem_of_filter in Hr as [Hb1 _]. congruence.
Qed.

End HallFilterFacts.

(** *** The hall options *)

Section HallOptionFacts.
Context `{Runtime}.

Lemma ascii_compare_refl (a : ascii) : Ascii.compare a a = Eq.
Proof. unfold Ascii.compare. apply N.compare_refl. Qed.

Lemma ascii_compare_Lt_trans (a b c : ascii) :
  Ascii.compare a b = Lt -> Ascii.compare b c = Lt -> Ascii.compare a c = Lt.
Proof.
  unfold Ascii.compare. rewrite !N.compare_lt_iff. apply N.lt_trans.
Qed.

Lemma string_compare_Lt_trans (s1 s2 s3 : string) :
  String.compare s1 s2 = Lt -> String.compare s2 s3 = Lt ->
  String.compare s1 s3 = Lt.
Proof.
  revert s2 s3. induction s1 as [|a s1 IH]; intros [|b s2] [|c s3]; simpl;
    try discriminate; try reflexivity.
  destruct (Ascii.compare a b) eqn:Eab; try discriminate;
    destruct (Ascii.compare b c) eqn:Ebc; try discriminate; intros H12 H23.
  - apply Ascii.compare_eq_iff in Eab, Ebc. subst b c.
    rewrite ascii_compare_refl. exact (IH _ _ H12 H23).
  - apply Ascii.compare_eq_iff in Eab. subst b. rewrite Ebc. reflexivity.
  - apply Ascii.compare_eq_iff in Ebc. subst c. rewrite Eab. reflexivity.
  - rewrite (ascii_compare_Lt_trans a b c Eab Ebc). reflexivity.
Qed.

Lemma string_leb_trans (s1 s2 s3 : string) :
  String.leb s1 s2 = true -> String.leb s2 s3 = true -> String.leb s1 s3 = true.
Proof.
  unfold String.leb.
  destruct (String.compare s1 s2) eqn:E12; try discriminate;
    destruct (String.compare s2 s3) eqn:E23; try discriminate; intros _ _.
  - apply String.compare_eq_iff in E12. subst s2. rewrite E23. reflexivity.
  - apply String.compare_eq_iff in E12. subst s2. rewrite E23. reflexivity.
  - apply String.compare_eq_iff in E23. subst s3. rewrite E12. reflexivity.
  - rewrite (string_compare_Lt_trans s1 s2 s3 E12 E23). reflexivity.
Qed.

Lemma insertString_perm (x : string) (l : list string) :
  Permutation (insertString x l) (x :: l).
Proof.
  induction l as [|y l IH]; simpl; [reflexivity|].
  destruct (String.leb x y); [reflexivity|].
  rewrite IH. apply perm_swap.
Qed.

Lemma sortStrings_perm (l : list string) : Permutation (sortStrings l) l.
Proof.
  induction l as [|x l IH]; simpl; [reflexivity|].
  rewrite insertString_perm, IH. reflexivity.
Qed.

Lemma insertString_sorted (x : string) (l : list string) :
  StronglySorted lebString l -> StronglySorted lebString (insertString x l).
Proof.
  induction 1 as [|y l Hl IH Hy]; simpl.
  - repeat constructor.
  - destruct (String.leb x y) eqn:E.
    + constructor; [constructor; assumption|].
      constructor; [exact E|].
      eapply Forall_impl; [exact Hy|]. intros z Hz.
      exact (string_leb_trans x y z E Hz).
    + constructor; [exact IH|].
      rewrite (insertString_perm x l). constructor; [|exact Hy].
      destruct (String.leb_total x y) as [Hxy|Hyx]; [congruence|exact Hyx].
Qed.

Lemma sortStrings_sorted (l : list string) :
  StronglySorted lebString (sortStrings l).
Proof.
  induction l as [|x l IH]; simpl; [constructor|].
  apply insertString_sorted. exact IH.
Qed.

Lemma setAdd_elem (v x : string) (halls : list string) :
  x ∈ setAdd v halls <-> x ∈ halls \/ x = v.
Proof.
  unfold setAdd. destruct (bool_decide (v ∈ halls)) eqn:E.
  - apply bool_decide_eq_true in E. split; [auto|].
    intros [Hx| ->]; assumption.
  - rewrite elem_of_app, list_elem_of_singleton. tauto.
Qed.

Lemma setAdd_NoDup (v : string) (halls : list string) :
  NoDup halls -> NoDup (setAdd v halls).
Proof.
  intros Hnd. unfold setAdd. destruct (bool_decide (v ∈ halls)) eqn:E;
    [exact Hnd|].
  apply bool_decide_eq_false in E. apply NoDup_app. split; [exact Hnd|].
  split; [|apply NoDup_singleton].
  intros x Hx Hxv. apply list_elem_of_singleton in Hxv. subst x. contradiction.
Qed.

(** The halls collected from the rows of one dataset. *)
Lemma collect_rows (rows : list RawRow) (halls : list string) :
  let res :=
    foldl (fun halls r =>
             let v := buildingOf r in
             if String.eqb v "" then halls else setAdd v halls)
          halls rows in
  (NoDup halls -> NoDup res) /\
  forall x, x ∈ res <->
            x ∈ halls \/ (x <> "" /\ exists r, r ∈ rows /\ buildingOf r = x).
Proof.
  revert halls. induction rows as [|r rows IH]; intros halls; simpl.
  - split; [auto|]. intros x. split; [auto|].
    intros [Hx|(_ & r & Hr & _)]; [exact Hx|inversion Hr].
  - destruct (String.eqb (buildingOf r) "") eqn:Eb.
    + apply String.eqb_eq in Eb. destruct (IH halls) as [Hnd Hmem].
      split; [exact Hnd|]. intros x. rewrite Hmem. split.
      * intros [Hx|(Hne & r' & Hr' & Hb)]; [auto|].
        right. split; [exact Hne|]. exists r'. split; [right; exact Hr'|exact Hb].
      * intros [Hx|(Hne & r' & Hr' & Hb)]; [auto|].
        apply elem_of_cons in Hr' as [->|Hr']; [congruence|].
        right. split; [exact Hne|]. exists r'. auto.
    + apply String.eqb_neq in Eb.
      destruct (IH (setAdd (buildingOf r) halls)) as [Hnd Hmem].
      split; [intros Hh; apply Hnd, setAdd_NoDup, Hh|].
      intros x. rewrite Hmem, setAdd_elem. split.
      * intros [[Hx| ->]|(Hne & r' & Hr' & Hb)]; [auto| |].
        -- right. split; [exact Eb|]. exists r. split; [left|reflexivity].
        -- right. split; [exact Hne|]. exists r'.
           split; [right; exact Hr'|exact Hb].
      * intros [Hx|(Hne & r' & Hr' & Hb)]; [auto|].
        apply elem_of_cons in Hr' as [->|Hr']; [auto|].
        right. split; [exact Hne|]. exists r'. auto.
Qed.

(** The halls collected from all the datasets. *)
Lemma collect_datasets (datasets : list Dataset.t) (halls : list string) :
  let res :=
    foldl (fun halls ds =>
             foldl (fun halls r =>
                      let v := buildingOf r in
                      if String.eqb v "" then halls else setAdd v halls)
                   halls (Dataset.rows ds))
          halls datasets in
  (NoDup halls -> NoDup res) /\
  forall x, x ∈ res <->
            x ∈ halls \/
            (x <> "" /\ exists ds r, ds ∈ datasets /\ r ∈ Dataset.rows ds
                                     /\ buildingOf r = x).
Proof.
  revert halls. induction datasets as [|ds datasets IH]; intros halls; simpl.
  - split; [auto|]. intros x. split; [auto|].
    intros [Hx|(_ & ds & r & Hds & _)]; [exact Hx|inversion Hds].
  - destruct (collect_rows (Dataset.rows ds) halls) as [Hnd1 Hmem1].
    cbv zeta in Hnd1, Hmem1.
    match goal with |- context [foldl _ (foldl ?f halls (Dataset.rows ds)) datasets] =>
      destruct (IH (foldl f halls (Dataset.rows ds))) as [Hnd Hmem] end.
    cbv zeta in Hnd, Hmem.
    split; [intros Hh; apply Hnd, Hnd1, Hh|].
    intros x. rewrite Hmem, Hmem1. split.
    + intros [[Hx|(Hne & r & Hr & Hb)]|(Hne & ds' & r & Hds' & Hr & Hb)]; [auto| |].
      * right. split; [exact Hne|]. exists ds, r. split; [left|auto].
      * right. split; [exact Hne|]. exists ds', r. split; [right; exact Hds'|auto].
    + intros [Hx|(Hne & ds' & r & Hds' & Hr & Hb)]; [auto|].
      apply elem_of_cons in Hds' as [->|Hds'].
      * left. right. split; [exact Hne|]. exists r. auto.
      * right. split; [exact Hne|]. exists ds', r. auto.
Qed.

(** X10. The hall options are exactly the building names (trimmed, not
    empty) that occur in some row of some dataset, each once, in ascending
    order of their code units; so every option other than "ALL" selects at
    least one row of some dataset. *)
Theorem X10_hall_options (datasets : list Dataset.t) :
  let options := hallOptions datasets in
  NoDup options /\
  StronglySorted lebString options /\
  (forall h, h ∈ options <->
     h <> "" /\ exists ds r, ds ∈ datasets /\ r ∈ Dataset.rows ds
                             /\ buildingOf r = h) /\
  (forall h, h ∈ options -> h <> "ALL" ->
     exists ds, ds ∈ datasets /\ filterRowsByHall (Dataset.rows ds) h <> []).
Proof.
  intros options. unfold options, hallOptions.
  destruct (collect_datasets datasets []) as [Hnd Hmem]. cbv zeta in Hnd, Hmem.
  assert (Hin : forall h,
    h ∈ sortStrings
          (foldl (fun halls ds =>
                    foldl (fun halls r =>
                             let v := buildingOf r in
                             if String.eqb v "" then halls else setAdd v halls)
                          halls (Dataset.rows ds)) [] datasets) <->
    h <> "" /\ exists ds r, ds ∈ datasets /\ r ∈ Dataset.rows ds
                            /\ buildingOf r = h).
  { intros h. rewrite (sortStrings_perm _), Hmem. split.
    - intros [Hh|Hh]; [inversion Hh|exact Hh].
    - auto. }
  split; [|split; [|split]].
  - rewrite (sortStrings_perm _). apply Hnd. apply NoDup_nil_2.
  - apply sortStrings_sorted.
  - exact Hin.
  - intros h Hh Hall. apply Hin in Hh as (_ & ds & r & Hds & Hr & Hb).
    exists ds. split; [exact Hds|].
    rewrite (filterRowsByHall_other _ h Hall). intros Hnil.
    assert (Hrin : r ∈ filter (fun r => buildingOf r = h) (Dataset.rows ds)).
    { apply list_elem_of_filter. auto. }
    rewrite Hnil in Hrin. inversion Hrin.
Qed.

Lemma hallOptions_spec (datasets : list Dataset.t) :
  NoDup (hallOptions datasets) /\
  forall h, h ∈ hallOptions datasets <->
    h <> "" /\ exists ds r, ds ∈ datasets /\ r ∈ Dataset.rows ds
                            /\ buildingOf r = h.
Proof.
  unfold hallOptions.
  destruct (collect_datasets datasets []) as [Hnd Hmem]. cbv zeta in Hnd, Hmem.
  split.
  - rewrite (sortStrings_perm _). apply Hnd. apply NoDup_nil_2.
  - intros h. rewrite (sortStrings_perm _), Hmem. split.
    + intros [Hh|Hh]; [inversion Hh|exact Hh].
    + auto.
Qed.

Lemma length_filter_disjoint {A : Type} (P Q : A -> Prop)
    `{forall x, Decision (P x)} `{forall x, Decision (Q x)} (l : list A) :
  (forall x, P x -> Q x -> False) ->
  length (filter (fun x => P x \/ Q x) l)
    = (length (filter P l) + length (filter Q l))%nat.
Proof.
  intros Hdis. induction l as [|x l IH]; [reflexivity|].
  rewrite !filter_cons.
  destruct (decide (P x)) as [Hp|Hp]; destruct (decide (Q x)) as [Hq|Hq].
  - exfalso. exact (Hdis x Hp Hq).
  - rewrite decide_True by (left; exact Hp). simpl. rewrite IH. reflexivity.
  - rewrite decide_True by (right; exact Hq). simpl. rewrite IH. lia.
  - rewrite decide_False by tauto. exact IH.
Qed.

Lemma filter_all {A : Type} (P : A -> Prop) `{forall x, Decision (P x)}
    (l : list A) :
  (forall x, x ∈ l -> P x) -> filter P l = l.
Proof.
  induction l as [|x l IH]; intros Hall; [reflexivity|].
  rewrite filter_cons, decide_True by (apply Hall; left).
  f_equal. apply IH. intros y Hy. apply Hall. right. exact Hy.
Qed.

(** Counting the elements by key, for keys that are all different. *)
Lemma length_by_key {A : Type} (f : A -> string) (keys : list string)
    (l : list A) :
  NoDup keys ->
  length (filter (fun x => f x ∈ keys) l)
    = sum_list (map (fun k => length (filter (fun x => f x = k) l)) keys).
Proof.
  induction keys as [|k keys IH]; intros Hnd.
  - simpl. rewrite (filter_none (fun x => f x ∈ [])); [reflexivity|].
    intros x _ Hx. inversion Hx.
  - apply NoDup_cons in Hnd as [Hk Hnd]. simpl. rewrite <- (IH Hnd).
    rewrite <- (length_filter_disjoint (fun x => f x = k)
                  (fun x => f x ∈ keys) l).
    + f_equal. apply list_filter_iff. intros x. apply elem_of_cons.
    + intros x Hx Hin. subst k. contradiction.
Qed.

(** X22. When no building is called "ALL", the hall options split the
    responses of a dataset: the number of its rows is the number of rows
    without a building plus the sum, over the hall options, of the number
    of responses that the hall filter keeps for that option. *)
Theorem X22_hall_views_partition (datasets : list Dataset.t) (ds : Dataset.t) :
  ds ∈ datasets ->
  "ALL" ∉ hallOptions datasets ->
  length (Dataset.rows ds) =
  (length (filter (fun r => buildingOf r = "") (Dataset.rows ds))
   + sum_list (map (fun h => totalResponses
                               (filterRowsByHall (Dataset.rows ds) h))
                   (hallOptions datasets)))%nat.
Proof.
  intros Hds Hall.
  destruct (hallOptions_spec datasets) as [Hnd Hmem].
  set (rows := Dataset.rows ds). set (options := hallOptions datasets) in *.
  assert (Hmap : map (fun h => totalResponses (filterRowsByHall rows h)) options
                 = map (fun k => length (filter (fun r => buildingOf r = k) rows))
                       options).
  { apply map_ext_in. intros h Hh. apply list_elem_of_In in Hh.
    unfold totalResponses. rewrite filterRowsByHall_other; [reflexivity|].
    intros ->. contradiction. }
  rewrite Hmap, <- (length_by_key buildingOf options rows Hnd).
  rewrite <- (length_filter_disjoint (fun r => buildingOf r = "")
                (fun r => buildingOf r ∈ options) rows).
  - rewrite filter_all; [reflexivity|].
    intros r Hr. destruct (decide (buildingOf r = "")) as [He|Hne]; [left; exact He|].
    right. apply Hmem. split; [exact Hne|]. exists ds, r. auto.
  - intros r He Hin. apply Hmem in Hin as [Hne _]. contradiction.
Qed.

End HallOptionFacts.

(** *** Counting rows *)

Section CountFacts.
Context `{Runtime}.
Local Open Scope Q_scope.

Lemma inheritedText_not_proto (v : string) :
  inheritedText v = None -> v <> "__proto__".
Proof. intros Hv ->. discriminate Hv. Qed.

Lemma inheritedText_not_empty (v : string) (text : string) :
  inheritedText v = Some text -> v <> "".
Proof. intros Hv ->. discriminate Hv. Qed.

Lemma append_ones_not_empty (text : string) (k : nat) :
  String.eqb (text ++ ones (S k)) "" = false.
Proof.
  apply String.eqb_neq. destruct text as [|c text]; [|discriminate].
  simpl. destruct (ones k); discriminate.
Qed.

Lemma append_ones_succ (text : string) (k : nat) :
  ((text ++ ones k) ++ "1")%string = (text ++ ones (S k))%string.
Proof.
  induction text as [|c text IH]; [reflexivity|].
  change (String c ((text ++ ones k) ++ "1") = String c (text ++ ones (S k))).
  rewrite IH. reflexivity.
Qed.

(** A counter that is a positive whole number is truthy. *)
Lemma plusOne_counter (k : nat) :
  plusOne (orZero (VNumber (JS.ofNat (S k))))
  = VNumber (JS.add (JS.ofNat (S k)) (Num 1)).
Proof. reflexivity. Qed.

Lemma countBy_snoc col rows r :
  countBy col (rows ++ [r]) =
  let counts := countBy col rows in
  let v := cellText col r in
  if String.eqb v "" then counts
  else setProperty v (nextCount counts v) counts.
Proof. unfold countBy. rewrite foldl_app. reflexivity. Qed.

(** A text that no row has gets no counter. *)
Lemma countBy_absent (col : string) (rows : list RawRow) (v : string) :
  (forall r, r ∈ rows -> cellText col r <> v) -> countBy col rows !! v = None.
Proof.
  induction rows as [|r rows IH] using rev_ind; intros Hno; [reflexivity|].
  rewrite countBy_snoc. cbv zeta.
  assert (IH' : countBy col rows !! v = None).
  { apply IH. intros r' Hr'. apply Hno. apply elem_of_app. left. exact Hr'. }
  destruct (String.eqb (cellText col r) ""); [exact IH'|].
  rewrite setProperty_lookup, bool_decide_eq_false_2; [exact IH'|].
  intros [Hv _]. revert Hv. apply Hno. apply elem_of_app. right. left.
Qed.

(** The empty text gets no counter. *)
Lemma countBy_empty (col : string) (rows : list RawRow) :
  countBy col rows !! "" = None.
Proof.
  induction rows as [|r rows IH] using rev_ind; [reflexivity|].
  rewrite countBy_snoc. cbv zeta.
  destruct (String.eqb (cellText col r) "") eqn:Eb; [exact IH|].
  apply String.eqb_neq in Eb.
  rewrite setProperty_lookup, bool_decide_eq_false_2; [exact IH|].
  intros [Hv _]. contradiction.
Qed.

(** No counter is made under [__proto__]. *)
Lemma countBy_proto (col : string) (rows : list RawRow) :
  countBy col rows !! "__proto__" = None.
Proof.
  induction rows as [|r rows IH] using rev_ind; [reflexivity|].
  rewrite countBy_snoc. cbv zeta.
  destruct (String.eqb (cellText col r) ""); [exact IH|].
  rewrite setProperty_lookup, bool_decide_eq_false_2; [exact IH|].
  intros [Hv Hne]. congruence.
Qed.

(** Under a name that [Object.prototype] does not have, the counter of a
    text is the number of rows that have it. *)
Lemma countBy_lookup (col : string) (rows : list RawRow) (v : string) :
  JS.isArray rows -> inheritedText v = None ->
  countBy col rows !! v =
  match length (filter (fun r => cellText col r = v) rows) with
  | O => None
  | S k => if String.eqb v "" then None else Some (VNumber (JS.ofNat (S k)))
  end.
Proof.
  intros Harr Hv. pose proof (inheritedText_not_proto v Hv) as Hproto.
  induction rows as [|r rows IH] using rev_ind; [reflexivity|].
  assert (Harr' : JS.isArray rows).
  { apply (isArray_shorter (rows ++ [r])); [|exact Harr].
    rewrite length_app. lia. }
  specialize (IH Harr').
  assert (Hlen : (Z.of_nat (length (filter (fun r0 => cellText col r0 = v) rows))
                  < 2 ^ 53)%Z).
  { pose proof (length_filter (fun r0 => cellText col r0 = v) rows) as Hle.
    unfold JS.isArray in Harr'. lia. }
  rewrite countBy_snoc. cbv zeta. rewrite filter_app, length_app.
  rewrite filter_cons, filter_nil.
  destruct (String.eqb (cellText col r) "") eqn:Eb.
  - apply String.eqb_eq in Eb. rewrite IH.
    destruct (decide (cellText col r = v)) as [Hv'|Hv']; simpl length.
    + assert (Hve : String.eqb v "" = true)
        by (apply String.eqb_eq; congruence).
      rewrite Nat.add_comm. simpl. rewrite Hve.
      destruct (length (filter (fun r0 => cellText col r0 = v) rows));
        reflexivity.
    + rewrite Nat.add_0_r. reflexivity.
  - apply String.eqb_neq in Eb. rewrite setProperty_lookup.
    destruct (decide (cellText col r = v)) as [Hv'|Hv']; simpl length.
    + assert (Hve : String.eqb v "" = false)
        by (apply String.eqb_neq; congruence).
      rewrite bool_decide_eq_true_2 by (split; congruence).
      rewrite Nat.add_comm. simpl. rewrite Hve.
      unfold nextCount. rewrite Hv', IH.
      destruct (length (filter (fun r0 => cellText col r0 = v) rows)) as [|k].
      * rewrite Hv. unfold plusOne.
        change (Num 0) with (JS.ofNat 0). rewrite add_one_ofNat by lia.
        reflexivity.
      * rewrite Hve, plusOne_counter, add_one_ofNat by exact Hlen.
        reflexivity.
    + rewrite bool_decide_eq_false_2 by tauto.
      rewrite IH, Nat.add_0_r. reflexivity.
Qed.

(** Under the name of a function of [Object.prototype] the counter is a
    text: the text of the function, and one digit 1 per row. *)
Lemma countBy_inherited (col : string) (rows : list RawRow) (v text : string) :
  inheritedText v = Some text -> v <> "__proto__" ->
  countBy col rows !! v =
  match length (filter (fun r => cellText col r = v) rows) with
  | O => None
  | S k => Some (VString (text ++ ones (S k)))
  end.
Proof.
  intros Hv Hproto. pose proof (inheritedText_not_empty v text Hv) as Hne.
  induction rows as [|r rows IH] using rev_ind; [reflexivity|].
  rewrite countBy_snoc. cbv zeta. rewrite filter_app, length_app.
  rewrite filter_cons, filter_nil.
  destruct (String.eqb (cellText col r) "") eqn:Eb.
  - apply String.eqb_eq in Eb. rewrite IH.
    rewrite decide_False by congruence. simpl length.
    rewrite Nat.add_0_r. reflexivity.
  - apply String.eqb_neq in Eb. rewrite setProperty_lookup.
    destruct (decide (cellText col r = v)) as [Hv'|Hv']; simpl length.
    + rewrite bool_decide_eq_true_2 by (split; congruence).
      rewrite Nat.add_comm. simpl.
      unfold nextCount. rewrite Hv', IH.
      destruct (length (filter (fun r0 => cellText col r0 = v) rows)) as [|k].
      * rewrite Hv. reflexivity.
      * unfold orZero. rewrite append_ones_not_empty. unfold plusOne.
        rewrite append_ones_succ. reflexivity.
    + rewrite bool_decide_eq_false_2 by tauto.
      rewrite IH, Nat.add_0_r. reflexivity.
Qed.

(** X11. In the building and class-year summaries of an array of rows, the
    counter of a text that [Object.prototype] has no member for is the
    number of rows whose trimmed cell is that text; a text that no row has,
    and the empty text, have no counter.  Under the name of a function of
    [Object.prototype] ("constructor", "toString", ...) the counter is not
    a number but a text, the text of that function followed by one digit 1
    per row; and under [__proto__] there is no counter at all. *)
Theorem X11_counts_are_frequencies (filteredRows : list RawRow) (v : string) :
  JS.isArray filteredRows ->
  let nb := length (filter (fun r => cellText COL_BUILDING r = v) filteredRows) in
  let ny := length (filter (fun r => cellText COL_CLASS_YEAR r = v) filteredRows) in
  (inheritedText v = None ->
   buildingCounts filteredRows !! v
     = (if bool_decide (v <> "" /\ (0 < nb)%nat)
        then Some (VNumber (JS.ofNat nb)) else None) /\
   classYearCounts filteredRows !! v
     = (if bool_decide (v <> "" /\ (0 < ny)%nat)
        then Some (VNumber (JS.ofNat ny)) else None)) /\
  (forall text, inheritedText v = Some text -> v <> "__proto__" ->
     (0 < nb)%nat ->
     buildingCounts filteredRows !! v = Some (VString (text ++ ones nb))) /\
  buildingCounts filteredRows !! "__proto__" = None /\
  buildingCounts filteredRows !! "" = None /\
  (nb = 0%nat -> buildingCounts filteredRows !! v = None) /\
  (nb <= totalResponses filteredRows)%nat.
Proof.
  intros Harr.
  assert (Hgen : forall col, inheritedText v = None ->
    countBy col filteredRows !! v =
    let n := length (filter (fun r => cellText col r = v) filteredRows) in
    if bool_decide (v <> "" /\ (0 < n)%nat)
    then Some (VNumber (JS.ofNat n)) else None).
  { intros col Hv. rewrite (countBy_lookup col filteredRows v Harr Hv). cbv zeta.
    destruct (length (filter _ filteredRows)) as [|k].
    - rewrite bool_decide_eq_false_2; [reflexivity|]. intros [_ Hk]. lia.
    - destruct (String.eqb v "") eqn:Ev.
      + apply String.eqb_eq in Ev.
        rewrite bool_decide_eq_false_2; [reflexivity|]. tauto.
      + apply String.eqb_neq in Ev.
        rewrite bool_decide_eq_true_2; [reflexivity|]. split; [exact Ev|lia]. }
  intros nb ny. split; [|split; [|split; [|split; [|split]]]].
  - intros Hv. split; apply Hgen; exact Hv.
  - intros text Hv Hproto Hpos. unfold buildingCounts.
    rewrite (countBy_inherited _ _ v text Hv Hproto). fold nb.
    destruct nb; [lia|reflexivity].
  - apply countBy_proto.
  - apply countBy_empty.
  - intros H0. apply countBy_absent. intros r Hr Hb.
    assert (Hin : r ∈ filter (fun r => cellText COL_BUILDING r = v) filteredRows)
      by (apply list_elem_of_filter; auto).
    unfold nb in H0. destruct (filter _ filteredRows); [inversion Hin|discriminate].
  - apply length_filter.
Qed.

(** X12. Under a hall filter other than "ALL" (not empty, and not a name
    that [Object.prototype] has) that keeps at least one row of an array of
    rows, the building summary has a single entry: the selected hall,
    counted as many times as there are responses in the view. *)
Theorem X12_single_hall_view (rows : list RawRow) (hallFilter : string) :
  JS.isArray rows ->
  hallFilter <> "ALL" -> hallFilter <> "" -> inheritedText hallFilter = None ->
  filterRowsByHall rows hallFilter <> [] ->
  buildingCounts (filterRowsByHall rows hallFilter)
    = {[ hallFilter :=
           VNumber
             (JS.ofNat (totalResponses (filterRowsByHall rows hallFilter))) ]}.
Proof.
  intros Harr Hall Hne Hown Hrows. apply map_eq. intros v.
  pose proof (filterRowsByHall_isArray rows hallFilter Harr) as Hkarr.
  unfold buildingCounts, totalResponses.
  rewrite (filterRowsByHall_other rows hallFilter Hall) in *.
  set (kept := filter (fun r => buildingOf r = hallFilter) rows) in *.
  assert (Hkept : forall r, r ∈ kept -> cellText COL_BUILDING r = hallFilter).
  { intros r Hr. apply list_elem_of_filter in Hr as [Hb _]. exact Hb. }
  destruct (decide (v = hallFilter)) as [->|Hv].
  - rewrite lookup_singleton_eq.
    rewrite (countBy_lookup COL_BUILDING kept hallFilter Hkarr Hown).
    replace (filter (fun r => cellText COL_BUILDING r = hallFilter) kept)
      with kept.
    + destruct kept as [|r kept']; [congruence|]. simpl length.
      rewrite (proj2 (String.eqb_neq _ _) Hne). reflexivity.
    + symmetry. apply filter_all. exact Hkept.
  - rewrite lookup_singleton_ne by congruence.
    apply countBy_absent. intros r Hr Hb. rewrite (Hkept r Hr) in Hb. congruence.
Qed.

Lemma foldl_tallyRA (rows : list RawRow) :
  JS.isArray rows ->
  foldl tallyRA (Num 0, Num 0) rows =
  (JS.ofNat (length (filter (fun r => cellText COL_RA_ASSIGNED r = "Yes") rows)),
   JS.ofNat (length (filter (fun r => cellText COL_RA_ASSIGNED r <> "") rows))).
Proof.
  intros Harr. induction rows as [|r rows IH] using rev_ind; [reflexivity|].
  assert (Harr' : JS.isArray rows).
  { apply (isArray_shorter (rows ++ [r])); [|exact Harr].
    rewrite length_app. lia. }
  pose proof (length_filter (fun r => cellText COL_RA_ASSIGNED r = "Yes") rows)
    as Hyes.
  pose proof (length_filter (fun r => cellText COL_RA_ASSIGNED r <> "") rows)
    as Htotal.
  unfold JS.isArray in Harr'.
  rewrite foldl_app, (IH Harr'), !filter_app, !length_app. cbn [foldl].
  unfold tallyRA. rewrite !filter_cons, !filter_nil.
  destruct (String.eqb (cellText COL_RA_ASSIGNED r) "") eqn:Eb.
  - apply String.eqb_eq in Eb. rewrite Eb.
    rewrite decide_False by discriminate.
    rewrite decide_False by tauto. simpl length. rewrite !Nat.add_0_r.
    reflexivity.
  - apply String.eqb_neq in Eb. rewrite (decide_True _ _ Eb).
    simpl length. rewrite !(Nat.add_comm _ 1). simpl Nat.add.
    rewrite !add_one_ofNat by lia.
    destruct (String.eqb (cellText COL_RA_ASSIGNED r) "Yes") eqn:Ey.
    + apply String.eqb_eq in Ey. rewrite (decide_True _ _ Ey). simpl length.
      rewrite Nat.add_comm. reflexivity.
    + apply String.eqb_neq in Ey. rewrite (decide_False _ _ Ey). simpl length.
      rewrite Nat.add_0_r. reflexivity.
Qed.

(** X13. On an array of rows the RA rate is the quotient, rounded to
    binary64, of the number of rows answering "Yes" (the rows eligible for
    the RA Support index) by the number of rows with any answer to the RA
    question; it lies between 0 and 1 and is 0 when no row answers; the
    percentage on the card is a whole number from 0 to 100. *)
Theorem X13_ra_yes_rate (filteredRows : list RawRow) :
  JS.isArray filteredRows ->
  let yes := length (filter (fun r => raAssigned r = true) filteredRows) in
  let total :=
    length (filter (fun r => cellText COL_RA_ASSIGNED r <> "") filteredRows) in
  (yes <= total)%nat /\
  (total = 0%nat -> raYesRate filteredRows = Num 0) /\
  ((0 < total)%nat ->
   raYesRate filteredRows
     = JS.ofQ (inject_Z (Z.of_nat yes) / inject_Z (Z.of_nat total))) /\
  (exists q : Q, raYesRate filteredRows = Num q /\ 0 <= q <= 1) /\
  (exists p : Z, raYesPercent filteredRows = JS.ofZ p /\ (0 <= p <= 100)%Z).
Proof.
  intros Harr yes total.
  assert (Hyes : yes = length (filter (fun r => cellText COL_RA_ASSIGNED r = "Yes")
                                      filteredRows)).
  { unfold yes. f_equal. apply list_filter_iff. intros r.
    unfold raAssigned, cellText. apply String.eqb_eq. }
  assert (Hle : (yes <= total)%nat).
  { rewrite Hyes. unfold total. clear.
    induction filteredRows as [|r rows IH]; [reflexivity|].
    rewrite !filter_cons.
    destruct (decide (cellText COL_RA_ASSIGNED r = "Yes")) as [Hy|Hy].
    - rewrite decide_True by (rewrite Hy; discriminate). simpl. lia.
    - destruct (decide (cellText COL_RA_ASSIGNED r <> "")); simpl; lia. }
  assert (Hrate : raYesRate filteredRows =
                  match total with
                  | O => Num 0
                  | S _ => JS.ofQ (inject_Z (Z.of_nat yes)
                                   / inject_Z (Z.of_nat total))
                  end).
  { unfold raYesRate.
    destruct (length filteredRows =? 0)%nat eqn:El.
    - apply Nat.eqb_eq in El. destruct filteredRows; [|discriminate].
      reflexivity.
    - rewrite (foldl_tallyRA filteredRows Harr). fold total. rewrite <- Hyes.
      destruct total as [|t]; [reflexivity|].
      assert (Hpos : 0 < inject_Z (Z.of_nat (S t))).
      { change 0 with (inject_Z 0). rewrite <- Zlt_Qlt. lia. }
      unfold JS.gt, JS.lt, JS.ofNat, JS.ofZ.
      rewrite (proj2 (Qltb_lt _ _) Hpos). unfold JS.div.
      rewrite (proj2 (Qzerob_neq _)) by lra. reflexivity. }
  assert (Hq : exists q : Q, raYesRate filteredRows = Num q /\ 0 <= q <= 1).
  { rewrite Hrate. destruct total as [|t] eqn:Et.
    - exists 0. split; [reflexivity|lra].
    - assert (Hpos : 0 < inject_Z (Z.of_nat (S t))).
      { change 0 with (inject_Z 0). rewrite <- Zlt_Qlt. lia. }
      assert (Hy0 : 0 <= inject_Z (Z.of_nat yes))
        by (apply inject_Z_nonneg; lia).
      assert (Hyt : inject_Z (Z.of_nat yes) <= inject_Z (Z.of_nat (S t)))
        by (rewrite <- Zle_Qle; lia).
      destruct (ofQ_between 0 1 (inject_Z (Z.of_nat yes)
                                  / inject_Z (Z.of_nat (S t))))
        as (q & Hq & _ & Hb); [lia|lia| |].
      + change (inject_Z 0) with 0. change (inject_Z 1) with 1. split.
        * apply Qle_shift_div_l; [exact Hpos|]. lra.
        * apply Qle_shift_div_r; [exact Hpos|]. lra.
      + exists q. split; [exact Hq|exact Hb]. }
  split; [exact Hle|]. split; [|split; [|split; [exact Hq|]]].
  - intros Ht. rewrite Hrate, Ht. reflexivity.
  - intros Ht. rewrite Hrate. destruct total; [lia|reflexivity].
  - destruct Hq as (q & Hq & Hb). unfold raYesPercent. rewrite Hq.
    unfold JS.mul.
    destruct (ofQ_between 0 100 (q * 100)) as (y & -> & _ & Hy); [lia|lia| |].
    { change (inject_Z 0) with 0. change (inject_Z 100) with 100. split; lra. }
    change (inject_Z 0) with 0 in Hy. change (inject_Z 100) with 100 in Hy.
    unfold mathRound. eexists. split; [reflexivity|].
    pose proof (Qfloor_le (y + (1 # 2))) as Hfl.
    pose proof (Qlt_floor (y + (1 # 2))) as Hlt.
    rewrite inject_Z_plus in Hlt. change (inject_Z 1) with 1 in Hlt.
    revert Hfl Hlt. generalize (Qfloor (y + (1 # 2))). intros n Hfl Hlt.
    split.
    + apply Z.lt_succ_r. unfold Z.succ.
      assert (Hz : inject_Z (-1) < inject_Z n).
      { change (inject_Z (-1)) with (-1). lra. }
      rewrite <- Zlt_Qlt in Hz. lia.
    + assert (Hz : inject_Z n < inject_Z 101).
      { change (inject_Z 101) with 101. lra. }
      rewrite <- Zlt_Qlt in Hz. lia.
Qed.

End CountFacts.

(** *** Samples of the open-ended answers *)

Section SampleFacts.
Context `{Runtime}.

Lemma sampleText_snoc rows r colName max :
  sampleText (rows ++ [r]) colName max =
  let vals := sampleText rows colName max in
  let v := cellText colName r in
  if negb (String.eqb v "") && (length vals <? max)%nat
     && negb (bool_decide (v ∈ vals))
  then (vals ++ [v])%list else vals.
Proof. unfold sampleText. rewrite foldl_app. reflexivity. Qed.

Lemma sampleText_invariant rows colName max :
  let vals := sampleText rows colName max in
  (length vals <= max)%nat /\
  NoDup vals /\
  (forall x, x ∈ vals ->
             x <> "" /\ exists r, r ∈ rows /\ cellText colName r = x) /\
  ((length vals < max)%nat ->
   forall r, r ∈ rows -> cellText colName r <> "" -> cellText colName r ∈ vals) /\
  sublist vals (map (cellText colName) rows).
Proof.
  induction rows as [|r rows IH] using rev_ind.
  - simpl. split; [lia|]. split; [apply NoDup_nil_2|]. split.
    + intros x Hx. inversion Hx.
    + split; [intros _ r Hr; inversion Hr|]. constructor.
  - cbv zeta in IH. destruct IH as (Hlen & Hnd & Hsound & Hfull & Hsub).
    rewrite sampleText_snoc. cbv zeta. rewrite map_app. simpl map.
    set (vals := sampleText rows colName max) in *.
    set (v := cellText colName r) in *.
    destruct (String.eqb v "") eqn:Ev; simpl negb; simpl andb.
    + apply String.eqb_eq in Ev.
      split; [exact Hlen|]. split; [exact Hnd|]. split; [|split].
      * intros x Hx. destruct (Hsound x Hx) as (Hne & r' & Hr' & Hx').
        split; [exact Hne|]. exists r'. split; [|exact Hx'].
        apply elem_of_app. left. exact Hr'.
      * intros Hlt r' Hr' Hne. apply elem_of_app in Hr' as [Hr'|Hr'].
        -- exact (Hfull Hlt r' Hr' Hne).
        -- apply list_elem_of_singleton in Hr'. subst r'. contradiction.
      * apply sublist_inserts_r. exact Hsub.
    + apply String.eqb_neq in Ev.
      destruct (length vals <? max)%nat eqn:El; simpl andb.
      * apply Nat.ltb_lt in El.
        destruct (bool_decide (v ∈ vals)) eqn:Ein; simpl negb; cbv iota.
        -- apply bool_decide_eq_true in Ein.
           split; [exact Hlen|]. split; [exact Hnd|]. split; [|split].
           ++ intros x Hx. destruct (Hsound x Hx) as (Hne & r' & Hr' & Hx').
              split; [exact Hne|]. exists r'. split; [|exact Hx'].
              apply elem_of_app. left. exact Hr'.
           ++ intros Hlt r' Hr' Hne. apply elem_of_app in Hr' as [Hr'|Hr'].
              ** exact (Hfull Hlt r' Hr' Hne).
              ** apply list_elem_of_singleton in Hr'. subst r'. exact Ein.
           ++ apply sublist_inserts_r. exact Hsub.
        -- apply bool_decide_eq_false in Ein.
           split; [rewrite length_app; simpl; lia|]. split; [|split; [|split]].
           ++ apply NoDup_app. split; [exact Hnd|].
              split; [|apply NoDup_singleton].
              intros x Hx Hxv. apply list_elem_of_singleton in Hxv.
              subst x. contradiction.
           ++ intros x Hx. apply elem_of_app in Hx as [Hx|Hx].
              ** destruct (Hsound x Hx) as (Hne & r' & Hr' & Hx').
                 split; [exact Hne|]. exists r'. split; [|exact Hx'].
                 apply elem_of_app. left. exact Hr'.
              ** apply list_elem_of_singleton in Hx. subst x.
                 split; [exact Ev|]. exists r. split; [|reflexivity].
                 apply elem_of_app. right. left.
           ++ rewrite length_app. simpl. intros Hlt r' Hr' Hne.
              apply elem_of_app. apply elem_of_app in Hr' as [Hr'|Hr'].
              ** left. apply Hfull; [lia|exact Hr'|exact Hne].
              ** apply list_elem_of_singleton in Hr'. subst r'.
                 right. left.
           ++ apply sublist_app; [exact Hsub|reflexivity].
      * apply Nat.ltb_ge in El.
        split; [exact Hlen|]. split; [exact Hnd|]. split; [|split].
        -- intros x Hx. destruct (Hsound x Hx) as (Hne & r' & Hr' & Hx').
           split; [exact Hne|]. exists r'. split; [|exact Hx'].
           apply elem_of_app. left. exact Hr'.
        -- intros Hlt. lia.
        -- apply sublist_inserts_r. exact Hsub.
Qed.

Lemma sampleText_prefix rows rows' colName max :
  sampleText rows colName max `prefix_of` sampleText (rows ++ rows') colName max.
Proof.
  induction rows' as [|r rows' IH] using rev_ind.
  - rewrite app_nil_r. reflexivity.
  - rewrite app_assoc, sampleText_snoc. cbv zeta.
    match goal with |- context [if ?c then _ else _] => destruct c end;
      [|exact IH].
    etransitivity; [exact IH|]. apply prefix_app_r. reflexivity.
Qed.

(** X14. The sample of a free-text column holds at most [max] texts, all
    different, none empty, each the trimmed cell of some row, in the order
    of their first rows; when it holds fewer than [max] texts, no text of
    the column is left out; and rows that come later never remove or
    reorder what was sampled before. *)
Theorem X14_sample_text (rows rows' : list RawRow) (colName : string)
    (max : nat) :
  let vals := sampleText rows colName max in
  (length vals <= max)%nat /\
  NoDup vals /\
  (forall x, x ∈ vals ->
             x <> "" /\ exists r, r ∈ rows /\ cellText colName r = x) /\
  ((length vals < max)%nat ->
   forall r, r ∈ rows -> cellText colName r <> "" -> cellText colName r ∈ vals) /\
  sublist vals (map (cellText colName) rows) /\
  vals `prefix_of` sampleText (rows ++ rows') colName max.
Proof.
  intros vals.
  destruct (sampleText_invariant rows colName max) as (H1 & H2 & H3 & H4 & H5).
  repeat (split; [assumption|]). apply sampleText_prefix.
Qed.

End SampleFacts.

(** *** The active dataset and its scores *)

Section ActiveFacts.
Context `{Runtime}.

Lemma find_first (a : string) (pre post : list Dataset.t) (d : Dataset.t) :
  Dataset.id d = a ->
  (forall d', d' ∈ pre -> Dataset.id d' <> a) ->
  List.find (fun d => String.eqb (Dataset.id d) a) (pre ++ d :: post) = Some d.
Proof.
  intros Hd. induction pre as [|p pre IH]; intros Hpre; simpl.
  - rewrite (proj2 (String.eqb_eq _ _) Hd). reflexivity.
  - rewrite (proj2 (String.eqb_neq _ _) (Hpre p (list_elem_of_here _ _))).
    apply IH. intros d' Hd'. apply Hpre. right. exact Hd'.
Qed.

Lemma find_none_id (a : string) (l : list Dataset.t) :
  (forall d, d ∈ l -> Dataset.id d <> a) ->
  List.find (fun d => String.eqb (Dataset.id d) a) l = None.
Proof.
  induction l as [|p l IH]; intros Hl; simpl; [reflexivity|].
  rewrite (proj2 (String.eqb_neq _ _) (Hl p (list_elem_of_here _ _))).
  apply IH. intros d' Hd'. apply Hl. right. exact Hd'.
Qed.

Lemma find_id_some (a : string) (l : list Dataset.t) (d : Dataset.t) :
  List.find (fun d => String.eqb (Dataset.id d) a) l = Some d ->
  d ∈ l /\ Dataset.id d = a.
Proof.
  intros Hf. apply find_some in Hf as [Hin Hid].
  split; [apply list_elem_of_In; exact Hin|apply String.eqb_eq; exact Hid].
Qed.

Lemma activeDataset_None datasets activeDatasetId :
  activeDataset datasets activeDatasetId = None <-> datasets = [].
Proof.
  unfold activeDataset. destruct datasets as [|first rest]; [tauto|].
  split; [|discriminate].
  destruct activeDatasetId as [a|]; [|discriminate].
  destruct (String.eqb a ""); [discriminate|].
  destruct (List.find _ (first :: rest)); discriminate.
Qed.

Lemma activeDataset_elem datasets activeDatasetId d :
  activeDataset datasets activeDatasetId = Some d -> d ∈ datasets.
Proof.
  unfold activeDataset. destruct datasets as [|first rest]; [discriminate|].
  destruct activeDatasetId as [a|].
  - destruct (String.eqb a "").
    + intros [= <-]. left.
    + destruct (List.find _ (first :: rest)) as [found|] eqn:Ef.
      * intros [= <-]. apply (find_id_some a _ found Ef).
      * intros [= <-]. left.
  - intros [= <-]. left.
Qed.

(** X15. There is an active dataset exactly when the dataset list is not
    empty, and it is always a dataset of the list: the first one with the
    active id when that id is set, not empty and present, and the first of
    the list in every other case. *)
Theorem X15_active_dataset (datasets : list Dataset.t)
    (activeDatasetId : option string) :
  (activeDataset datasets activeDatasetId = None <-> datasets = []) /\
  (forall d, activeDataset datasets activeDatasetId = Some d -> d ∈ datasets) /\
  (forall a pre d post,
      activeDatasetId = Some a -> a <> "" ->
      datasets = (pre ++ d :: post)%list -> Dataset.id d = a ->
      (forall d', d' ∈ pre -> Dataset.id d' <> a) ->
      activeDataset datasets activeDatasetId = Some d) /\
  ((activeDatasetId = None \/ activeDatasetId = Some "" \/
    forall d, d ∈ datasets -> Some (Dataset.id d) <> activeDatasetId) ->
   activeDataset datasets activeDatasetId = head datasets).
Proof.
  split; [|split; [|split]].
  - apply activeDataset_None.
  - intros d. apply activeDataset_elem.
  - intros a pre d post -> Ha -> Hd Hpre. unfold activeDataset.
    rewrite (proj2 (String.eqb_neq _ _) Ha).
    rewrite (find_first a pre post d Hd Hpre).
    destruct (pre ++ d :: post)%list eqn:E; [destruct pre; discriminate|].
    reflexivity.
  - intros Hcase. unfold activeDataset. destruct datasets as [|first rest];
      [reflexivity|].
    destruct Hcase as [->|[->|Hnone]]; [reflexivity|reflexivity|].
    destruct activeDatasetId as [a|]; [|reflexivity].
    destruct (String.eqb a ""); [reflexivity|].
    rewrite find_none_id; [reflexivity|].
    intros d Hd Hid. apply (Hnone d Hd). congruence.
Qed.

Lemma indexScoresByDataset_snoc datasets ds hallFilter :
  indexScoresByDataset (datasets ++ [ds]) hallFilter =
  <[Dataset.id ds :=
      computeIndexScores (filterRowsByHall (Dataset.rows ds) hallFilter)]>
    (indexScoresByDataset datasets hallFilter).
Proof. unfold indexScoresByDataset. rewrite foldl_app. reflexivity. Qed.

Lemma indexScoresByDataset_last pre d post hallFilter :
  (forall d', d' ∈ post -> Dataset.id d' <> Dataset.id d) ->
  indexScoresByDataset (pre ++ d :: post) hallFilter !! Dataset.id d =
  Some (computeIndexScores (filterRowsByHall (Dataset.rows d) hallFilter)).
Proof.
  induction post as [|e post IH] using rev_ind; intros Hpost.
  - rewrite indexScoresByDataset_snoc. apply lookup_insert_eq.
  - replace (pre ++ d :: post ++ [e])%list
      with ((pre ++ d :: post) ++ [e])%list
      by (rewrite <- app_assoc; reflexivity).
    rewrite indexScoresByDataset_snoc, lookup_insert_ne.
    + apply IH. intros d' Hd'. apply Hpost. apply elem_of_app. left. exact Hd'.
    + apply Hpost. apply elem_of_app. right. left.
Qed.

Lemma indexScoresByDataset_absent datasets hallFilter id :
  (forall d, d ∈ datasets -> Dataset.id d <> id) ->
  indexScoresByDataset datasets hallFilter !! id = None.
Proof.
  induction datasets as [|ds datasets IH] using rev_ind; intros Hno.
  - apply lookup_empty.
  - rewrite indexScoresByDataset_snoc, lookup_insert_ne.
    + apply IH. intros d Hd. apply Hno. apply elem_of_app. left. exact Hd.
    + apply Hno. apply elem_of_app. right. left.
Qed.

(** The last element of a list with a given image under [f]. *)
Lemma last_with {A B : Type} `{EqDecision B} (f : A -> B) (l : list A) (x : A) :
  x ∈ l ->
  exists pre d post,
    l = (pre ++ d :: post)%list /\ f d = f x /\
    forall d', d' ∈ post -> f d' <> f d.
Proof.
  induction l as [|e l IH] using rev_ind; intros Hx; [inversion Hx|].
  destruct (decide (f e = f x)) as [He|He].
  - exists l, e, []. split; [reflexivity|]. split; [exact He|].
    intros d' Hd'. inversion Hd'.
  - apply elem_of_app in Hx as [Hx|Hx].
    + destruct (IH Hx) as (pre & d & post & -> & Hd & Hpost).
      exists pre, d, (post ++ [e])%list. split.
      * rewrite <- app_assoc. reflexivity.
      * split; [exact Hd|]. intros d' Hd'.
        apply elem_of_app in Hd' as [Hd'|Hd']; [exact (Hpost d' Hd')|].
        apply list_elem_of_singleton in Hd'. subst d'. congruence.
    + apply list_elem_of_singleton in Hx. subst e. congruence.
Qed.

(** X16. The scores kept under a dataset id are those of the last dataset of
    the list with that id, computed on its rows after the hall filter; with
    pairwise different ids every dataset has its own scores, and an id that
    no dataset has is not in the map. *)
Theorem X16_scores_by_dataset_id (datasets : list Dataset.t)
    (hallFilter : string) (ds : Dataset.t) :
  ds ∈ datasets ->
  (exists pre d post,
      datasets = (pre ++ d :: post)%list /\ Dataset.id d = Dataset.id ds /\
      (forall d', d' ∈ post -> Dataset.id d' <> Dataset.id d) /\
      indexScoresByDataset datasets hallFilter !! Dataset.id ds =
        Some (computeIndexScores (filterRowsByHall (Dataset.rows d) hallFilter))) /\
  (NoDup (map Dataset.id datasets) ->
   indexScoresByDataset datasets hallFilter !! Dataset.id ds =
     Some (computeIndexScores (filterRowsByHall (Dataset.rows ds) hallFilter))) /\
  (forall id, (forall d, d ∈ datasets -> Dataset.id d <> id) ->
              indexScoresByDataset datasets hallFilter !! id = None).
Proof.
  intros Hds. split; [|split].
  - destruct (last_with Dataset.id datasets ds Hds)
      as (pre & d & post & -> & Hid & Hpost).
    exists pre, d, post. split; [reflexivity|]. split; [exact Hid|].
    split; [exact Hpost|]. rewrite <- Hid.
    apply indexScoresByDataset_last. exact Hpost.
  - intros Hnd.
    apply list_elem_of_split in Hds as (pre & post & ->).
    apply indexScoresByDataset_last. intros d' Hd' Hid.
    rewrite map_app in Hnd. simpl in Hnd.
    apply NoDup_app in Hnd as (_ & _ & Hnd).
    apply NoDup_cons in Hnd as [Hnot _]. apply Hnot.
    rewrite <- Hid. apply list_elem_of_In, in_map, list_elem_of_In. exact Hd'.
  - intros id. apply indexScoresByDataset_absent.
Qed.

(** For a dataset of the list the page always finds a score. *)
Lemma findScore_page datasets hallFilter ds (k : IndexKey) :
  rowArrays datasets ->
  ds ∈ datasets ->
  exists sc rows,
    findScore (indexScoresByDataset datasets hallFilter) ds k = Some sc /\
    indexScoresByDataset datasets hallFilter !! Dataset.id ds
      = Some (computeIndexScores rows) /\
    JS.isArray rows /\
    IndexScore.key sc = k /\ zeroOrOnScale (IndexScore.mean sc).
Proof.
  intros Harr Hds.
  destruct (last_with Dataset.id datasets ds Hds)
    as (pre & d & post & -> & Hid & Hpost).
  pose proof (indexScoresByDataset_last pre d post hallFilter Hpost) as Hl.
  rewrite Hid in Hl.
  destruct (trendIndexConfig_found k) as (cfg & Hcfg & Hkey & Hcat).
  assert (Hd : JS.isArray (Dataset.rows d)).
  { unfold rowArrays in Harr. rewrite Forall_forall in Harr. apply Harr.
    apply elem_of_app. right. left. }
  pose proof (filterRowsByHall_isArray _ hallFilter Hd) as Hrows.
  set (rows := filterRowsByHall (Dataset.rows d) hallFilter) in *.
  exists (indexScore rows cfg), rows.
  split; [|split; [exact Hl|split; [exact Hrows|split]]].
  - unfold findScore. rewrite Hl.
    change (default [] (Some (computeIndexScores rows)))
      with (map (indexScore rows) INDEXES).
    rewrite find_indexScore. unfold trendIndexConfig in Hcfg. rewrite Hcfg.
    reflexivity.
  - exact Hkey.
  - apply indexScore_zeroOrOnScale; [exact Hrows|].
    apply INDEXES_isArray. exact Hcat.
Qed.

(** X17. In the comparison views of the page, over datasets that hold
    arrays of rows, a dataset of the list always has a computed score for
    every index, so the fallback to 0 for a missing score is never taken;
    the cell of a dataset whose label is not [__proto__] is a number, the
    sentinel 0 or a number from 1 to 5; and there is no cell under
    [__proto__]. *)
Theorem X17_comparison_cells (datasets : list Dataset.t) (hallFilter : string)
    (ds : Dataset.t) (idx : IndexConfig.t) :
  rowArrays datasets ->
  ds ∈ datasets ->
  let row :=
    comparisonRow datasets (indexScoresByDataset datasets hallFilter) idx in
  (exists sc,
      findScore (indexScoresByDataset datasets hallFilter) ds
                (IndexConfig.key idx) = Some sc /\
      IndexScore.key sc = IndexConfig.key idx /\
      zeroOrOnScale (IndexScore.mean sc)) /\
  (Dataset.label ds <> "__proto__" ->
   exists x, row !! Dataset.label ds = Some (VNumber x) /\ zeroOrOnScale x) /\
  row !! "__proto__" = None.
Proof.
  intros Harr Hds row. split; [|split].
  - destruct (findScore_page datasets hallFilter ds (IndexConfig.key idx)
                Harr Hds) as (sc & _ & Hf & _ & _ & Hk & Hz).
    exists sc. auto.
  - intros Hproto.
    destruct (last_with Dataset.label datasets ds Hds)
      as (pre & d & post & Heq & Hlabel & Hpost).
    assert (Hd : d ∈ datasets).
    { rewrite Heq. apply elem_of_app. right. left. }
    destruct (findScore_page datasets hallFilter d (IndexConfig.key idx)
                Harr Hd) as (sc & _ & Hf & _ & _ & _ & Hz).
    eexists. split.
    + rewrite <- Hlabel. unfold row. rewrite Heq at 1.
      apply comparisonRow_last; [congruence|exact Hpost].
    + apply round2_zeroOrOnScale. unfold scoreOr0. rewrite Hf. exact Hz.
  - apply comparisonRow_proto.
Qed.

(** X18. The radar chart of the page has no point when there is no dataset
    and otherwise one point per index, labelled as in the catalog; over
    datasets that hold arrays of rows the score of a point is 0 or a number
    from 1 to 5, so it never exceeds the full mark 5. *)
Theorem X18_radar_points (datasets : list Dataset.t)
    (activeDatasetId : option string) (hallFilter : string) :
  rowArrays datasets ->
  let points :=
    radarData (activeIndexScores datasets activeDatasetId
                 (indexScoresByDataset datasets hallFilter)) in
  (datasets = [] -> points = []) /\
  (datasets <> [] ->
   map RadarPoint.index points = map IndexConfig.label INDEXES) /\
  Forall (fun p => zeroOrOnScale (RadarPoint.score p)
                   /\ RadarPoint.fullMark p = Num 5) points.
Proof.
  intros Harr points. unfold points, activeIndexScores.
  destruct (activeDataset datasets activeDatasetId) as [ds|] eqn:Ea.
  - pose proof (activeDataset_elem _ _ _ Ea) as Hds.
    destruct (findScore_page datasets hallFilter ds livingEnvironment Harr Hds)
      as (_ & rows & _ & -> & Hrows & _). simpl default.
    split; [intros ->; inversion Hds|]. split.
    + intros _. unfold radarData, computeIndexScores. rewrite !map_map.
      reflexivity.
    + apply Forall_forall. intros p Hp. unfold radarData in Hp.
      apply list_elem_of_In, in_map_iff in Hp as (sc & <- & Hsc). simpl.
      split; [|reflexivity]. apply round2_zeroOrOnScale.
      pose proof (computeIndexScores_zeroOrOnScale rows Hrows) as Hall.
      rewrite Forall_forall in Hall. apply Hall, list_elem_of_In, Hsc.
  - apply activeDataset_None in Ea. subst datasets. simpl.
    split; [reflexivity|]. split; [congruence|constructor].
Qed.

End ActiveFacts.

(** *** The trend series and its domain *)

Section TrendViewFacts.
Context `{Runtime}.
Local Open Scope Q_scope.

(** X19. With fewer than two datasets both comparison views are empty.
    With two or more, the trend series consists of the points whose score
    is positive, in ascending order of their keys, and points with the same
    key keep the order of their datasets. *)
Theorem X19_trend_series_is_stable_sort (datasets : list Dataset.t)
    (scoresBy : gmap string (list IndexScore.t)) (trendIndexKey : IndexKey) :
  let points :=
    filter (fun r => JS.gt (TrendPoint.score r) (Num 0) = true)
           (imap (trendPoint scoresBy trendIndexKey) datasets) in
  let series := trendLineData datasets scoresBy trendIndexKey in
  ((length datasets < 2)%nat ->
   series = [] /\ comparisonData datasets scoresBy = []) /\
  ((2 <= length datasets)%nat ->
   Permutation series points /\
   StronglySorted byOrder series /\
   forall k, filter (fun r => TrendPoint.order r = k) series =
             filter (fun r => TrendPoint.order r = k) points).
Proof.
  intros points series. split.
  - intros Hlt. unfold series, trendLineData, comparisonData.
    rewrite (proj2 (Nat.ltb_lt _ _) Hlt). split; reflexivity.
  - intros Hge. exact (trendLineData_sorted datasets scoresBy trendIndexKey Hge).
Qed.

(** X20. With at most 1000 datasets, a dataset whose label has no year
    never comes after a dataset whose label has one in the trend series. *)
Theorem X20_no_year_first_up_to_1000 (datasets : list Dataset.t)
    (scoresBy : gmap string (list IndexScore.t)) (trendIndexKey : IndexKey)
    (l1 l2 : list TrendPoint.t) (p p' : TrendPoint.t) :
  (length datasets <= 1000)%nat ->
  trendLineData datasets scoresBy trendIndexKey = (l1 ++ p :: l2)%list ->
  matchYear (TrendPoint.datasetLabel p) <> None ->
  p' ∈ l2 ->
  matchYear (TrendPoint.datasetLabel p') <> None /\
  (TrendPoint.order p <= TrendPoint.order p')%Z.
Proof.
  intros Hlen Hout Hyear Hp'. split.
  - exact (trendLineData_years_last datasets scoresBy trendIndexKey
             l1 p l2 p' Hlen Hout Hyear Hp').
  - assert (H2 : (2 <= length datasets)%nat).
    { destruct (le_lt_dec 2 (length datasets)) as [Hle|Hlt]; [exact Hle|].
      unfold trendLineData in Hout. apply Nat.ltb_lt in Hlt.
      rewrite Hlt in Hout. destruct l1; discriminate. }
    destruct (trendLineData_sorted datasets scoresBy trendIndexKey H2)
      as (_ & Hsorted & _).
    rewrite Hout in Hsorted.
    exact (StronglySorted_after byOrder l1 l2 p p' Hsorted Hp').
Qed.

(** X21. For the trend series that the page computes over datasets that
    hold arrays of rows, the Y-axis domain is an interval inside [1, 5] that
    contains every plotted score, and every plotted score is a number from
    1 to 5. *)
Theorem X21_domain_contains_scores (datasets : list Dataset.t)
    (hallFilter : string) (trendIndexKey : IndexKey) :
  rowArrays datasets ->
  let series := pageTrendLineData datasets hallFilter trendIndexKey in
  exists a b : Q,
    trendDomain series = (Num a, Num b) /\
    1 <= a /\ a <= b /\ b <= 5 /\
    forall p, p ∈ series ->
      exists s : Q, TrendPoint.score p = Num s /\ a <= s <= b.
Proof.
  intros Harr series.
  destruct (pageTrendLineData_scores datasets hallFilter trendIndexKey Harr)
    as (S & HS & Hall). fold series in HS.
  destruct series as [|p0 rest] eqn:Es.
  - exists 1, 5. split; [reflexivity|]. repeat (split; [lra|]).
    intros p Hp. inversion Hp.
  - destruct (trendDomain_finite (p0 :: rest) S HS)
      as (lo & hi & Hlo & Hlole & Hhi & Hhile & Hdom); [discriminate|].
    rewrite Forall_forall in Hall.
    destruct (padded_bounds lo hi (Hall lo Hlo) (Hall hi Hhi))
      as (a & b & Ha & Hb & Halo & Hhib & _ & _).
    pose proof (Hlole hi Hhi) as Hlohi.
    exists a, b. split; [rewrite Hdom, Ha, Hb; reflexivity|].
    split; [lra|]. split; [lra|]. split; [lra|].
    intros p Hp.
    assert (Hsc : TrendPoint.score p ∈ map TrendPoint.score (p0 :: rest)).
    { apply list_elem_of_In, in_map, list_elem_of_In. exact Hp. }
    rewrite HS in Hsc. apply list_elem_of_In, in_map_iff in Hsc as (s & Hs & Hin).
    exists s. split; [symmetry; exact Hs|].
    apply list_elem_of_In in Hin.
    pose proof (Hlole s Hin). pose proof (Hhile s Hin). lra.
Qed.

End TrendViewFacts.

(** *** The per-question breakdown *)

Section BreakdownFacts.
Context `{Runtime}.


End BreakdownFacts.

(** *** Adding and removing datasets *)

Section HandlerFacts.
Context `{Runtime}.

Lemma find_id_exists (a : string) (l : list Dataset.t) (d : Dataset.t) :
  d ∈ l -> Dataset.id d = a ->
  exists d', List.find (fun d => String.eqb (Dataset.id d) a) l = Some d'.
Proof.
  intros Hd Hid.
  destruct (List.find (fun d => String.eqb (Dataset.id d) a) l) as [d'|] eqn:Ef;
    [eauto|].
  exfalso. pose proof (find_none _ _ Ef d (proj1 (list_elem_of_In _ _) Hd)) as Hn.
  simpl in Hn. apply String.eqb_neq in Hn. contradiction.
Qed.

Lemma find_id_first (a : string) (l : list Dataset.t) (d : Dataset.t) :
  List.find (fun d => String.eqb (Dataset.id d) a) l = Some d ->
  exists pre post,
    l = (pre ++ d :: post)%list /\ Dataset.id d = a /\
    forall d', d' ∈ pre -> Dataset.id d' <> a.
Proof.
  induction l as [|e l IH]; simpl; [discriminate|].
  destruct (String.eqb (Dataset.id e) a) eqn:Ee.
  - intros [= ->]. exists [], l. split; [reflexivity|].
    split; [apply String.eqb_eq; exact Ee|]. intros d' Hd'. inversion Hd'.
  - intros Hf. destruct (IH Hf) as (pre & post & -> & Hid & Hpre).
    exists (e :: pre), post. split; [reflexivity|]. split; [exact Hid|].
    intros d' Hd'. apply elem_of_cons in Hd' as [->|Hd'].
    + apply String.eqb_neq. exact Ee.
    + exact (Hpre d' Hd').
Qed.

(** X24. When [deleteDataset] issues an update, the user has confirmed and
    the first dataset with the id is an upload; applied to any dataset list,
    the update removes every dataset with that id and keeps the others in
    their order; the active id is reset only when it is the deleted id, to
    the id of the first dataset left or to nothing. *)
Theorem X24_delete_removes_the_id (datasets prev : list Dataset.t)
    (activeDatasetId : option string) (confirmed : bool) (id : string)
    (update : list Dataset.t -> list Dataset.t * option (option string)) :
  deleteDataset datasets activeDatasetId confirmed id = Some update ->
  confirmed = true /\
  (exists pre d post,
      datasets = (pre ++ d :: post)%list /\ Dataset.id d = id /\
      Dataset.source d = Dataset.upload /\
      forall d', d' ∈ pre -> Dataset.id d' <> id) /\
  (forall d, d ∈ fst (update prev) <-> d ∈ prev /\ Dataset.id d <> id) /\
  sublist (fst (update prev)) prev /\
  (activeDatasetId <> Some id -> snd (update prev) = None) /\
  (activeDatasetId = Some id ->
   snd (update prev) = Some (Dataset.id <$> head (fst (update prev)))).
Proof.
  unfold deleteDataset.
  destruct (List.find (fun d => String.eqb (Dataset.id d) id) datasets)
    as [ds|] eqn:Ef; [|discriminate].
  destruct (Dataset.source ds) eqn:Es; [discriminate|].
  destruct confirmed; [|discriminate]. intros [= <-].
  split; [reflexivity|]. split.
  { destruct (find_id_first id datasets ds Ef) as (pre & post & Hl & Hid & Hpre).
    exists pre, ds, post. auto. }
  unfold deleteUpdate. simpl fst. simpl snd. split; [|split; [|split]].
  - intros d. rewrite list_elem_of_filter. tauto.
  - apply sublist_filter.
  - intros Hne. rewrite bool_decide_eq_false_2 by exact Hne. reflexivity.
  - intros ->. rewrite bool_decide_eq_true_2 by reflexivity.
    destruct (filter (fun d => Dataset.id d <> id) prev); reflexivity.
Qed.

(** X25. [deleteDataset] leaves everything as it is exactly when the user
    declines, when no dataset has the id, or when the first dataset with the
    id is the demo dataset. *)
Theorem X25_delete_guards (datasets : list Dataset.t)
    (activeDatasetId : option string) (confirmed : bool) (id : string) :
  deleteDataset datasets activeDatasetId confirmed id = None <->
  confirmed = false \/
  (forall d, d ∈ datasets -> Dataset.id d <> id) \/
  (exists pre d post,
      datasets = (pre ++ d :: post)%list /\ Dataset.id d = id /\
      Dataset.source d = Dataset.demo /\
      forall d', d' ∈ pre -> Dataset.id d' <> id).
Proof.
  unfold deleteDataset. split.
  - destruct (List.find (fun d => String.eqb (Dataset.id d) id) datasets)
      as [ds|] eqn:Ef.
    + destruct (find_id_first id datasets ds Ef) as (pre & post & Hl & Hid & Hpre).
      destruct (Dataset.source ds) eqn:Es.
      * intros _. right. right. exists pre, ds, post. auto.
      * destruct confirmed; [discriminate|]. auto.
    + intros _. right. left. intros d Hd Hid.
      pose proof (find_none _ _ Ef d (proj1 (list_elem_of_In _ _) Hd)) as Hn.
      simpl in Hn. apply String.eqb_neq in Hn. contradiction.
  - intros [->|[Hnone|(pre & d & post & -> & Hid & Hsrc & Hpre)]].
    + destruct (List.find _ datasets) as [ds|]; [|reflexivity].
      destruct (Dataset.source ds); reflexivity.
    + rewrite find_none_id by exact Hnone. reflexivity.
    + rewrite (find_first id pre post d Hid Hpre), Hsrc. reflexivity.
Qed.

Lemma filter_id_fresh (id : string) (l : list Dataset.t) :
  (forall d, d ∈ l -> Dataset.id d <> id) ->
  filter (fun d => Dataset.id d <> id) l = l.
Proof.
  induction l as [|e l IH]; intros Hl; [reflexivity|].
  rewrite filter_cons, decide_True by (apply Hl; left).
  f_equal. apply IH. intros d Hd. apply Hl. right. exact Hd.
Qed.

(** X26. Uploading a file appends its dataset and keeps the datasets that
    were there; the active id changes only when there was none.  When the
    id of the new dataset is fresh, deleting it (with confirmation) gives
    back the dataset list from before the upload. *)
Theorem X26_upload_then_delete (prev : list Dataset.t)
    (prevActive activeDatasetId : option string)
    (fileName : string) (now : Z) (idx : nat) (parsed : list RawRow) :
  let new := newDataset fileName now idx parsed in
  (forall d, d ∈ prev -> Dataset.id d <> Dataset.id new) ->
  prev `prefix_of` uploadDatasets new prev /\
  last (uploadDatasets new prev) = Some new /\
  Dataset.rows new = parsed /\
  Dataset.label new = inferDatasetLabel fileName /\
  (forall a, prevActive = Some a -> uploadActive new prevActive = Some a) /\
  (prevActive = None -> uploadActive new prevActive = Some (Dataset.id new)) /\
  exists update,
    deleteDataset (uploadDatasets new prev) activeDatasetId true (Dataset.id new)
      = Some update /\
    fst (update (uploadDatasets new prev)) = prev.
Proof.
  intros new Hfresh. unfold uploadDatasets.
  split; [apply prefix_app_r; reflexivity|].
  split; [apply last_snoc|].
  split; [reflexivity|]. split; [reflexivity|].
  split; [intros a ->; reflexivity|]. split; [intros ->; reflexivity|].
  unfold deleteDataset.
  rewrite (find_first (Dataset.id new) prev [] new eq_refl Hfresh).
  change (Dataset.source new) with Dataset.upload. cbv iota.
  change (negb true) with false. cbv iota.
  eexists. split; [reflexivity|].
  unfold deleteUpdate. cbn [fst].
  rewrite filter_app, (filter_id_fresh _ prev Hfresh).
  rewrite filter_cons, decide_False by tauto.
  rewrite filter_nil. apply app_nil_r.
Qed.

(** An id made of a file name, a dash and more is neither empty nor
    "demo". *)
Lemma dash_id_not_demo (a rest : string) :
  (a ++ String "-" rest)%string <> "demo" /\ (a ++ String "-" rest)%string <> "".
Proof.
  split.
  - destruct a as [|c1 [|c2 [|c3 [|c4 [|c5 a]]]]]; simpl; intros E;
      inversion E.
  - destruct a; discriminate.
Qed.

Lemma newDataset_id fileName now idx parsed :
  Dataset.id (newDataset fileName now idx parsed) <> "demo" /\
  Dataset.id (newDataset fileName now idx parsed) <> "".
Proof. unfold newDataset. simpl Dataset.id. apply dash_id_not_demo. Qed.

Lemma applyDelete_cases (st : PageState) (confirmed : bool) (id : string) :
  applyDelete st confirmed id = st \/
  (exists ds, ds ∈ datasets st /\ Dataset.id ds = id /\
              Dataset.source ds = Dataset.upload /\
              (forall d', d' ∈ datasets st -> Dataset.id d' = id ->
                          Dataset.id d' = Dataset.id ds) /\
   applyDelete st confirmed id =
     mkState (filter (fun d => Dataset.id d <> id) (datasets st))
             (if bool_decide (activeDatasetId st = Some id)
              then Dataset.id <$> head (filter (fun d => Dataset.id d <> id)
                                               (datasets st))
              else activeDatasetId st)).
Proof.
  unfold applyDelete, deleteDataset.
  destruct (List.find (fun d => String.eqb (Dataset.id d) id) (datasets st))
    as [ds|] eqn:Ef; [|left; reflexivity].
  destruct (find_id_some id _ ds Ef) as [Hin Hid].
  destruct (Dataset.source ds) eqn:Es; [left; reflexivity|].
  destruct confirmed; [|left; reflexivity].
  right. exists ds. split; [exact Hin|]. split; [exact Hid|].
  split; [exact Es|]. split; [intros d' _ Hd'; congruence|].
  unfold deleteUpdate. simpl.
  destruct (bool_decide (activeDatasetId st = Some id)); simpl; [|reflexivity].
  destruct (filter (fun d => Dataset.id d <> id) (datasets st)); reflexivity.
Qed.

Lemma step_wellFormed (st st' : PageState) :
  wellFormed st -> step st st' -> wellFormed st'.
Proof.
  intros (Hids & Hnone & Hsome) Hstep.
  destruct Hstep as [st parsed|st fileName now idx parsed|st ds Hds
                    |st confirmed id].
  - split; [|split]; simpl.
    + intros d Hd. apply list_elem_of_singleton in Hd. subst d. simpl.
      split; [discriminate|tauto].
    + discriminate.
    + intros a [= <-]. exists (demoDataset parsed). split; [left|reflexivity].
  - destruct (newDataset_id fileName now idx parsed) as [Hndemo Hnempty].
    split; [|split]; simpl.
    + intros d Hd. unfold uploadDatasets in Hd.
      apply elem_of_app in Hd as [Hd|Hd]; [exact (Hids d Hd)|].
      apply list_elem_of_singleton in Hd. subst d.
      split; [exact Hnempty|]. split; [discriminate|].
      intros Hdemo. contradiction.
    + unfold uploadActive. destruct (activeDatasetId st); discriminate.
    + intros a Ha. unfold uploadActive in Ha. unfold uploadDatasets.
      destruct (activeDatasetId st) as [a0|] eqn:Ea.
      * injection Ha as <-. destruct (Hsome a0 eq_refl) as (d & Hd & Hid).
        exists d. split; [apply elem_of_app; left; exact Hd|exact Hid].
      * injection Ha as <-. exists (newDataset fileName now idx parsed).
        split; [|reflexivity]. apply elem_of_app. right. left.
  - split; [|split]; simpl.
    + exact Hids.
    + discriminate.
    + intros a [= <-]. exists ds. auto.
  - destruct (applyDelete_cases st confirmed id)
      as [->|(ds & Hds & Hid & Hsrc & _ & ->)].
    + split; [exact Hids|]. split; [exact Hnone|exact Hsome].
    + set (next := filter (fun d => Dataset.id d <> id) (datasets st)).
      split; [|split]; simpl.
      * intros d Hd. apply list_elem_of_filter in Hd as [_ Hd].
        exact (Hids d Hd).
      * destruct (bool_decide (activeDatasetId st = Some id)) eqn:Eb.
        -- fold next. destruct next as [|d next']; [reflexivity|discriminate].
        -- intros Ha. rewrite (Hnone Ha) in Hds. inversion Hds.
      * intros a Ha.
        destruct (bool_decide (activeDatasetId st = Some id)) eqn:Eb.
        -- fold next in Ha. destruct next as [|d next'] eqn:En; [discriminate|].
           injection Ha as <-. exists d. split; [left|reflexivity].
        -- apply bool_decide_eq_false in Eb.
           destruct (Hsome a Ha) as (d & Hd & Hda). exists d.
           split; [|exact Hda]. apply list_elem_of_filter.
           split; [|exact Hd]. congruence.
Qed.

Lemma reachable_wellFormed (st : PageState) : reachable st -> wellFormed st.
Proof.
  induction 1 as [|st st' _ IH Hstep].
  - split; [|split]; simpl.
    + intros d Hd. inversion Hd.
    + reflexivity.
    + discriminate.
  - exact (step_wellFormed st st' IH Hstep).
Qed.

(** X27. In every state that the page can reach by loading the demo,
    reading uploaded files, clicking tabs and deleting datasets, the active
    id is unset exactly when there is no dataset, and otherwise it is a
    non-empty id that names the active dataset: the fallback to the first
    dataset is never what decides the active tab. *)
Theorem X27_active_id_names_a_dataset (st : PageState) :
  reachable st ->
  (activeDatasetId st = None <-> datasets st = []) /\
  (forall a, activeDatasetId st = Some a ->
     a <> "" /\
     exists d, activeDataset (datasets st) (activeDatasetId st) = Some d /\
               d ∈ datasets st /\ Dataset.id d = a).
Proof.
  intros Hreach.
  destruct (reachable_wellFormed st Hreach) as (Hids & Hnone & Hsome).
  split.
  - split; [exact Hnone|]. intros Hempty.
    destruct (activeDatasetId st) as [a|] eqn:Ea; [|reflexivity].
    destruct (Hsome a eq_refl) as (d & Hd & _).
    rewrite Hempty in Hd. inversion Hd.
  - intros a Ha. destruct (Hsome a Ha) as (d & Hd & Hid).
    assert (Hne : a <> "") by (rewrite <- Hid; apply (Hids d Hd)).
    split; [exact Hne|].
    destruct (find_id_exists a (datasets st) d Hd Hid) as (d' & Hf).
    destruct (find_id_some a _ d' Hf) as [Hd' Hid'].
    exists d'. split; [|auto].
    rewrite Ha. unfold activeDataset.
    destruct (datasets st) as [|first rest] eqn:El; [inversion Hd|].
    rewrite (proj2 (String.eqb_neq _ _) Hne), Hf. reflexivity.
Qed.

(** X28. In every reachable state, deleting never removes a demo dataset,
    whatever id is asked for and whatever the user answers; and after any
    transition from a state that has a demo dataset there is still one. *)
Theorem X28_demo_is_never_removed (st st' : PageState) (d : Dataset.t) :
  reachable st ->
  d ∈ datasets st -> Dataset.source d = Dataset.demo ->
  (forall confirmed id, d ∈ datasets (applyDelete st confirmed id)) /\
  (step st st' ->
   exists d', d' ∈ datasets st' /\ Dataset.source d' = Dataset.demo).
Proof.
  intros Hreach Hd Hdemo.
  destruct (reachable_wellFormed st Hreach) as (Hids & _ & _).
  assert (Hdel : forall confirmed id, d ∈ datasets (applyDelete st confirmed id)).
  { intros confirmed id.
    destruct (applyDelete_cases st confirmed id)
      as [->|(ds & Hds & Hid & Hsrc & _ & ->)]; [exact Hd|].
    simpl. apply list_elem_of_filter. split; [|exact Hd].
    intros Hdid.
    destruct (Hids d Hd) as [_ Hd_demo]. destruct (Hids ds Hds) as [_ Hds_demo].
    assert (Hds_id : Dataset.id ds = "demo").
    { rewrite Hid, <- Hdid. apply Hd_demo. exact Hdemo. }
    apply Hds_demo in Hds_id. congruence. }
  split; [exact Hdel|].
  intros Hstep.
  destruct Hstep as [st parsed|st fileName now idx parsed|st ds Hds
                    |st confirmed id].
  - exists (demoDataset parsed). split; [left|reflexivity].
  - exists d. split; [|exact Hdemo]. simpl. unfold uploadDatasets.
    apply elem_of_app. left. exact Hd.
  - exists d. auto.
  - exists d. split; [apply Hdel|exact Hdemo].
Qed.

End HandlerFacts.

(** ** The claims on concrete inputs *)

#[local] Existing Instance decimalRuntime.

Lemma C1_witness :
  IndexScore.mean (indexScore sampleRows sampleIndex) = Num 3.
Proof.
  pose proof (C1_index_mean_excludes_no_data sampleRows sampleIndex) as Hc.
  cbv zeta in Hc. destruct Hc as (Hmeans & _ & _).
  - unfold JS.isArray. simpl. lia.
  - unfold JS.isArray. simpl. lia.
  - apply Hmeans. vm_compute. reflexivity.
Defined.

(** C2, the claim as stated fails: the text "2.5" is coerced to 2.5, which is
    none of 1, 2, 3, 4, 5. *)
Lemma C2_counterexample :
  exists q : Q,
    toLikert (VString "2.5") = Some (Num q) /\
    ~ (q == 1 \/ q == 2 \/ q == 3 \/ q == 4 \/ q == 5)%Q.
Proof.
  exists (5 # 2)%Q. split; [vm_compute; reflexivity|].
  intros [Hq|[Hq|[Hq|[Hq|Hq]]]]; vm_compute in Hq; discriminate Hq.
Qed.

Lemma C2_witness : toLikert (VString "abc") = None.
Proof.
  destruct (C2_toLikert_range (VString "abc")) as (_ & Hc & _).
  apply Hc. do 5 right. left.
Defined.

Lemma C3_witness :
  exists st,
    computeQuestionMeans sampleRows ["Q1"; "Q2"; "Q3"] None !! 0%nat = Some st /\
    QuestionStat.question st = "Q1" /\ QuestionStat.mean st = Num 0.
Proof.
  pose proof (C3_question_order_kept sampleRows ["Q1"; "Q2"; "Q3"] None) as Hc.
  cbv zeta in Hc. destruct Hc as (_ & _ & Hc).
  destruct (Hc 0%nat "Q1" eq_refl) as (st & Hst & Hq & Hm).
  exists st. split; [exact Hst|]. split; [exact Hq|].
  apply Hm. intros row Hin _.
  repeat (apply elem_of_cons in Hin as [->|Hin]; [vm_compute; reflexivity|]).
  inversion Hin.
Defined.

(** Under the hall filter "Hall A" and the RA Support predicate, the
    resident with an RA contributes the answer 3; the resident of the same
    hall whose RA cell is " No " is not aggregated. *)
Lemma C5_witness :
  (rowWithRA ∈ filter (fun r => raAssigned r = true
                                /\ passesHall "Hall A" r = true) hallRows /\
   Num 3 ∈ responses None Q_RA1
             (filter (fun r => raAssigned r = true
                               /\ passesHall "Hall A" r = true) hallRows) /\
   onScale (QuestionStat.mean
              (questionMean (filterRowsByHall hallRows "Hall A")
                            (Some raAssigned) Q_RA1))) /\
  rowNoRA ∉ filter (fun r => raAssigned r = true
                             /\ passesHall "Hall A" r = true) hallRows.
Proof.
  pose proof (C5_ra_support_eligibility hallRows "Hall A" [Q_RA1]) as Hc.
  cbv zeta in Hc. destruct Hc as (_ & _ & Hyes & Hno).
  - unfold JS.isArray. simpl. lia.
  - split.
    + apply (Hyes Q_RA1 rowWithRA (Num 3)).
      * right. left.
      * vm_compute. reflexivity.
      * vm_compute. reflexivity.
      * vm_compute. reflexivity.
    + apply (Hno rowNoRA). vm_compute. reflexivity.
Defined.

Lemma C6_witness : filterRowsByHall hallRows "Hall C" = [].
Proof.
  destruct (C6_hall_filter_all_and_absent hallRows "Hall C") as (_ & _ & Hc).
  apply Hc.
  - discriminate.
  - intros r Hin.
    repeat (apply elem_of_cons in Hin as [->|Hin]; [vm_compute; discriminate|]).
    inversion Hin.
Defined.

(** C7, the claim as stated fails: under the RA Support predicate the only
    row has a valid response to the question, and yet the mean is the 0
    sentinel, because the row is not eligible. *)
Lemma C7_counterexample :
  (exists row, row ∈ [rowNoRA] /\ toLikert (get row Q_RA1) = Some (Num 5)) /\
  map QuestionStat.mean (computeQuestionMeans [rowNoRA] [Q_RA1] (Some raAssigned))
    = [Num 0].
Proof.
  split.
  - exists rowNoRA. split; [left|]. vm_compute. reflexivity.
  - vm_compute. reflexivity.
Qed.

Lemma C7_witness :
  exists m : Q,
    QuestionStat.mean (QuestionStat.mk Q_RA1 (Num (7 # 2))) = Num m /\
    (1 <= m <= 5)%Q.
Proof.
  pose proof (C7_mean_on_scale_or_sentinel hallRows [Q_RA1] (Some raAssigned)
                (QuestionStat.mk Q_RA1 (Num (7 # 2)))) as Hc.
  cbv zeta in Hc. destruct Hc as (Hc & _ & _).
  - unfold JS.isArray. simpl. lia.
  - vm_compute. left.
  - apply Hc. exists rowWithRA. split; [right; left|].
    split; vm_compute; eauto.
Defined.

Lemma C8_witness :
  exists lo hi : Q,
    lo ∈ [score38; score41] /\
    (forall s, s ∈ [score38; score41] -> (lo <= s)%Q) /\
    hi ∈ [score38; score41] /\
    (forall s, s ∈ [score38; score41] -> (s <= hi)%Q) /\
    trendDomain twoPoints =
      (JS.max2 (Num 1) (JS.sub (Num lo) (JS.ofQ (2 # 10))),
       JS.min2 (Num 5) (JS.add (Num hi) (JS.ofQ (2 # 10)))) /\
    (Forall (fun s => (1 <= s <= 5)%Q) [score38; score41] ->
     exists a b : Q,
       trendDomain twoPoints = (Num a, Num b) /\
       (Qabs (a - Qmax 1 (lo - (2 # 10))) <= 1 # 1125899906842624)%Q /\
       (Qabs (b - Qmin 5 (hi + (2 # 10))) <= 1 # 1125899906842624)%Q).
Proof.
  destruct (C8_trend_domain twoPoints [score38; score41]) as (_ & Hc).
  - reflexivity.
  - apply Hc. discriminate.
Defined.

Lemma C9_witness :
  filterRowsByHall hallRows "all" = [] /\
  filterRowsByHall hallRows " Hall A" = [].
Proof.
  split.
  - destruct (C9_sentinel_is_exact hallRows "all") as (_ & _ & Hc & _).
    apply Hc. intros r Hin.
    repeat (apply elem_of_cons in Hin as [->|Hin]; [vm_compute; discriminate|]).
    inversion Hin.
  - destruct (C9_sentinel_is_exact hallRows " Hall A") as (_ & _ & _ & _ & Hc).
    apply Hc.
    + discriminate.
    + vm_compute. discriminate.
Defined.



(** C4, on a failing input.  In a session of 1002 datasets the last one, whose
    label has no year, gets the key 1000 + 1001 = 2001 and is placed after
    the dataset of the year 2000: a dataset without a detectable year does
    not sort before every dataset with one. *)
Theorem C4_no_year_sorted_after_year :
  matchYear (Dataset.label dsYear2000) = Some "2000" /\
  matchYear (Dataset.label dsLate) = None /\
  length longSession = 1002%nat /\
  pageTrendLineData longSession "ALL" overallExperience =
    [ TrendPoint.mk "2000 Survey" 2000 (Num 5);
      TrendPoint.mk "spring_cohort" 2001 (Num 4) ].
Proof. vm_compute. repeat split; reflexivity. Qed.

(** The example of the specification: the labels "ResLife_2026" (score 4.1)
    and "ResLife_2025" (score 3.8) give the series 2025, 2026. *)
Example trend_2025_2026 :
  pageTrendLineData [ds2026; ds2025] "ALL" overallExperience = twoPoints.
Proof. vm_compute. reflexivity. Qed.

(** On that series the domain is [3.5999999999999996, 4.3]: the lower bound
    is the binary64 number just below the one closest to 3.6. *)
Example trendDomain_twoPoints :
  trendDomain twoPoints =
    (Num (2026619832316723 # 562949953421312), JS.ofQ (43 # 10)) /\
  JS.ofQ (36 # 10) = Num (8106479329266893 # 2251799813685248) /\
  (2026619832316723 # 562949953421312 < 8106479329266893 # 2251799813685248)%Q.
Proof. vm_compute. repeat split; reflexivity. Qed.

(** Well-known values of binary64 arithmetic, as the embedding computes
    them: 0.1 and 1/3 as fractions of powers of two,
    0.1 + 0.2 = 0.30000000000000004, 2^53 + 1 = 2^53, the half of the
    smallest number is 0, and the double of the largest one is infinite. *)
Example binary64_known_values :
  Str.toNumber "0.1" = Num (3602879701896397 # 36028797018963968) /\
  JS.div (Num 1) (Num 3) = Num (6004799503160661 # 18014398509481984) /\
  JS.add (Str.toNumber "0.1") (Str.toNumber "0.2")
    = Num (1351079888211149 # 4503599627370496) /\
  Str.toNumber "0.30000000000000004"
    = Num (1351079888211149 # 4503599627370496) /\
  Str.toNumber "0.3" = Num (5404319552844595 # 18014398509481984) /\
  JS.add (Num 9007199254740992) (Num 1) = Num 9007199254740992 /\
  JS.add (Num 9007199254740992) (Num 3) = Num 9007199254740996 /\
  JS.div (Str.toNumber "5e-324") (Num 2) = Num 0 /\
  JS.isFinite (Str.toNumber "1.7976931348623157e308") = true /\
  JS.mul (Str.toNumber "1.7976931348623157e308") (Num 2) = Inf false /\
  Str.toNumber "1e309" = Inf false.
Proof. vm_compute. repeat split; reflexivity. Qed.

(** With the same label twice, the comparison row of Overall Experience keeps
    one column: the score 2.5 of the later dataset, not the 4.5 of the
    earlier one. *)
Example comparison_same_label :
  (fun row => (row !! "index", row !! "2025 Survey", size row))
    <$> pageComparisonData [dsSpring; dsFall] "ALL" !! 5%nat
  = Some (Some (VString "Overall Experience"),
          Some (VNumber (Num (5 # 2))), 2%nat).
Proof. vm_compute. reflexivity. Qed.

(** ** The further properties on concrete inputs *)

Lemma X1_witness :
  inferDatasetLabel "ResLife_2025.csv" = "2025 Survey" /\
  String.length (inferDatasetLabel "ResLife_2025.csv") = 11%nat.
Proof.
  destruct (X1_label_never_empty "ResLife_2025.csv") as (_ & Hc).
  apply (Hc "2025"). reflexivity.
Defined.

Lemma X2_witness :
  2000 <= extractYearOrOrder (inferDatasetLabel "ResLife_2025.csv") 3 <= 2099.
Proof.
  destruct (X2_label_keeps_order_key "ResLife_2025.csv" 3) as (_ & Hc & _).
  apply Hc. vm_compute. discriminate.
Defined.

Lemma X3_witness :
  inferDatasetLabel ("spring.cohort" ++ String "." "csv") = "spring.cohort".
Proof.
  apply (X3_label_drops_extension "spring.cohort" "csv"); reflexivity.
Defined.

Lemma X5_witness :
  zeroOrOnScale (IndexScore.mean (indexScore sampleRows sampleIndex)).
Proof.
  destruct (X5_index_score_range sampleRows sampleIndex) as (Hc & _).
  - unfold JS.isArray. simpl. lia.
  - unfold JS.isArray. simpl. lia.
  - exact Hc.
Defined.

(** The mean of the answers 1, 2 and 2 is the binary64 number closest to
    5/3. *)
Lemma X6_witness :
  QuestionStat.mean (questionMean thirdsRows None "Q1") = JS.ofQ (5 # 3).
Proof.
  pose proof (X6_question_mean_is_average thirdsRows None "Q1") as Hc.
  cbv zeta in Hc. destruct Hc as (vals & Hr & _ & _ & Hmean).
  - unfold JS.isArray. simpl. lia.
  - vm_compute in Hr.
    destruct vals as [|a [|b [|c [|d vals]]]]; try discriminate Hr.
    injection Hr as <- <- <-.
    destruct Hmean as (_ & _ & Hwhole); [discriminate|].
    etransitivity; [apply Hwhole|vm_compute; reflexivity].
    repeat constructor.
    + exists 1%Z. reflexivity.
    + exists 2%Z. reflexivity.
    + exists 2%Z. reflexivity.
Defined.

Lemma X7_witness :
  questionMean ([rowOf [("Q1", "4")]] ++ rowOf [("Q2", "5")] :: [rowOf [("Q1", "2")]])
               None "Q1"
  = questionMean ([rowOf [("Q1", "4")]] ++ [rowOf [("Q1", "2")]]) None "Q1".
Proof.
  destruct (X7_unanswered_row_is_ignored [rowOf [("Q1", "4")]]
              [rowOf [("Q1", "2")]] (rowOf [("Q2", "5")]) None "Q1")
    as (Hc & _).
  apply Hc. left. vm_compute. reflexivity.
Defined.

Lemma X8_witness :
  toLikert (VString ("  " ++ "4" ++ " ")) = toLikert (VString "4").
Proof.
  apply (X8_white_space_is_ignored "  " "4" " " COL_BUILDING ∅); reflexivity.
Defined.

Lemma X9_witness :
  filterRowsByHall (filterRowsByHall hallRows "Hall A") "Hall B" = [].
Proof.
  destruct (X9_hall_filter_selects hallRows [] "Hall A" "Hall B")
    as (_ & _ & _ & Hc).
  apply Hc; discriminate.
Defined.

Lemma X10_witness :
  exists ds, ds ∈ [dsHalls] /\ filterRowsByHall (Dataset.rows ds) "Hall B" <> [].
Proof.
  destruct (X10_hall_options [dsHalls]) as (_ & _ & _ & Hc).
  apply Hc; [|discriminate]. vm_compute. right. left.
Defined.

(** Two residents of a hall called "constructor": its counter is a text. *)
Lemma X11_witness :
  buildingCounts constructorRows !! "constructor"
    = Some (VString "function Object() { [native code] }11").
Proof.
  destruct (X11_counts_are_frequencies constructorRows "constructor")
    as (_ & Hc & _).
  - unfold JS.isArray. simpl. lia.
  - etransitivity;
      [apply (Hc "function Object() { [native code] }")
      |vm_compute; reflexivity].
    + vm_compute. reflexivity.
    + discriminate.
    + vm_compute. lia.
Defined.

Lemma X12_witness :
  buildingCounts (filterRowsByHall hallRows "Hall A")
  = {[ "Hall A" :=
         VNumber (JS.ofNat (totalResponses (filterRowsByHall hallRows "Hall A"))) ]}.
Proof.
  refine (X12_single_hall_view hallRows "Hall A" _ _ _ _ _).
  - unfold JS.isArray. simpl. lia.
  - discriminate.
  - discriminate.
  - vm_compute. reflexivity.
  - intros Hnil. apply (f_equal length) in Hnil. vm_compute in Hnil.
    discriminate Hnil.
Defined.

(** Twenty-three residents out of forty have an RA. *)
Lemma X13_witness : raYesRate raRows = JS.ofQ (23 # 40).
Proof.
  destruct (X13_ra_yes_rate raRows) as (_ & _ & Hc & _).
  - unfold JS.isArray. simpl. lia.
  - etransitivity; [apply Hc|vm_compute; reflexivity].
    vm_compute. lia.
Defined.

(** The card then shows 57: the rate is the binary64 number just below
    0.575, and its product by 100 is below 57.5, while 57.5 itself would be
    rounded to 58. *)
Example raYesPercent_23_of_40 :
  raYesPercent raRows = Num 57 /\
  mathRound (Num (575 # 10)) = Num 58.
Proof. vm_compute. split; reflexivity. Qed.

Lemma X14_witness :
  cellText COL_COMMENTS (rowOf [(COL_COMMENTS, " Great RA ")])
    ∈ sampleText commentRows COL_COMMENTS 5.
Proof.
  destruct (X14_sample_text commentRows [] COL_COMMENTS 5)
    as (_ & _ & _ & Hc & _).
  apply Hc.
  - vm_compute. lia.
  - right. right. left.
  - vm_compute. discriminate.
Defined.

Lemma X15_witness :
  activeDataset [ds2026; ds2025] (Some "ResLife_2025.csv-2-0") = Some ds2025.
Proof.
  destruct (X15_active_dataset [ds2026; ds2025] (Some "ResLife_2025.csv-2-0"))
    as (_ & _ & Hc & _).
  apply (Hc "ResLife_2025.csv-2-0" [ds2026] ds2025 []);
    [reflexivity|discriminate|reflexivity|reflexivity|].
  intros d' Hd'. apply list_elem_of_singleton in Hd'. subst d'. discriminate.
Defined.

Lemma X16_witness :
  indexScoresByDataset [ds2026; ds2025] "ALL" !! Dataset.id ds2025 =
  Some (computeIndexScores (filterRowsByHall (Dataset.rows ds2025) "ALL")).
Proof.
  destruct (X16_scores_by_dataset_id [ds2026; ds2025] "ALL" ds2025)
    as (_ & Hc & _).
  - right. left.
  - apply Hc. vm_compute.
    apply NoDup_cons_2; [|apply NoDup_singleton].
    intros Hin. apply list_elem_of_singleton in Hin. discriminate Hin.
Defined.

Lemma X17_witness :
  exists x,
    comparisonRow [dsSpring; dsFall]
                  (indexScoresByDataset [dsSpring; dsFall] "ALL") sampleIndex
      !! Dataset.label dsSpring = Some (VNumber x) /\
    zeroOrOnScale x.
Proof.
  destruct (X17_comparison_cells [dsSpring; dsFall] "ALL" dsSpring sampleIndex)
    as (_ & Hc & _).
  - repeat constructor; unfold JS.isArray; simpl; lia.
  - left.
  - apply Hc. discriminate.
Defined.

Lemma X18_witness :
  Forall (fun p => zeroOrOnScale (RadarPoint.score p)
                   /\ RadarPoint.fullMark p = Num 5)
         (radarData (activeIndexScores [ds2026; ds2025] (Some (Dataset.id ds2025))
                       (indexScoresByDataset [ds2026; ds2025] "ALL"))).
Proof.
  destruct (X18_radar_points [ds2026; ds2025] (Some (Dataset.id ds2025)) "ALL")
    as (_ & _ & Hc).
  - repeat constructor; unfold JS.isArray; simpl; lia.
  - exact Hc.
Defined.

Lemma X19_witness :
  StronglySorted byOrder
    (trendLineData [ds2026; ds2025]
                   (indexScoresByDataset [ds2026; ds2025] "ALL")
                   overallExperience).
Proof.
  destruct (X19_trend_series_is_stable_sort [ds2026; ds2025]
              (indexScoresByDataset [ds2026; ds2025] "ALL") overallExperience)
    as (_ & Hc).
  apply Hc. simpl. lia.
Defined.

(** A dataset without a year between two survey years comes first in the
    series, and what follows the dataset of 2025 has a year. *)
Lemma X20_witness :
  trendLineData threeSurveys (indexScoresByDataset threeSurveys "ALL")
                overallExperience
    = ([TrendPoint.mk "spring_cohort" 1001 (Num 4)]
       ++ TrendPoint.mk "ResLife_2025" 2025 (Num score38)
       :: [TrendPoint.mk "ResLife_2026" 2026 (Num score41)])%list /\
  matchYear "spring_cohort" = None /\
  matchYear "ResLife_2026" <> None /\ (2025 <= 2026)%Z.
Proof.
  assert (Hseries :
    trendLineData threeSurveys (indexScoresByDataset threeSurveys "ALL")
                  overallExperience
    = ([TrendPoint.mk "spring_cohort" 1001 (Num 4)]
       ++ TrendPoint.mk "ResLife_2025" 2025 (Num score38)
       :: [TrendPoint.mk "ResLife_2026" 2026 (Num score41)])%list)
    by (vm_compute; reflexivity).
  split; [exact Hseries|]. split; [reflexivity|].
  apply (X20_no_year_first_up_to_1000 threeSurveys
           (indexScoresByDataset threeSurveys "ALL") overallExperience
           [TrendPoint.mk "spring_cohort" 1001 (Num 4)]
           [TrendPoint.mk "ResLife_2026" 2026 (Num score41)]
           (TrendPoint.mk "ResLife_2025" 2025 (Num score38))
           (TrendPoint.mk "ResLife_2026" 2026 (Num score41))).
  - simpl. lia.
  - exact Hseries.
  - vm_compute. discriminate.
  - left.
Defined.

Lemma X21_witness :
  exists a b : Q,
    trendDomain (pageTrendLineData [ds2026; ds2025] "ALL" overallExperience)
      = (Num a, Num b) /\
    (1 <= a)%Q /\ (a <= b)%Q /\ (b <= 5)%Q /\
    forall p, p ∈ pageTrendLineData [ds2026; ds2025] "ALL" overallExperience ->
      exists s : Q, TrendPoint.score p = Num s /\ (a <= s <= b)%Q.
Proof.
  apply (X21_domain_contains_scores [ds2026; ds2025] "ALL" overallExperience).
  repeat constructor; unfold JS.isArray; simpl; lia.
Defined.

Lemma X22_witness :
  length (Dataset.rows dsHalls) =
  (length (filter (fun r => buildingOf r = "") (Dataset.rows dsHalls))
   + sum_list (map (fun h => totalResponses
                               (filterRowsByHall (Dataset.rows dsHalls) h))
                   (hallOptions [dsHalls])))%nat.
Proof.
  refine (X22_hall_views_partition [dsHalls] dsHalls _ _).
  - left.
  - intros Hin. vm_compute in Hin.
    repeat (apply elem_of_cons in Hin as [Hin|Hin]; [discriminate Hin|]).
    inversion Hin.
Defined.


Lemma X24_witness :
  snd (deleteUpdate (Some (Dataset.id dsFall)) (Dataset.id dsFall)
                    [dsSpring; dsFall])
  = Some (Dataset.id <$>
            head (fst (deleteUpdate (Some (Dataset.id dsFall))
                                    (Dataset.id dsFall) [dsSpring; dsFall]))).
Proof.
  destruct (X24_delete_removes_the_id [dsSpring; dsFall] [dsSpring; dsFall]
              (Some (Dataset.id dsFall)) true (Dataset.id dsFall)
              (deleteUpdate (Some (Dataset.id dsFall)) (Dataset.id dsFall)))
    as (_ & _ & _ & _ & _ & Hc).
  - reflexivity.
  - apply Hc. reflexivity.
Defined.

Lemma X26_witness :
  exists update,
    deleteDataset (uploadDatasets sampleUpload (datasets demoOnly))
                  (Some "demo") true (Dataset.id sampleUpload) = Some update /\
    fst (update (uploadDatasets sampleUpload (datasets demoOnly)))
      = datasets demoOnly.
Proof.
  pose proof (X26_upload_then_delete (datasets demoOnly) (Some "demo")
                (Some "demo") "spring_cohort.csv" 1700000000000 0
                (answers Q_OE1 ["4"])) as Hc.
  cbv zeta in Hc. destruct Hc as (_ & _ & _ & _ & _ & _ & Hc).
  - intros d Hd. apply list_elem_of_singleton in Hd. subst d.
    vm_compute. discriminate.
  - exact Hc.
Defined.

Lemma sampleState_reachable : reachable sampleState.
Proof.
  apply (reachable_step demoOnly); [|apply step_file_loaded].
  apply (reachable_step initialState); [apply reachable_initial|].
  apply step_demo_loaded.
Qed.

Lemma X27_witness :
  activeDatasetId sampleState = None <-> datasets sampleState = [].
Proof.
  destruct (X27_active_id_names_a_dataset sampleState) as [Hc _].
  - exact sampleState_reachable.
  - exact Hc.
Defined.

Lemma X28_witness :
  demoDataset sampleRows ∈ datasets (applyDelete sampleState true "demo").
Proof.
  destruct (X28_demo_is_never_removed sampleState sampleState
              (demoDataset sampleRows) sampleState_reachable) as [Hc _].
  - left.
  - reflexivity.
  - apply Hc.
Defined.
